(** * ChangeSetPersister

    A shallow embedding of [packages/core/src/unit-of-work/ChangeSetPersister.ts]
    and the properties of its insert, update and delete flows.

    The persister mutates objects that its caller owns (entities, change sets,
    collections, identifier placeholders), so all of them live in stores that
    are addressed by reference, and every method is a computation over these
    stores that either returns or throws. *)

From Stdlib Require Import ZArith Lia.
From stdpp Require Import base option list gmap strings functions.

Local Set Warnings "-register-all".

(** ** JavaScript values *)

Inductive value :=
  | VUndefined
  | VNull
  | VBool (b : bool)
  | VNum (n : Z)
  | VStr (s : string)
  | VIdentifier (cell : nat)      (* an [EntityIdentifier] instance *)
  | VEntity (addr : nat)          (* a reference to an entity *)
  | VCollection (addr : nat)      (* a reference to a [Collection] *)
  | VArray (vs : list value)
  | VObject (o : gmap string value).

(** A plain object used as a dictionary: [Dictionary], [EntityData]. *)
Abbreviation Dictionary := (gmap string value).

(** [o[k]]: reading a key that is not there gives [undefined]. *)
Definition get (o : Dictionary) (k : string) : value :=
  default VUndefined (o !! k).

(** JavaScript truthiness, as used by [&&], [!] and [if]. *)
Definition truthy (v : value) : bool :=
  match v with
  | VUndefined | VNull | VBool false | VNum Z0 | VStr EmptyString => false
  | _ => true
  end.

(** Modelled from the spec: [Utils.isDefined(data, considerNullUndefined)] of
    [utils/Utils.ts], the test behind "the entity already holds an explicit
    value": a value is explicit when it is not [undefined] and, when nulls
    count as undefined, not [null] either. *)
Definition isDefined (data : value) (considerNullUndefined : bool) : bool :=
  match data with
  | VUndefined => false
  | VNull => negb considerNullUndefined
  | _ => true
  end.

(** ** Metadata *)

Definition Platform := string.

Record CustomType := {
  convertToJSValue : value -> Platform -> value;
}.

Record EntityProperty := {
  prop_name : string;
  fieldNames : option (list string);
  primary : bool;
  onCreate : option (Dictionary -> value);
  onUpdate : option (Dictionary -> value);
  customType : option CustomType;
}.

Record EntityMetadata := {
  meta_name : string;
  properties : list EntityProperty;     (* [Object.values(meta.properties)] *)
  primaryKeys : list string;
  compositePK : bool;
  versionProperty : option string;
}.

(** [meta.properties[k]] *)
Definition meta_prop (meta : EntityMetadata) (k : string) : option EntityProperty :=
  List.find (fun p => String.eqb (prop_name p) k) (properties meta).

(** [a[0]] on an array of strings used as a property key: an empty array
    gives [undefined], which as a key reads "undefined". *)
Definition first_key (a : list string) : string := hd "undefined"%string a.

(** ** Entities, change sets, query results *)

Record Entity := {
  data : Dictionary;            (* [entity[prop.name]] *)
  __uuid : string;
  __initialized : bool;
  __populated : bool;
  __meta : EntityMetadata;
}.

Definition set_data (f : Dictionary -> Dictionary) (e : Entity) : Entity :=
  {| data := f (data e); __uuid := __uuid e; __initialized := __initialized e;
     __populated := __populated e; __meta := __meta e |}.

Definition set_initialized (b : bool) (e : Entity) : Entity :=
  {| data := data e; __uuid := __uuid e; __initialized := b;
     __populated := __populated e; __meta := __meta e |}.

(** [wrapped.populated()] *)
Definition populated (e : Entity) : Entity :=
  {| data := data e; __uuid := __uuid e; __initialized := __initialized e;
     __populated := true; __meta := __meta e |}.

(** Modelled from the spec: [Utils.getPrimaryKeyCond(entity, primaryKeys)] of
    [utils/Utils.ts], the condition "primary key equals entity's primary key":
    every primary-key property is bound to the value the entity holds. *)
Definition getPrimaryKeyCond (e : Dictionary) (pks : list string) : Dictionary :=
  fold_left (fun o pk => <[pk := get e pk]> o) pks ∅.

(** Modelled from the spec: the [__primaryKey] getter of the wrapped entity
    ([entity/WrappedEntity.ts]), "a primary-key value (scalar or composite),
    possibly unset before creation".  A simple key is the value of the one
    primary-key property; a composite key is the condition over the ordered
    primary-key properties, and is unset as long as one of them is. *)
Definition get__primaryKey (e : Entity) : value :=
  let pks := primaryKeys (__meta e) in
  if (1 <? length pks)%nat then
    if forallb (fun pk => isDefined (get (data e) pk) true) pks
    then VObject (getPrimaryKeyCond (data e) pks)
    else VNull
  else get (data e) (first_key pks).

(** Modelled from the spec: the [__primaryKey] setter of the wrapped entity;
    [mapPrimaryKey] reads the key it has just assigned back from the first
    primary-key property. *)
Definition set__primaryKey (id : value) (e : Entity) : Entity :=
  set_data <[first_key (primaryKeys (__meta e)) := id]> e.

(** Modelled from the spec: the [__primaryKeys] getter of the wrapped entity,
    "each entity's ordered tuple of key values". *)
Definition get__primaryKeys (e : Entity) : value :=
  VArray (map (get (data e)) (primaryKeys (__meta e))).

Inductive ChangeSetType := CREATE | UPDATE | DELETE.

Record ChangeSet := {
  cs_name : string;
  cs_type : ChangeSetType;
  payload : Dictionary;
  entity : nat;                 (* reference into the entity store *)
  persisted : bool;
}.

Definition set_payload (f : Dictionary -> Dictionary) (cs : ChangeSet) : ChangeSet :=
  {| cs_name := cs_name cs; cs_type := cs_type cs; payload := f (payload cs);
     entity := entity cs; persisted := persisted cs |}.

Definition set_persisted (b : bool) (cs : ChangeSet) : ChangeSet :=
  {| cs_name := cs_name cs; cs_type := cs_type cs; payload := payload cs;
     entity := entity cs; persisted := b |}.

Record QueryResult := {
  affectedRows : value;
  insertId : value;
  row : option Dictionary;
}.

(** ** The collaborators *)

Definition Transaction := nat.

(** The calls the persister makes on the driver, with their arguments. *)
Inductive DriverCall :=
  | NativeInsert (entityName : string) (payload : Dictionary) (ctx : option Transaction)
  | NativeUpdate (entityName : string) (cond : value) (payload : Dictionary)
                 (ctx : option Transaction)
  | NativeDelete (entityName : string) (cond : value) (ctx : option Transaction)
  | FindOne (entityName : string) (cond : value) (fields : list string)
            (ctx : option Transaction).

Definition DriverException := string.

(** The driver is any deterministic store: what it answers to a call may
    depend on every call made before (first argument, oldest first). *)
Record IDatabaseDriver := {
  nativeInsert : list DriverCall -> string -> Dictionary -> option Transaction ->
                 DriverException + QueryResult;
  nativeUpdate : list DriverCall -> string -> value -> Dictionary -> option Transaction ->
                 DriverException + QueryResult;
  nativeDelete : list DriverCall -> string -> value -> option Transaction ->
                 DriverException + QueryResult;
  findOne : list DriverCall -> string -> value -> list string -> option Transaction ->
            DriverException + option Dictionary;
  getPlatform : Platform;
}.

(** The hydrator's coercion of one raw value into the typed field. *)
Record Hydrator := {
  hydrateValue : EntityProperty -> value -> value;
}.

(** Modelled from the spec: [Hydrator.hydrate(entity, meta, data, newEntity,
    returning)] of [hydration/Hydrator.ts], which "writes raw values into
    typed entity fields using the same coercion rules as ordinary row
    loading": every property of the type that [data] holds a value for is
    written, coerced, into the entity. *)
Definition hydrateProperty (h : Hydrator) (d : Dictionary) (e : Entity)
    (prop : EntityProperty) : Entity :=
  match d !! prop_name prop with
  | Some v => set_data <[prop_name prop := hydrateValue h prop v]> e
  | None => e
  end.

Definition hydrate (h : Hydrator) (e : Entity) (meta : EntityMetadata)
    (d : Dictionary) (newEntity returning : bool) : Entity :=
  fold_left (hydrateProperty h d) (properties meta) e.

(** The constructor arguments of the class.  The identifier map sends an
    entity's uuid to its [EntityIdentifier]; the persister never adds or
    removes an entry, it only sets the value of the identifier. *)
Record ChangeSetPersister := {
  driver : IDatabaseDriver;
  identifierMap : gmap string nat;
  metadata : string -> option EntityMetadata;     (* [MetadataStorage.find] *)
  hydrator : Hydrator;
}.

(** ** Stores and the computation monad *)

Record State := {
  entities : nat -> Entity;
  collections : nat -> bool;          (* the populated flag of each collection *)
  changeSets : nat -> ChangeSet;
  identifiers : nat -> value;         (* the value of each [EntityIdentifier] *)
  calls : list DriverCall;            (* driver calls issued so far *)
}.

Inductive Exception :=
  | DriverError (e : DriverException)
  | OptimisticLockError (entity : nat)      (* [OptimisticLockError.lockFailed(entity)] *)
  | TypeError.                              (* a property read on [undefined] or [null] *)

Definition M (A : Type) : Type := State -> (Exception + A) * State.

Definition ret {A} (a : A) : M A := fun s => (inr a, s).

Definition bind {A B} (m : M A) (k : A -> M B) : M B :=
  fun s =>
    match m s with
    | (inr a, s') => k a s'
    | (inl e, s') => (inl e, s')
    end.

Definition throw {A} (e : Exception) : M A := fun s => (inl e, s).

Definition gets {A} (f : State -> A) : M A := fun s => (inr (f s), s).

Definition modify (f : State -> State) : M unit := fun s => (inr tt, f s).

Declare Scope persister_scope.
Delimit Scope persister_scope with persister.
Notation "x <- c1 ;; c2" := (bind c1 (fun x => c2))
  (at level 100, c1 at next level, right associativity) : persister_scope.
Notation "c1 ;; c2" := (bind c1 (fun _ => c2))
  (at level 100, right associativity) : persister_scope.
Local Open Scope persister_scope.

(** [o!.field]: the non-null assertion has no effect at run time; reading a
    field of an absent object throws. *)
Definition deref {A} (o : option A) : M A :=
  match o with
  | Some a => ret a
  | None => throw TypeError
  end.

(** [for (const x of xs) await f(x)] and [xs.forEach(f)] *)
Fixpoint forEach {A} (f : A -> M unit) (xs : list A) : M unit :=
  match xs with
  | [] => ret tt
  | x :: xs' => f x ;; forEach f xs'
  end.

Definition upd_entity (a : nat) (f : Entity -> Entity) (s : State) : State :=
  {| entities := <[a := f (entities s a)]> (entities s);
     collections := collections s; changeSets := changeSets s;
     identifiers := identifiers s; calls := calls s |}.

Definition upd_collection (k : nat) (b : bool) (s : State) : State :=
  {| entities := entities s; collections := <[k := b]> (collections s);
     changeSets := changeSets s; identifiers := identifiers s; calls := calls s |}.

Definition upd_changeSet (c : nat) (f : ChangeSet -> ChangeSet) (s : State) : State :=
  {| entities := entities s; collections := collections s;
     changeSets := <[c := f (changeSets s c)]> (changeSets s);
     identifiers := identifiers s; calls := calls s |}.

(** [identifier.setValue(v)] *)
Definition setValue (cell : nat) (v : value) (s : State) : State :=
  {| entities := entities s; collections := collections s; changeSets := changeSets s;
     identifiers := <[cell := v]> (identifiers s); calls := calls s |}.

Definition log (c : DriverCall) (s : State) : State :=
  {| entities := entities s; collections := collections s; changeSets := changeSets s;
     identifiers := identifiers s; calls := calls s ++ [c] |}.

(** [await driver.f(...)]: the call is issued, then its answer is returned
    or its error thrown as it is. *)
Definition await {A} (c : DriverCall) (answer : list DriverCall -> DriverException + A)
  : M A :=
  fun s =>
    match answer (calls s) with
    | inl e => (inl (DriverError e), log c s)
    | inr a => (inr a, log c s)
    end.

(** ** The methods of the class *)

Section Methods.

(** [Utils.getPrimaryKeyHash] builds the name under which a (possibly
    composite) key is addressed; it is defined in [utils/Utils.ts] and the
    persister only passes its result on. *)
Variable getPrimaryKeyHash : list string -> string.

Variable this : ChangeSetPersister.

(** [{ [pk]: { $in: pks } }] *)
Definition in_cond (pk : string) (pks : list value) : value :=
  VObject {[ pk := VObject {[ "$in"%string := VArray pks ]} ]}.

Definition mapPrimaryKey (meta : option EntityMetadata) (v : value) (c : nat) : M unit :=
  meta <- deref meta ;;
  prop <- deref (meta_prop meta (first_key (primaryKeys meta))) ;;
  let insertId :=
    match customType prop with
    | Some t => convertToJSValue t v (getPlatform (driver this))
    | None => v
    end in
  cs <- gets (fun s => changeSets s c) ;;
  wrapped <- gets (fun s => entities s (entity cs)) ;;
  modify (upd_entity (entity cs)
            (set__primaryKey
               (if isDefined (get__primaryKey wrapped) true
                then get__primaryKey wrapped else insertId))) ;;
  identifier <- deref (identifierMap this !! __uuid wrapped) ;;
  e <- gets (fun s => entities s (entity cs)) ;;
  modify (setValue identifier (get (data e) (prop_name prop))).

Definition processProperty (c : nat) (prop : EntityProperty) : M unit :=
  cs <- gets (fun s => changeSets s c) ;;
  match get (payload cs) (prop_name prop) with
  | VIdentifier cell =>
      v <- gets (fun s => identifiers s cell) ;;
      modify (upd_changeSet c (set_payload <[prop_name prop := v]>))
  | _ => ret tt
  end ;;
  match onCreate prop, cs_type cs with
  | Some rule, CREATE =>
      e <- gets (fun s => entities s (entity cs)) ;;
      let v := rule (data e) in
      modify (upd_changeSet c (set_payload <[prop_name prop := v]>)) ;;
      modify (upd_entity (entity cs) (set_data <[prop_name prop := v]>)) ;;
      if primary prop then
        e <- gets (fun s => entities s (entity cs)) ;;
        mapPrimaryKey (Some (__meta e)) (get (data e) (prop_name prop)) c
      else ret tt
  | _, _ => ret tt
  end ;;
  match onUpdate prop, cs_type cs with
  | Some rule, UPDATE =>
      e <- gets (fun s => entities s (entity cs)) ;;
      let v := rule (data e) in
      modify (upd_changeSet c (set_payload <[prop_name prop := v]>)) ;;
      modify (upd_entity (entity cs) (set_data <[prop_name prop := v]>))
  | _, _ => ret tt
  end.

Definition processProperties (c : nat) : M unit :=
  cs <- gets (fun s => changeSets s c) ;;
  meta <- deref (metadata this (cs_name cs)) ;;
  forEach (processProperty c) (properties meta).

(** The callback and the [reduce] of [mapReturnedValues]: the values handed
    to the hydrator. *)
Definition returnedValue (e r : Dictionary) (d : Dictionary) (prop : EntityProperty)
  : Dictionary :=
  match fieldNames prop with
  | Some fns =>
      if truthy (get r (first_key fns))
         && negb (isDefined (get e (prop_name prop)) true)
      then <[prop_name prop := get r (first_key fns)]> d
      else d
  | None => d
  end.

Definition returnedData (e r : Dictionary) (meta : EntityMetadata) : Dictionary :=
  fold_left (returnedValue e r) (properties meta) ∅.

Definition mapReturnedValues (a : nat) (res : QueryResult) (meta : option EntityMetadata)
  : M unit :=
  match row res with
  | Some r =>
      if (0 <? size r)%nat then
        meta <- deref meta ;;
        e <- gets (fun s => entities s a) ;;
        modify (upd_entity a (fun e' =>
                  hydrate (hydrator this) e' meta (returnedData (data e) r meta)
                    false true))
      else ret tt
  | None => ret tt
  end.

Definition markAsPopulated (c : nat) (meta : option EntityMetadata) : M unit :=
  cs <- gets (fun s => changeSets s c) ;;
  modify (upd_entity (entity cs) populated) ;;
  meta <- deref meta ;;
  forEach
    (fun prop =>
       e <- gets (fun s => entities s (entity cs)) ;;
       match get (data e) (prop_name prop) with
       | VEntity a => modify (upd_entity a populated)
       | VCollection k => modify (upd_collection k true)
       | _ => ret tt
       end)
    (properties meta).

(** The predicate [updateEntity] sends along with the payload. *)
Definition updateCond (meta : EntityMetadata) (e : Entity) : value :=
  match versionProperty meta with
  | Some vp =>
      if truthy (get (data e) vp)
      then VObject (<[vp := get (data e) vp]>
                      (getPrimaryKeyCond (data e) (primaryKeys meta)))
      else get__primaryKey e
  | None => get__primaryKey e
  end.

Definition updateEntity (meta : option EntityMetadata) (c : nat)
    (ctx : option Transaction) : M QueryResult :=
  meta <- deref meta ;;
  cs <- gets (fun s => changeSets s c) ;;
  e <- gets (fun s => entities s (entity cs)) ;;
  await (NativeUpdate (cs_name cs) (updateCond meta e) (payload cs) ctx)
    (fun h => nativeUpdate (driver this) h (cs_name cs) (updateCond meta e)
                (payload cs) ctx).

Definition processOptimisticLock (meta : option EntityMetadata) (c : nat)
    (res : option QueryResult) (ctx : option Transaction) : M unit :=
  meta <- deref meta ;;
  match versionProperty meta with
  | None => ret tt
  | Some vp =>
      cs <- gets (fun s => changeSets s c) ;;
      if match cs_type cs, res with
         | UPDATE, Some r => negb (truthy (affectedRows r))
         | _, _ => false
         end
      then throw (OptimisticLockError (entity cs))
      else
        wrapped <- gets (fun s => entities s (entity cs)) ;;
        e <- await (FindOne (meta_name meta) (get__primaryKey wrapped) [vp] ctx)
               (fun h => findOne (driver this) h (meta_name meta)
                           (get__primaryKey wrapped) [vp] ctx) ;;
        e <- deref e ;;
        modify (upd_entity (entity cs) (set_data <[vp := get e vp]>))
  end.

Definition persistNewEntity (c : nat) (ctx : option Transaction) : M unit :=
  cs <- gets (fun s => changeSets s c) ;;
  let meta := metadata this (cs_name cs) in
  res <- await (NativeInsert (cs_name cs) (payload cs) ctx)
           (fun h => nativeInsert (driver this) h (cs_name cs) (payload cs) ctx) ;;
  wrapped <- gets (fun s => entities s (entity cs)) ;;
  let hasPrimaryKey := isDefined (get__primaryKey wrapped) true in
  mapReturnedValues (entity cs) res meta ;;
  (if hasPrimaryKey then ret tt else mapPrimaryKey meta (insertId res) c) ;;
  markAsPopulated c meta ;;
  modify (upd_entity (entity cs) (set_initialized true)) ;;
  processOptimisticLock meta c (Some res) ctx ;;
  modify (upd_changeSet c (set_persisted true)).

Definition persistManagedEntity (c : nat) (ctx : option Transaction) : M unit :=
  cs <- gets (fun s => changeSets s c) ;;
  let meta := metadata this (cs_name cs) in
  res <- updateEntity meta c ctx ;;
  mapReturnedValues (entity cs) res meta ;;
  processOptimisticLock meta c (Some res) ctx ;;
  modify (upd_changeSet c (set_persisted true)).

Definition executeInserts (changeSets : list nat) (ctx : option Transaction) : M unit :=
  forEach processProperties changeSets ;;
  forEach (fun c => persistNewEntity c ctx) changeSets.

Definition executeUpdates (changeSets : list nat) (ctx : option Transaction) : M unit :=
  forEach processProperties changeSets ;;
  forEach (fun c => persistManagedEntity c ctx) changeSets.

Definition executeDeletes (css : list nat) (ctx : option Transaction) : M unit :=
  c0 <- deref (head css) ;;
  cs0 <- gets (fun s => changeSets s c0) ;;
  e0 <- gets (fun s => entities s (entity cs0)) ;;
  let meta := __meta e0 in
  let pk := getPrimaryKeyHash (primaryKeys meta) in
  if compositePK meta then
    pks <- gets (fun s =>
             map (fun c => get__primaryKeys (entities s (entity (changeSets s c)))) css) ;;
    _ <- await (NativeDelete (cs_name cs0) (in_cond pk pks) ctx)
           (fun h => nativeDelete (driver this) h (cs_name cs0) (in_cond pk pks) ctx) ;;
    ret tt
  else
    pks <- gets (fun s =>
             map (fun c => get__primaryKey (entities s (entity (changeSets s c)))) css) ;;
    _ <- await (NativeDelete (cs_name cs0) (in_cond pk pks) ctx)
           (fun h => nativeDelete (driver this) h (cs_name cs0) (in_cond pk pks) ctx) ;;
    ret tt.

End Methods.

Arguments mapPrimaryKey : simpl never.
Arguments processProperty : simpl never.
Arguments processProperties : simpl never.
Arguments mapReturnedValues : simpl never.
Arguments markAsPopulated : simpl never.
Arguments updateEntity : simpl never.
Arguments processOptimisticLock : simpl never.
Arguments persistNewEntity : simpl never.
Arguments persistManagedEntity : simpl never.
Arguments hydrate : simpl never.
Arguments returnedData : simpl never.
Arguments get__primaryKey : simpl never.
Arguments set__primaryKey : simpl never.
Arguments updateCond : simpl never.

Arguments in_cond : simpl never.

(** ** Auxiliary definitions *)

(** Both [reduce] and the hydrator walk the properties and write some of
    them under their own name. *)
Definition assign (w : EntityProperty -> option value) (acc : Dictionary)
    (prop : EntityProperty) : Dictionary :=
  match w prop with
  | Some v => <[prop_name prop := v]> acc
  | None => acc
  end.

(** What the hydrator is handed for a property, and what it writes. *)
Definition returned (e r : Dictionary) (prop : EntityProperty) : option value :=
  match fieldNames prop with
  | Some fns =>
      if truthy (get r (first_key fns)) && negb (isDefined (get e (prop_name prop)) true)
      then Some (get r (first_key fns))
      else None
  | None => None
  end.

(** The [insertId] constant of [mapPrimaryKey]: the generated id after the
    custom conversion of the primary-key property, when it declares one. *)
Definition convertedKey (this : ChangeSetPersister) (prop : EntityProperty) (v : value)
  : value :=
  match customType prop with
  | Some t => convertToJSValue t v (getPlatform (driver this))
  | None => v
  end.

(** What a property that held [old], not an explicit value, holds after
    [mapReturnedValues]. *)
Definition rowValue (this : ChangeSetPersister) (prop : EntityProperty)
    (res : QueryResult) (old : value) : value :=
  match row res, fieldNames prop with
  | Some r, Some fns =>
      if truthy (get r (first_key fns))
      then hydrateValue (hydrator this) prop (get r (first_key fns))
      else old
  | _, _ => old
  end.

(** Every insert the driver answers carries a generated id that is an
    explicit value once converted for the key property. *)
Definition ids_defined (this : ChangeSetPersister) (meta : EntityMetadata) : Prop :=
  forall h n d ctx r prop,
    nativeInsert (driver this) h n d ctx = inr r ->
    meta_prop meta (first_key (primaryKeys meta)) = Some prop ->
    isDefined (convertedKey this prop (insertId r)) true = true.

(** The version [v] was fetched by a lookup on the key [pk] that is in the
    log [log], after the calls [before]. *)
Definition looked_up (this : ChangeSetPersister) (meta : EntityMetadata) (vp : string)
    (ctx : option Transaction) (before log : list DriverCall) (pk v : value) : Prop :=
  exists h l found,
    log = before ++ h ++ FindOne (meta_name meta) pk [vp] ctx :: l /\
    findOne (driver this) (before ++ h) (meta_name meta) pk [vp] ctx = inr (Some found) /\
    v = get found vp.

(** What [persistNewEntity] has achieved for the change set [c] once it has
    returned. *)
Definition insert_done (this : ChangeSetPersister) (meta : EntityMetadata)
    (ctx : option Transaction) (before : list DriverCall) (c : nat) (t : State) : Prop :=
  let cs := changeSets t c in
  let e := entities t (entity cs) in
  persisted cs = true /\
  __populated e = true /\
  __initialized e = true /\
  forall vp, versionProperty meta = Some vp ->
             looked_up this meta vp ctx before (calls t) (get__primaryKey e)
               (get (data e) vp).

Definition key_defined (c : nat) (t : State) : Prop :=
  isDefined (get__primaryKey (entities t (entity (changeSets t c)))) true = true.

(** ** Footprints

    What a computation that works on change set [c], on its entity [a], may
    change between two states: the fields that identify change sets and
    entities never, other change sets never, the properties of other
    entities never, of [a] only those in [W], and identifiers only in [C].
    Only when [p] is set may a change set become persisted.  Flags are only
    ever raised, and the call log only grows. *)

Definition same_identity (s s' : State) : Prop :=
  (forall c, cs_name (changeSets s' c) = cs_name (changeSets s c) /\
             cs_type (changeSets s' c) = cs_type (changeSets s c) /\
             entity (changeSets s' c) = entity (changeSets s c)) /\
  (forall a, __meta (entities s' a) = __meta (entities s a) /\
             __uuid (entities s' a) = __uuid (entities s a)).

Record effect (p : bool) (c a : nat) (W : string -> Prop) (C : nat -> Prop)
    (s s' : State) : Prop := {
  eff_identity : same_identity s s';
  eff_changeSets : forall c', c' <> c -> changeSets s' c' = changeSets s c';
  eff_persisted : forall c', persisted (changeSets s' c') = persisted (changeSets s c') \/
                             (p = true /\ persisted (changeSets s' c') = true);
  eff_data : forall a' k, (a' = a -> ~ W k) ->
                          data (entities s' a') !! k = data (entities s a') !! k;
  eff_initialized : forall a', a' <> a ->
                               __initialized (entities s' a') = __initialized (entities s a');
  eff_initialized_mono : forall a', __initialized (entities s a') = true ->
                                    __initialized (entities s' a') = true;
  eff_populated : forall a', __populated (entities s a') = true ->
                             __populated (entities s' a') = true;
  eff_identifiers : forall cell, ~ C cell -> identifiers s' cell = identifiers s cell;
  eff_calls : exists l, calls s' = calls s ++ l;
}.

(** The properties the primary key of a type is read from. *)
Definition keyNames (meta : EntityMetadata) : list string :=
  if (1 <? length (primaryKeys meta))%nat then primaryKeys meta
  else [first_key (primaryKeys meta)].

(** Every entity whose primary key is set in [s] holds the same key
    properties in [s']. *)
Definition keys_kept (s s' : State) : Prop :=
  same_identity s s' /\
  forall a k,
    isDefined (get__primaryKey (entities s a)) true = true ->
    k ∈ keyNames (__meta (entities s a)) ->
    data (entities s' a) !! k = data (entities s a) !! k.

(** All change sets of a batch are of the type [meta], and so are their
    entities. *)
Definition batch_of (this : ChangeSetPersister) (meta : EntityMetadata)
    (css : list nat) (s : State) : Prop :=
  forall c, c ∈ css ->
    metadata this (cs_name (changeSets s c)) = Some meta /\
    __meta (entities s (entity (changeSets s c))) = meta.

(** The identifier of the entity [a] is among the identifiers [C]. *)
Definition cell_allowed (this : ChangeSetPersister) (a : nat) (C : nat -> Prop)
    (s : State) : Prop :=
  forall cell, identifierMap this !! __uuid (entities s a) = Some cell -> C cell.

(** What a run over the change sets [done] leaves alone: the change sets
    outside [done] and the properties of the entities of none of them. *)
Definition batch_frame (done : list nat) (s1 s2 : State) : Prop :=
  same_identity s1 s2 /\
  (forall c, c ∉ done -> changeSets s2 c = changeSets s1 c) /\
  (forall a, a ∉ map (fun c => entity (changeSets s1 c)) done ->
             data (entities s2 a) = data (entities s1 a) /\
             __initialized (entities s2 a) = __initialized (entities s1 a)) /\
  (forall c, persisted (changeSets s1 c) = true -> persisted (changeSets s2 c) = true) /\
  (exists l, calls s2 = calls s1 ++ l).

(** ** Flags, lookups, rules and refusals *)

(** The flags that tell how far an entity or a collection is loaded are
    the same in both states. *)
Definition same_flags (s s' : State) : Prop :=
  collections s' = collections s /\
  forall a, __initialized (entities s' a) = __initialized (entities s a) /\
            __populated (entities s' a) = __populated (entities s a).

(** The lookup that follows a write: one for the version of a versioned
    type, on the key [pk] and restricted to the version property; none for
    a type without version. *)
Definition versionLookup (meta : EntityMetadata) (ctx : option Transaction) (pk : value)
  : list DriverCall :=
  match versionProperty meta with
  | Some vp => [FindOne (meta_name meta) pk [vp] ctx]
  | None => []
  end.

(** The compute rule that property resolution runs for a property of a
    change set of type [t]: the compute-on-create rule for a CREATE, the
    compute-on-update rule for an UPDATE. *)
Definition appliedRule (t : ChangeSetType) (prop : EntityProperty)
  : option (Dictionary -> value) :=
  match t with
  | CREATE => onCreate prop
  | UPDATE => onUpdate prop
  | DELETE => None
  end.

(** A payload value once the identifier it may be is replaced by the value
    that identifier holds in [ids]. *)
Definition resolved (ids : nat -> value) (v : value) : value :=
  match v with
  | VIdentifier cell => ids cell
  | _ => v
  end.

(** The error with which the driver refuses a call that is made after the
    calls [h], if it refuses it. *)
Definition refusal (d : IDatabaseDriver) (h : list DriverCall) (call : DriverCall)
  : option DriverException :=
  match call with
  | NativeInsert n p ctx =>
      match nativeInsert d h n p ctx with inl e => Some e | inr _ => None end
  | NativeUpdate n cond p ctx =>
      match nativeUpdate d h n cond p ctx with inl e => Some e | inr _ => None end
  | NativeDelete n cond ctx =>
      match nativeDelete d h n cond ctx with inl e => Some e | inr _ => None end
  | FindOne n cond fields ctx =>
      match findOne d h n cond fields ctx with inl e => Some e | inr _ => None end
  end.

(** The log [log] has at least [n] calls, and the driver answered every
    call from position [n] on. *)
Definition answered (d : IDatabaseDriver) (n : nat) (log : list DriverCall) : Prop :=
  (n <= length log)%nat /\
  forall h call rest,
    log = h ++ call :: rest -> (n <= length h)%nat -> refusal d h call = None.

(** An outcome reports the driver faithfully, from position [n] of the log
    on: a driver error is the refusal of the last call, every call before it
    was answered, and no refusal goes unreported. *)
Definition faithful {A} (d : IDatabaseDriver) (n : nat) (out : (Exception + A) * State)
  : Prop :=
  match out.1 with
  | inl (DriverError e) =>
      exists h call,
        calls out.2 = h ++ [call] /\ refusal d h call = Some e /\ answered d n h
  | _ => answered d n (calls out.2)
  end.

(** ** A sample world

    An auto-increment [User] type with a version column, used to run the
    methods on concrete batches. *)

Module Sample.

Definition idProp : EntityProperty :=
  {| prop_name := "id"; fieldNames := Some ["id"%string]; primary := true;
     onCreate := None; onUpdate := None; customType := None |}.

Definition versionProp : EntityProperty :=
  {| prop_name := "version"; fieldNames := Some ["version"%string]; primary := false;
     onCreate := None; onUpdate := None; customType := None |}.

Definition User : EntityMetadata :=
  {| meta_name := "User"; properties := [idProp; versionProp];
     primaryKeys := ["id"%string]; compositePK := false;
     versionProperty := Some "version"%string |}.

(** A type whose key is computed when the entity is created. *)
Definition tokenIdProp : EntityProperty :=
  {| prop_name := "id"; fieldNames := Some ["id"%string]; primary := true;
     onCreate := Some (fun _ => VStr "generated"); onUpdate := None;
     customType := None |}.

Definition Token : EntityMetadata :=
  {| meta_name := "Token"; properties := [tokenIdProp];
     primaryKeys := ["id"%string]; compositePK := false; versionProperty := None |}.

(** A type that stamps the time of every update. *)
Definition updatedAtProp : EntityProperty :=
  {| prop_name := "updatedAt"; fieldNames := Some ["updated_at"%string]; primary := false;
     onCreate := None; onUpdate := Some (fun _ => VNum 1000); customType := None |}.

Definition Article : EntityMetadata :=
  {| meta_name := "Article"; properties := [idProp; updatedAtProp];
     primaryKeys := ["id"%string]; compositePK := false; versionProperty := None |}.

(** A versioned type whose version the application bumps on every update. *)
Definition bumpedVersionProp : EntityProperty :=
  {| prop_name := "version"; fieldNames := Some ["version"%string]; primary := false;
     onCreate := None;
     onUpdate := Some (fun e => match get e "version" with
                                | VNum n => VNum (n + 1)
                                | v => v
                                end);
     customType := None |}.

Definition Counted : EntityMetadata :=
  {| meta_name := "Counted"; properties := [idProp; bumpedVersionProp];
     primaryKeys := ["id"%string]; compositePK := false;
     versionProperty := Some "version"%string |}.

(** A type with a reference to its author and a creation stamp. *)
Definition authorProp : EntityProperty :=
  {| prop_name := "author"; fieldNames := Some ["author_id"%string]; primary := false;
     onCreate := None; onUpdate := None; customType := None |}.

Definition createdAtProp : EntityProperty :=
  {| prop_name := "createdAt"; fieldNames := Some ["created_at"%string]; primary := false;
     onCreate := Some (fun _ => VNum 1000); onUpdate := None; customType := None |}.

Definition Comment : EntityMetadata :=
  {| meta_name := "Comment"; properties := [idProp; authorProp; createdAtProp];
     primaryKeys := ["id"%string]; compositePK := false; versionProperty := None |}.

(** A type with a composite key. *)
Definition userProp : EntityProperty :=
  {| prop_name := "user"; fieldNames := Some ["user_id"%string]; primary := true;
     onCreate := None; onUpdate := None; customType := None |}.

Definition groupProp : EntityProperty :=
  {| prop_name := "group"; fieldNames := Some ["group_id"%string]; primary := true;
     onCreate := None; onUpdate := None; customType := None |}.

Definition Membership : EntityMetadata :=
  {| meta_name := "Membership"; properties := [userProp; groupProp];
     primaryKeys := ["user"%string; "group"%string]; compositePK := true;
     versionProperty := None |}.

(** A type whose key is computed from the name when the entity is created. *)
Definition nameProp : EntityProperty :=
  {| prop_name := "name"; fieldNames := Some ["name"%string]; primary := false;
     onCreate := None; onUpdate := None; customType := None |}.

Definition slugProp : EntityProperty :=
  {| prop_name := "slug"; fieldNames := Some ["slug"%string]; primary := true;
     onCreate := Some (fun e => get e "name"); onUpdate := None; customType := None |}.

Definition Tag : EntityMetadata :=
  {| meta_name := "Tag"; properties := [nameProp; slugProp];
     primaryKeys := ["slug"%string]; compositePK := false; versionProperty := None |}.

Definition registry (m : EntityMetadata) (n : string) : option EntityMetadata :=
  if String.eqb n (meta_name m) then Some m else None.

Definition newEntity (m : EntityMetadata) (uuid : string) (d : Dictionary) : Entity :=
  {| data := d; __uuid := uuid; __initialized := false; __populated := false;
     __meta := m |}.

Definition changeSet (m : EntityMetadata) (t : ChangeSetType) (d : Dictionary) (a : nat)
  : ChangeSet :=
  {| cs_name := meta_name m; cs_type := t; payload := d; entity := a;
     persisted := false |}.

(** A driver that answers every write with [res] and every lookup with
    [found]. *)
Definition constDriver (res : QueryResult) (found : option Dictionary) : IDatabaseDriver :=
  {| nativeInsert := fun _ _ _ _ => inr res;
     nativeUpdate := fun _ _ _ _ _ => inr res;
     nativeDelete := fun _ _ _ _ => inr res;
     findOne := fun _ _ _ _ _ => inr found;
     getPlatform := "sample" |}.

(** A driver whose writes all fail with [e]. *)
Definition failingDriver (e : DriverException) : IDatabaseDriver :=
  {| nativeInsert := fun _ _ _ _ => inl e;
     nativeUpdate := fun _ _ _ _ _ => inl e;
     nativeDelete := fun _ _ _ _ => inl e;
     findOne := fun _ _ _ _ _ => inl e;
     getPlatform := "sample" |}.

(** A driver that answers every write with [res] and refuses every lookup
    with [e]. *)
Definition lookupFailingDriver (res : QueryResult) (e : DriverException)
  : IDatabaseDriver :=
  {| nativeInsert := fun _ _ _ _ => inr res;
     nativeUpdate := fun _ _ _ _ _ => inr res;
     nativeDelete := fun _ _ _ _ => inr res;
     findOne := fun _ _ _ _ _ => inl e;
     getPlatform := "sample" |}.

Definition plain : Hydrator := {| hydrateValue := fun _ v => v |}.

Definition persister (d : IDatabaseDriver) (m : EntityMetadata) : ChangeSetPersister :=
  {| driver := d;
     identifierMap := {[ "u0"%string := 0%nat; "u1"%string := 1%nat ]};
     metadata := registry m;
     hydrator := plain |}.

(** Entity [i] of the store has uuid [u<i>] for [i < 2]; change set [i]
    works on entity [i]. *)
Definition world (m : EntityMetadata) (t : ChangeSetType)
    (d0 d1 : Dictionary) (p0 p1 : Dictionary) : State :=
  {| entities := fun a => match a with
                          | O => newEntity m "u0" d0
                          | _ => newEntity m "u1" d1
                          end;
     collections := fun _ => false;
     changeSets := fun c => match c with
                            | O => changeSet m t p0 0
                            | _ => changeSet m t p1 1
                            end;
     identifiers := fun _ => VUndefined;
     calls := [] |}.

Definition result (n : Z) (id : value) (r : option Dictionary) : QueryResult :=
  {| affectedRows := VNum n; insertId := id; row := r |}.

End Sample.

(** * Properties *)

(** ** Running a computation *)

Ltac mrun :=
  repeat (unfold bind, gets, modify, ret, throw, deref, await; cbn).

Ltac mrun_in H :=
  repeat (unfold bind, gets, modify, ret, throw, deref, await in H; cbn in H).

(** ** The delete flow *)

(** C10: a non-empty batch is a precondition of [executeDeletes]; on an empty
    list there is no first change set to read the metadata from, so the call
    throws and the driver is never reached. *)
Theorem executeDeletes_empty_batch_throws :
  forall getPrimaryKeyHash this ctx s,
    executeDeletes getPrimaryKeyHash this [] ctx s = (inl TypeError, s).
Proof. reflexivity. Qed.


(** The batch [User{id:1}, User{id:2}] is deleted by the one call
    [nativeDelete("User", {id: {$in: [1, 2]}})]. *)
Example executeDeletes_two_users :
  let s := Sample.world Sample.User DELETE {[ "id"%string := VNum 1 ]}
             {[ "id"%string := VNum 2 ]} ∅ ∅ in
  let this := Sample.persister (Sample.constDriver (Sample.result 2 VUndefined None) None)
                Sample.User in
  executeDeletes (fun pks => first_key pks) this [0; 1]%nat None s =
    (inr tt,
     log (NativeDelete "User"
            (VObject {[ "id"%string :=
                          VObject {[ "$in"%string := VArray [VNum 1; VNum 2] ]} ]})
            None) s).
Proof. reflexivity. Qed.

(** Two [Membership]s, whose key is the pair of a user and a group, are
    deleted by one call whose set holds the two pairs, each in the order of
    the key properties. *)
Example executeDeletes_two_memberships :
  let s := Sample.world Sample.Membership DELETE
             {[ "user"%string := VNum 1; "group"%string := VNum 2 ]}
             {[ "user"%string := VNum 3; "group"%string := VNum 4 ]} ∅ ∅ in
  let this := Sample.persister (Sample.constDriver (Sample.result 2 VUndefined None) None)
                Sample.Membership in
  executeDeletes (String.concat "~~~") this [0; 1]%nat None s =
    (inr tt,
     log (NativeDelete "Membership"
            (VObject {[ "user~~~group"%string :=
                          VObject {[ "$in"%string :=
                                       VArray [VArray [VNum 1; VNum 2];
                                               VArray [VNum 3; VNum 4]] ]} ]})
            None) s).
Proof. vm_compute. reflexivity. Qed.

(** ** The update predicate *)

(** C4: [updateEntity] issues one [nativeUpdate] with the change set's name
    and payload.  Its predicate is the entity's primary key when the type has
    no version property or the entity's version is falsy (unset, or 0), and
    the primary-key condition extended with "version property = the version
    the entity holds" when that version is truthy. *)
Theorem updateEntity_predicate :
  forall this meta c ctx s,
    let cs := changeSets s c in
    let e := entities s (entity cs) in
    exists cond,
      calls (updateEntity this (Some meta) c ctx s).2 =
        calls s ++ [NativeUpdate (cs_name cs) cond (payload cs) ctx] /\
      (versionProperty meta = None -> cond = get__primaryKey e) /\
      (forall vp, versionProperty meta = Some vp ->
                  truthy (get (data e) vp) = false -> cond = get__primaryKey e) /\
      (forall vp, versionProperty meta = Some vp ->
                  truthy (get (data e) vp) = true ->
                  cond = VObject (<[vp := get (data e) vp]>
                                    (getPrimaryKeyCond (data e) (primaryKeys meta)))).
Proof.
  intros. exists (updateCond meta e). split.
  - unfold updateEntity. mrun.
    destruct (nativeUpdate _ _ _ _ _ _); reflexivity.
  - unfold updateCond.
    destruct (versionProperty meta) as [vp|]; repeat split; try congruence;
      intros vp' [= <-] Hv; rewrite Hv; reflexivity.
Qed.

(** A version of 0 is falsy: the update of [User{id:42, version:0}] is sent
    with the bare key, that of [User{id:42, version:1}] with the version. *)
Example updateEntity_version_zero :
  let s := Sample.world Sample.User UPDATE
             {[ "id"%string := VNum 42; "version"%string := VNum 0 ]} ∅ ∅ ∅ in
  let this := Sample.persister (Sample.constDriver (Sample.result 1 VUndefined None) None)
                Sample.User in
  calls (updateEntity this (Some Sample.User) 0 None s).2 =
    [NativeUpdate "User" (VNum 42) ∅ None].
Proof. reflexivity. Qed.

Example updateEntity_version_one :
  let s := Sample.world Sample.User UPDATE
             {[ "id"%string := VNum 42; "version"%string := VNum 1 ]} ∅ ∅ ∅ in
  let this := Sample.persister (Sample.constDriver (Sample.result 1 VUndefined None) None)
                Sample.User in
  calls (updateEntity this (Some Sample.User) 0 None s).2 =
    [NativeUpdate "User"
       (VObject {[ "id"%string := VNum 42; "version"%string := VNum 1 ]}) ∅ None].
Proof. vm_compute. reflexivity. Qed.

(** ** Optimistic-lock reconciliation *)

(** C3: for a versioned type, on a CREATE change set or an UPDATE one whose
    result reports affected rows, [processOptimisticLock] issues one [findOne]
    on the entity's primary key restricted to the version property, and when
    that lookup answers with a row the entity's version property is the
    row's, whatever it was before. *)
Theorem processOptimisticLock_refreshes_version :
  forall this meta vp c res ctx s,
    let cs := changeSets s c in
    let wrapped := entities s (entity cs) in
    let lookup := FindOne (meta_name meta) (get__primaryKey wrapped) [vp] ctx in
    let out := processOptimisticLock this (Some meta) c (Some res) ctx s in
    versionProperty meta = Some vp ->
    cs_type cs = CREATE \/ (cs_type cs = UPDATE /\ truthy (affectedRows res) = true) ->
    calls out.2 = calls s ++ [lookup] /\
    forall found,
      findOne (driver this) (calls s) (meta_name meta) (get__primaryKey wrapped) [vp] ctx
        = inr (Some found) ->
      out.1 = inr tt /\ get (data (entities out.2 (entity cs))) vp = get found vp.
Proof.
  intros this meta vp c res ctx s cs wrapped lookup out Hvp Hty.
  subst out lookup wrapped cs. unfold processOptimisticLock. mrun. rewrite Hvp. mrun.
  assert (Hno : match cs_type (changeSets s c) with
                | UPDATE => negb (truthy (affectedRows res))
                | _ => false
                end = false).
  { destruct Hty as [-> | [-> ->]]; reflexivity. }
  rewrite Hno. mrun.
  destruct (findOne _ _ _ _ _ _) as [e | [found |]]; mrun; split; try reflexivity;
    intros found' [= <-].
  split; [reflexivity |].
  rewrite fn_lookup_insert. unfold get. cbn. rewrite lookup_insert_eq. reflexivity.
Qed.

(** [User{id:42, version:1}] updated with one affected row, the store now
    holding version 2: the entity's version becomes 2. *)
Lemma processOptimisticLock_refreshes_version_witness :
  let s := Sample.world Sample.User UPDATE
             {[ "id"%string := VNum 42; "version"%string := VNum 1 ]} ∅ ∅ ∅ in
  let this := Sample.persister
                (Sample.constDriver (Sample.result 1 VUndefined None)
                   (Some {[ "version"%string := VNum 2 ]}))
                Sample.User in
  let out := processOptimisticLock this (Some Sample.User) 0
               (Some (Sample.result 1 VUndefined None)) None s in
  calls out.2 = [FindOne "User" (VNum 42) ["version"%string] None] /\
  out.1 = inr tt /\ get (data (entities out.2 0%nat)) "version" = VNum 2.
Proof.
  intros s this out.
  destruct (processOptimisticLock_refreshes_version this Sample.User "version" 0%nat
              (Sample.result 1 VUndefined None) None s) as [Hcalls Hrow].
  - reflexivity.
  - right. split; reflexivity.
  - split; [exact Hcalls |].
    exact (Hrow {[ "version"%string := VNum 2 ]} eq_refl).
Defined.

(** ** Returned-value reconciliation *)

Section Assign.

Variable w : EntityProperty -> option value.

Lemma assign_other props k : forall acc,
  (forall p, p ∈ props -> prop_name p = k -> w p = None) ->
  fold_left (assign w) props acc !! k = acc !! k.
Proof.
  induction props as [|p ps IH]; intros acc Hk; cbn; [reflexivity|].
  rewrite IH by (intros q Hq; apply Hk; set_solver).
  unfold assign. destruct (w p) eqn:E; [|reflexivity].
  destruct (decide (prop_name p = k)) as [Heq|Hne].
  - rewrite (Hk p) in E by set_solver. discriminate.
  - by rewrite lookup_insert_ne.
Qed.

Lemma assign_prop props : forall acc p,
  NoDup (map prop_name props) -> p ∈ props ->
  fold_left (assign w) props acc !! prop_name p =
    match w p with
    | Some v => Some v
    | None => acc !! prop_name p
    end.
Proof.
  induction props as [|q ps IH]; intros acc p Hnd Hin; [set_solver|].
  cbn in Hnd. apply list.NoDup_cons in Hnd as [Hq Hnd]. cbn.
  apply elem_of_cons in Hin as [->|Hin].
  - rewrite assign_other.
    + unfold assign. destruct (w q); [by rewrite lookup_insert_eq|done].
    + intros p Hp Hname. exfalso. apply Hq. rewrite <- Hname.
      by apply list_elem_of_fmap_2.
  - rewrite IH by done. destruct (w p) eqn:Ep; [done|].
    unfold assign. destruct (w q); [|done].
    rewrite lookup_insert_ne; [done|].
    intros Heq. apply Hq. rewrite Heq. by apply list_elem_of_fmap_2.
Qed.

Lemma assign_written props k v : forall acc,
  fold_left (assign w) props acc !! k = Some v ->
  acc !! k = Some v \/ exists p, p ∈ props /\ prop_name p = k /\ w p = Some v.
Proof.
  induction props as [|p ps IH]; intros acc H; cbn in H; [by left|].
  apply IH in H as [H | (q & Hq & Hk & Hw)].
  - unfold assign in H. destruct (w p) eqn:E; [|by left].
    destruct (decide (prop_name p = k)) as [Heq|Hne].
    + rewrite Heq, lookup_insert_eq in H. injection H as ->.
      right. exists p. split; [set_solver | done].
    + rewrite lookup_insert_ne in H by done. by left.
  - right. exists q. split; [set_solver | done].
Qed.

End Assign.

Lemma returnedData_assign e r meta :
  returnedData e r meta = fold_left (assign (returned e r)) (properties meta) ∅.
Proof.
  unfold returnedData. generalize (∅ : Dictionary) as d.
  induction (properties meta) as [|p ps IH]; intros d; cbn; [done|].
  rewrite IH. f_equal. unfold returnedValue, assign, returned.
  destruct (fieldNames p); [|done]. by destruct (_ && _).
Qed.

Lemma hydrate_data h e meta d b1 b2 :
  data (hydrate h e meta d b1 b2) =
    fold_left (assign (fun prop => hydrateValue h prop <$> d !! prop_name prop))
      (properties meta) (data e).
Proof.
  unfold hydrate. generalize (properties meta) as props. intros props. revert e.
  induction props as [|p ps IH]; intros e; cbn; [done|].
  rewrite IH. f_equal. unfold hydrateProperty, assign.
  by destruct (d !! prop_name p).
Qed.

Lemma hydrate_fields h e meta d b1 b2 :
  __uuid (hydrate h e meta d b1 b2) = __uuid e /\
  __meta (hydrate h e meta d b1 b2) = __meta e /\
  __initialized (hydrate h e meta d b1 b2) = __initialized e /\
  __populated (hydrate h e meta d b1 b2) = __populated e.
Proof.
  unfold hydrate. generalize (properties meta) as props. intros props. revert e.
  induction props as [|p ps IH]; intros e; cbn; [done|].
  destruct (IH (hydrateProperty h d e p)) as (-> & -> & -> & ->).
  unfold hydrateProperty. by destruct (d !! prop_name p).
Qed.

(** Only properties the entity holds no explicit value for are handed over. *)
Lemma returnedData_unset e r meta k v :
  returnedData e r meta !! k = Some v ->
  isDefined (get e k) true = false /\ truthy v = true.
Proof.
  rewrite returnedData_assign. intros H.
  apply assign_written in H as [H | (p & _ & <- & Hw)]; [by rewrite lookup_empty in H|].
  unfold returned in Hw. destruct (fieldNames p); [|done].
  destruct (truthy _) eqn:Ht; [|done]. destruct (isDefined _ _) eqn:Hd; [done|].
  cbn in Hw. injection Hw as <-. done.
Qed.

Lemma mapReturnedValues_run this a res meta s :
  mapReturnedValues this a res (Some meta) s =
    (inr tt,
     match row res with
     | Some r =>
         if (0 <? size r)%nat
         then upd_entity a (fun e' => hydrate (hydrator this) e' meta
                                        (returnedData (data (entities s a)) r meta)
                                        false true) s
         else s
     | None => s
     end).
Proof.
  unfold mapReturnedValues. destruct (row res) as [r|]; [|done].
  by destruct (0 <? size r)%nat.
Qed.

(** A property with an explicit value is never overwritten. *)
Lemma mapReturnedValues_keeps_defined this a res meta s a' k :
  (a' = a -> isDefined (get (data (entities s a)) k) true = true) ->
  data (entities (mapReturnedValues this a res (Some meta) s).2 a') !! k =
    data (entities s a') !! k.
Proof.
  intros Hdef. rewrite mapReturnedValues_run.
  destruct (row res) as [r|]; [|done]. destruct (0 <? size r)%nat; [|done]. cbn.
  destruct (decide (a = a')) as [<-|Hne].
  - rewrite fn_lookup_insert, hydrate_data. apply assign_other.
    intros p _ Hp. destruct (returnedData _ _ _ !! prop_name p) eqn:E; [|reflexivity].
    rewrite Hp in E. apply returnedData_unset in E as [E _].
    rewrite Hdef in E; [discriminate | reflexivity].
  - by rewrite fn_lookup_insert_ne.
Qed.

(** What [mapReturnedValues] leaves in a property. *)
Lemma mapReturnedValues_lookup this a res meta prop s :
  NoDup (map prop_name (properties meta)) ->
  prop ∈ properties meta ->
  let e := entities s a in
  data (entities (mapReturnedValues this a res (Some meta) s).2 a) !! prop_name prop =
    match row res, fieldNames prop with
    | Some r, Some fns =>
        if truthy (get r (first_key fns))
           && negb (isDefined (get (data e) (prop_name prop)) true)
        then Some (hydrateValue (hydrator this) prop (get r (first_key fns)))
        else data e !! prop_name prop
    | _, _ => data e !! prop_name prop
    end.
Proof.
  intros Hnd Hin e. rewrite mapReturnedValues_run.
  destruct (row res) as [r|]; [|done].
  destruct (0 <? size r)%nat eqn:Hsize; cbn.
  - rewrite fn_lookup_insert, hydrate_data, assign_prop by done.
    rewrite returnedData_assign, assign_prop, lookup_empty by done.
    unfold returned. destruct (fieldNames prop) as [fns|]; [|done].
    by destruct (_ && _).
  - apply Nat.ltb_ge in Hsize. assert (r = ∅) as ->.
    { apply map_size_empty_iff. lia. }
    destruct (fieldNames prop) as [fns|]; [|done].
    unfold get at 1. by rewrite lookup_empty.
Qed.

(** C6 (as the code has it): when the result carries a non-empty row, a
    property the entity holds an explicit value for is never overwritten,
    whatever the row holds for its column; a property the entity holds no
    explicit value for receives the value of its column, through the
    hydrator's coercion, when it has a column name and the row holds a
    truthy value under that name; and it keeps what it held when it has no
    column name or the row has no such column. *)
Theorem mapReturnedValues_copies_unset :
  forall this a res meta r prop s,
    let e := entities s a in
    let out := mapReturnedValues this a res (Some meta) s in
    let held := data e !! prop_name prop in
    let holds := data (entities out.2 a) !! prop_name prop in
    row res = Some r ->
    (0 < size r)%nat ->
    NoDup (map prop_name (properties meta)) ->
    prop ∈ properties meta ->
    out.1 = inr tt /\
    (isDefined (get (data e) (prop_name prop)) true = true -> holds = held) /\
    (forall fns,
       fieldNames prop = Some fns ->
       truthy (get r (first_key fns)) = true ->
       isDefined (get (data e) (prop_name prop)) true = false ->
       holds = Some (hydrateValue (hydrator this) prop (get r (first_key fns)))) /\
    (fieldNames prop = None \/
     (exists fns, fieldNames prop = Some fns /\ r !! first_key fns = None) ->
     holds = held).
Proof.
  intros this a res meta r prop s e out held holds Hrow Hsize Hnd Hin.
  subst holds held out e.
  split; [by rewrite mapReturnedValues_run|]. split; [|split].
  - intros Hdef. by apply mapReturnedValues_keeps_defined.
  - intros fns Hfns Htruthy Hunset.
    rewrite mapReturnedValues_lookup by done. by rewrite Hrow, Hfns, Htruthy, Hunset.
  - intros Hnone. rewrite mapReturnedValues_lookup by done. rewrite Hrow.
    destruct Hnone as [-> | (fns & -> & Hcol)]; [done|].
    unfold get at 1. by rewrite Hcol.
Qed.

(** The driver returns the generated id 7 of a [User] that had none: the id
    is copied into the entity. *)
Lemma mapReturnedValues_copies_unset_witness :
  let s := Sample.world Sample.User CREATE ∅ ∅ ∅ ∅ in
  let this := Sample.persister (Sample.constDriver (Sample.result 1 (VNum 7) None) None)
                Sample.User in
  let r : Dictionary := {[ "id"%string := VNum 7; "version"%string := VNum 0 ]} in
  let out := mapReturnedValues this 0 (Sample.result 1 (VNum 7) (Some r))
               (Some Sample.User) s in
  out.1 = inr tt /\ data (entities out.2 0%nat) !! "id"%string = Some (VNum 7).
Proof.
  intros s this r out.
  destruct (mapReturnedValues_copies_unset this 0%nat
              (Sample.result 1 (VNum 7) (Some r)) Sample.User r Sample.idProp s)
    as (Hok & _ & Hid & _).
  - reflexivity.
  - vm_compute. lia.
  - apply (bool_decide_unpack _). vm_compute. reflexivity.
  - constructor.
  - split; [exact Hok|]. exact (Hid ["id"%string] eq_refl eq_refl eq_refl).
Defined.

(** A [User] that holds no version is inserted.  When the store returns the
    version 0 it has initialised, the version is not copied; nor is
    anything copied when the row has no version column. *)
Lemma mapReturnedValues_not_copied :
  let s := Sample.world Sample.User CREATE ∅ ∅ ∅ ∅ in
  let this := Sample.persister (Sample.constDriver (Sample.result 1 (VNum 7) None) None)
                Sample.User in
  let unset := isDefined (get (data (entities s 0%nat)) "version") true = false in
  let copied (r : Dictionary) :=
    data (entities (mapReturnedValues this 0 (Sample.result 1 (VNum 7) (Some r))
                      (Some Sample.User) s).2 0%nat) !! "version"%string
    = Some (hydrateValue (hydrator this) Sample.versionProp (get r "version")) in
  ~ (copied {[ "id"%string := VNum 7; "version"%string := VNum 0 ]} <-> unset) /\
  ~ (copied {[ "id"%string := VNum 7 ]} <-> unset).
Proof.
  intros s this unset copied.
  split; intros [_ H]; specialize (H eq_refl); vm_compute in H; discriminate H.
Qed.

(** ** Footprints of the primitive steps *)

Lemma same_identity_refl s : same_identity s s.
Proof. split; intros; auto. Qed.

Lemma same_identity_trans s1 s2 s3 :
  same_identity s1 s2 -> same_identity s2 s3 -> same_identity s1 s3.
Proof.
  intros [H1 H1'] [H2 H2']. split.
  - intros c. destruct (H1 c) as (? & ? & ?), (H2 c) as (? & ? & ?).
    repeat split; congruence.
  - intros a. destruct (H1' a), (H2' a). split; congruence.
Qed.

Ltac eff_easy :=
  try done; try apply same_identity_refl; try (intros; by left);
  try (exists []; by rewrite app_nil_r).

Section Effect.

Variables (p : bool) (c a : nat) (W : string -> Prop) (C : nat -> Prop).

Lemma effect_refl s : effect p c a W C s s.
Proof. split; eff_easy. Qed.

Lemma effect_trans s1 s2 s3 :
  effect p c a W C s1 s2 -> effect p c a W C s2 s3 -> effect p c a W C s1 s3.
Proof.
  intros H1 H2. split.
  - eapply same_identity_trans; [apply H1 | apply H2].
  - intros c' Hc. rewrite (eff_changeSets _ _ _ _ _ _ _ H2), (eff_changeSets _ _ _ _ _ _ _ H1); done.
  - intros c'. destruct (eff_persisted _ _ _ _ _ _ _ H2 c') as [E2|E2]; [|by right].
    rewrite E2. apply H1.
  - intros a' k Hk. rewrite (eff_data _ _ _ _ _ _ _ H2), (eff_data _ _ _ _ _ _ _ H1); done.
  - intros a' Ha.
    rewrite (eff_initialized _ _ _ _ _ _ _ H2), (eff_initialized _ _ _ _ _ _ _ H1); done.
  - intros a' Ha. apply H2, H1, Ha.
  - intros a' Ha. apply H2, H1, Ha.
  - intros cell Hc.
    rewrite (eff_identifiers _ _ _ _ _ _ _ H2), (eff_identifiers _ _ _ _ _ _ _ H1); done.
  - destruct (eff_calls _ _ _ _ _ _ _ H1) as [l1 E1], (eff_calls _ _ _ _ _ _ _ H2) as [l2 E2].
    exists (l1 ++ l2). by rewrite E2, E1, app_assoc.
Qed.

Lemma effect_log call s : effect p c a W C s (log call s).
Proof.
  split; cbn; eff_easy. by exists [call].
Qed.

Lemma effect_upd_entity a' f s :
  (forall e, __meta (f e) = __meta e /\ __uuid (f e) = __uuid e) ->
  (forall k, (a' = a -> ~ W k) ->
             data (f (entities s a')) !! k = data (entities s a') !! k) ->
  (a' <> a -> __initialized (f (entities s a')) = __initialized (entities s a')) ->
  (__initialized (entities s a') = true -> __initialized (f (entities s a')) = true) ->
  (__populated (entities s a') = true -> __populated (f (entities s a')) = true) ->
  effect p c a W C s (upd_entity a' f s).
Proof.
  intros Hid Hdata Hinit Hmono Hpop. split; cbn; eff_easy.
  - split; [auto|]. intros b. cbn. destruct (decide (a' = b)) as [<-|Hne].
    + rewrite fn_lookup_insert. apply Hid.
    + by rewrite fn_lookup_insert_ne.
  - intros b k Hk. destruct (decide (a' = b)) as [<-|Hne].
    + rewrite fn_lookup_insert. by apply Hdata.
    + by rewrite fn_lookup_insert_ne.
  - intros b Hb. destruct (decide (a' = b)) as [<-|Hne].
    + rewrite fn_lookup_insert. by apply Hinit.
    + by rewrite fn_lookup_insert_ne.
  - intros b Hb. destruct (decide (a' = b)) as [<-|Hne].
    + rewrite fn_lookup_insert. by apply Hmono.
    + by rewrite fn_lookup_insert_ne.
  - intros b Hb. destruct (decide (a' = b)) as [<-|Hne].
    + rewrite fn_lookup_insert. by apply Hpop.
    + by rewrite fn_lookup_insert_ne.
Qed.

Lemma effect_write k v s :
  W k -> effect p c a W C s (upd_entity a (set_data <[k := v]>) s).
Proof.
  intros Hk. apply effect_upd_entity; cbn; auto.
  intros k' Hk'. apply lookup_insert_ne. intros ->. by apply Hk'.
Qed.


Lemma effect_hydrate h meta d b1 b2 s :
  (forall k, d !! k <> None -> W k) ->
  effect p c a W C s (upd_entity a (fun e => hydrate h e meta d b1 b2) s).
Proof.
  intros Hd.
  destruct (hydrate_fields h (entities s a) meta d b1 b2) as (Hu & Hm & Hi & Hp).
  apply effect_upd_entity; try congruence.
  - intros e. destruct (hydrate_fields h e meta d b1 b2) as (? & ? & _). auto.
  - intros k Hk. rewrite hydrate_data. apply assign_other.
    intros q _ Hq. destruct (d !! prop_name q) eqn:E; [|done].
    exfalso. apply Hk; [done|]. apply Hd. rewrite <- Hq. congruence.
Qed.

Lemma effect_populated a' s : effect p c a W C s (upd_entity a' populated s).
Proof. apply effect_upd_entity; cbn; auto. Qed.

Lemma effect_initialized s : effect p c a W C s (upd_entity a (set_initialized true) s).
Proof. apply effect_upd_entity; cbn; auto. congruence. Qed.

Lemma effect_collection k b s : effect p c a W C s (upd_collection k b s).
Proof. split; cbn; eff_easy. Qed.

Lemma effect_upd_changeSet f s :
  (forall cs, cs_name (f cs) = cs_name cs /\ cs_type (f cs) = cs_type cs /\
              entity (f cs) = entity cs) ->
  (forall cs, persisted (f cs) = persisted cs \/ (p = true /\ persisted (f cs) = true)) ->
  effect p c a W C s (upd_changeSet c f s).
Proof.
  intros Hid Hp. split; cbn; eff_easy.
  - split; [|auto]. intros c'. cbn. destruct (decide (c = c')) as [<-|Hne].
    + rewrite fn_lookup_insert. apply Hid.
    + by rewrite fn_lookup_insert_ne.
  - intros c' Hc. by rewrite fn_lookup_insert_ne.
  - intros c'. destruct (decide (c = c')) as [<-|Hne].
    + rewrite fn_lookup_insert. by apply Hp.
    + rewrite fn_lookup_insert_ne by done. by left.
Qed.

Lemma effect_payload f s : effect p c a W C s (upd_changeSet c (set_payload f) s).
Proof. apply effect_upd_changeSet; cbn; auto. Qed.

Lemma effect_set_persisted s :
  p = true -> effect p c a W C s (upd_changeSet c (set_persisted true) s).
Proof. intros Hp. apply effect_upd_changeSet; cbn; auto. Qed.

Lemma effect_setValue cell v s : C cell -> effect p c a W C s (setValue cell v s).
Proof.
  intros Hc. split; cbn; eff_easy.
  intros cell' Hc'. apply fn_lookup_insert_ne. intros ->. by apply Hc'.
Qed.

(** A loop keeps what each of its rounds keeps. *)
Lemma forEach_invariant {A} (I : State -> Prop) (f : A -> M unit) xs : forall s,
  I s ->
  (forall x s1, x ∈ xs -> I s1 -> I (f x s1).2) ->
  I (forEach f xs s).2.
Proof.
  induction xs as [|x xs IH]; intros s Hs Hf; cbn; [done|].
  unfold bind. pose proof (Hf x s (list_elem_of_here _ _) Hs) as Hx.
  destruct (f x s) as [[e|[]] s1]; cbn in *; [done|].
  apply IH; [done|]. intros y s2 Hy. apply Hf. by right.
Qed.

End Effect.

(** ** Footprints of the methods *)

Lemma bind_invariant {A B} (I : State -> Prop) (m : M A) (k : A -> M B) s :
  I (m s).2 ->
  (forall x, (m s).1 = inr x -> I (k x (m s).2).2) ->
  I (bind m k s).2.
Proof. unfold bind. destruct (m s) as [[e|x] s1]; cbn; auto. Qed.

Section MethodEffects.

Variable this : ChangeSetPersister.
Variables (p : bool) (c a : nat) (W : string -> Prop) (C : nat -> Prop).

Local Abbreviation cell_allowed := (cell_allowed this a C).

Lemma effect_entity s0 s :
  effect p c a W C s0 s -> entity (changeSets s c) = entity (changeSets s0 c).
Proof. intros H. apply H. Qed.

Lemma effect_cs_type s0 s :
  effect p c a W C s0 s -> cs_type (changeSets s c) = cs_type (changeSets s0 c).
Proof. intros H. apply H. Qed.


Lemma effect_meta s0 s a' :
  effect p c a W C s0 s -> __meta (entities s a') = __meta (entities s0 a').
Proof. intros H. apply H. Qed.

Lemma effect_uuid s0 s a' :
  effect p c a W C s0 s -> __uuid (entities s a') = __uuid (entities s0 a').
Proof. intros H. apply H. Qed.


Lemma set__primaryKey_effect id s :
  W (first_key (primaryKeys (__meta (entities s a)))) ->
  effect p c a W C s (upd_entity a (set__primaryKey id) s).
Proof.
  intros Hk. apply effect_upd_entity; cbn; auto.
  intros k Hne. apply lookup_insert_ne. intros <-. by apply Hne.
Qed.

Lemma mapPrimaryKey_effect meta v s :
  entity (changeSets s c) = a ->
  W (first_key (primaryKeys (__meta (entities s a)))) ->
  cell_allowed s ->
  effect p c a W C s (mapPrimaryKey this meta v c s).2.
Proof.
  intros Ha Hk Hc. unfold mapPrimaryKey. destruct meta as [meta|]; mrun; [|apply effect_refl].
  destruct (meta_prop _ _) as [prop|]; mrun; [|apply effect_refl].
  rewrite Ha. destruct (identifierMap this !! _) as [cell|] eqn:E; mrun.
  - eapply effect_trans; [by apply set__primaryKey_effect|].
    apply effect_setValue. by apply Hc.
  - by apply set__primaryKey_effect.
Qed.

Lemma processProperty_effect prop s :
  entity (changeSets s c) = a ->
  (cs_type (changeSets s c) = CREATE -> is_Some (onCreate prop) ->
   W (prop_name prop) /\
   (primary prop = true ->
    W (first_key (primaryKeys (__meta (entities s a)))) /\ cell_allowed s)) ->
  (cs_type (changeSets s c) = UPDATE -> is_Some (onUpdate prop) -> W (prop_name prop)) ->
  effect p c a W C s (processProperty this c prop s).2.
Proof.
  intros Ha Hcreate Hupdate. unfold processProperty.
  apply bind_invariant; [apply effect_refl|]. cbn. intros cs [= <-].
  (* the identifier in the payload *)
  match goal with
  | |- effect _ _ _ _ _ _ (bind ?m _ _).2 => assert (H1 : effect p c a W C s (m s).2)
  end.
  { destruct (get _ _); mrun; try apply effect_refl. apply effect_payload. }
  apply bind_invariant; [exact H1|]. intros _ _.
  set (s1 := (_ s).2) in *. clearbody s1.
  (* the compute-on-create rule *)
  match goal with
  | |- effect _ _ _ _ _ _ (bind ?m _ _).2 => assert (H2 : effect p c a W C s (m s1).2)
  end.
  { destruct (onCreate prop) as [rule|] eqn:Hrule; [|apply H1].
    destruct (cs_type (changeSets s c)) eqn:Hty; try apply H1.
    destruct Hcreate as [Hw Hpk]; [done..|]. mrun. rewrite Ha.
    set (s2 := upd_entity a _ _).
    assert (H2 : effect p c a W C s s2).
    { eapply effect_trans; [exact H1|]. subst s2.
      eapply effect_trans; [apply effect_payload|]. by apply effect_write. }
    destruct (primary prop) eqn:Hprim; [|exact H2]. mrun.
    eapply effect_trans; [exact H2|]. destruct Hpk as [Hk Hc]; [done|].
    apply mapPrimaryKey_effect.
    - rewrite (effect_entity _ _ H2). done.
    - by rewrite (effect_meta _ _ _ H2).
    - intros cell. rewrite (effect_uuid _ _ _ H2). apply Hc. }
  apply bind_invariant; [exact H2|]. intros _ _.
  set (s2 := (_ s1).2) in *. clearbody s2.
  (* the compute-on-update rule *)
  destruct (onUpdate prop) as [rule|] eqn:Hrule; [|apply H2].
  destruct (cs_type (changeSets s c)) eqn:Hty; try apply H2.
  mrun. rewrite Ha. eapply effect_trans; [exact H2|].
  eapply effect_trans; [apply effect_payload|]. apply effect_write. by apply Hupdate.
Qed.

Lemma processProperties_effect s :
  entity (changeSets s c) = a ->
  (forall meta prop,
     metadata this (cs_name (changeSets s c)) = Some meta -> prop ∈ properties meta ->
     (cs_type (changeSets s c) = CREATE -> is_Some (onCreate prop) ->
      W (prop_name prop) /\
      (primary prop = true ->
       W (first_key (primaryKeys (__meta (entities s a)))) /\ cell_allowed s)) /\
     (cs_type (changeSets s c) = UPDATE -> is_Some (onUpdate prop) -> W (prop_name prop))) ->
  effect p c a W C s (processProperties this c s).2.
Proof.
  intros Ha Hprops. unfold processProperties. mrun.
  destruct (metadata this _) as [meta|] eqn:Hmeta; mrun; [|apply effect_refl].
  apply forEach_invariant; [apply effect_refl|].
  intros prop s1 Hin H1. eapply effect_trans; [exact H1|].
  destruct (Hprops meta prop eq_refl Hin) as [Hcreate Hupdate].
  apply processProperty_effect.
  - by rewrite (effect_entity _ _ H1).
  - rewrite (effect_cs_type _ _ H1), (effect_meta _ _ _ H1). intros Hty Hrule.
    destruct (Hcreate Hty Hrule) as [Hw Hpk]. split; [done|]. intros Hprim.
    destruct (Hpk Hprim) as [Hk Hc]. split; [done|].
    intros cell. rewrite (effect_uuid _ _ _ H1). apply Hc.
  - rewrite (effect_cs_type _ _ H1). done.
Qed.

Lemma mapReturnedValues_effect res meta s :
  (forall k, isDefined (get (data (entities s a)) k) true = false -> W k) ->
  effect p c a W C s (mapReturnedValues this a res meta s).2.
Proof.
  intros Hw. unfold mapReturnedValues. destruct (row res) as [r|]; [|apply effect_refl].
  destruct (0 <? size r)%nat; [|apply effect_refl].
  destruct meta as [meta|]; mrun; [|apply effect_refl].
  apply effect_hydrate. intros k Hk. apply Hw.
  destruct (returnedData _ _ _ !! k) as [v|] eqn:E; [|done].
  by apply returnedData_unset in E as [E _].
Qed.

Lemma markAsPopulated_effect meta s :
  entity (changeSets s c) = a ->
  effect p c a W C s (markAsPopulated c meta s).2.
Proof.
  intros Ha. unfold markAsPopulated. mrun. rewrite Ha.
  destruct meta as [meta|]; mrun; [|apply effect_populated].
  apply forEach_invariant; [apply effect_populated|].
  intros prop s1 _ H1. mrun. eapply effect_trans; [exact H1|].
  destruct (get _ _); mrun;
    auto using effect_refl, effect_populated, effect_collection.
Qed.

Lemma updateEntity_effect meta ctx s :
  effect p c a W C s (updateEntity this meta c ctx s).2.
Proof.
  unfold updateEntity. destruct meta as [meta|]; mrun; [|apply effect_refl].
  destruct (nativeUpdate _ _ _ _ _ _); apply effect_log.
Qed.

Lemma processOptimisticLock_effect meta res ctx s :
  entity (changeSets s c) = a ->
  (forall m vp, meta = Some m -> versionProperty m = Some vp -> W vp) ->
  effect p c a W C s (processOptimisticLock this meta c res ctx s).2.
Proof.
  intros Ha Hvp. unfold processOptimisticLock.
  destruct meta as [meta|]; mrun; [|apply effect_refl].
  destruct (versionProperty meta) as [vp|] eqn:E; mrun; [|apply effect_refl].
  destruct (match cs_type _ with UPDATE => _ | _ => _ end); mrun; [apply effect_refl|].
  rewrite Ha.
  destruct (findOne _ _ _ _ _ _) as [e|[found|]]; mrun; try apply effect_log.
  eapply effect_trans; [apply effect_log|]. apply effect_write. by eapply Hvp.
Qed.

Lemma persistNewEntity_effect ctx s :
  p = true ->
  entity (changeSets s c) = a ->
  (forall k, isDefined (get (data (entities s a)) k) true = false -> W k) ->
  (forall m vp, metadata this (cs_name (changeSets s c)) = Some m ->
                versionProperty m = Some vp -> W vp) ->
  (isDefined (get__primaryKey (entities s a)) true = false ->
   W (first_key (primaryKeys (__meta (entities s a)))) /\ cell_allowed s) ->
  effect p c a W C s (persistNewEntity this c ctx s).2.
Proof.
  intros Hp Ha Hdef Hvp Hpk. unfold persistNewEntity. mrun. rewrite Ha.
  destruct (nativeInsert _ _ _ _ _) as [e|res]; mrun; [apply effect_log|].
  set (meta := metadata this _). set (s1 := log _ s).
  assert (H1 : effect p c a W C s s1) by apply effect_log.
  assert (H2 : effect p c a W C s (mapReturnedValues this a res meta s1).2).
  { eapply effect_trans; [exact H1|]. by apply mapReturnedValues_effect. }
  clearbody s1.
  destruct (mapReturnedValues this a res meta s1) as [[e|[]] s2]; cbn in *; [exact H2|].
  match goal with
  | |- effect _ _ _ _ _ _ (let (_, _) := ?m in _).2 =>
      destruct m as [r3 s3] eqn:E3
  end.
  assert (H3 : effect p c a W C s s3).
  { destruct (isDefined (get__primaryKey _) _) eqn:Hhas.
    - by injection E3 as _ <-.
    - destruct Hpk as [Hk Hc]; [done|].
      eapply effect_trans; [exact H2|].
      replace s3 with (mapPrimaryKey this meta (insertId res) c s2).2 by (by rewrite E3).
      apply mapPrimaryKey_effect.
      + by rewrite (effect_entity _ _ H2).
      + by rewrite (effect_meta _ _ _ H2).
      + intros cell. rewrite (effect_uuid _ _ _ H2). apply Hc. }
  clear E3. destruct r3 as [e|[]]; cbn; [exact H3|].
  assert (H4 : effect p c a W C s (markAsPopulated c meta s3).2).
  { eapply effect_trans; [exact H3|]. apply markAsPopulated_effect.
    by rewrite (effect_entity _ _ H3). }
  destruct (markAsPopulated c meta s3) as [[e|[]] s4]; cbn in *; [exact H4|].
  set (s5 := upd_entity a _ s4).
  assert (H5 : effect p c a W C s s5).
  { eapply effect_trans; [exact H4|]. apply effect_initialized. }
  clearbody s5.
  assert (H6 : effect p c a W C s (processOptimisticLock this meta c (Some res) ctx s5).2).
  { eapply effect_trans; [exact H5|]. apply processOptimisticLock_effect.
    - by rewrite (effect_entity _ _ H5).
    - intros m vp Hm. apply Hvp. by rewrite <- Hm. }
  destruct (processOptimisticLock _ _ _ _ _ s5) as [[e|[]] s6]; cbn in *; [exact H6|].
  eapply effect_trans; [exact H6|]. by apply effect_set_persisted.
Qed.

Lemma persistManagedEntity_effect ctx s :
  p = true ->
  entity (changeSets s c) = a ->
  (forall k, isDefined (get (data (entities s a)) k) true = false -> W k) ->
  (forall m vp, metadata this (cs_name (changeSets s c)) = Some m ->
                versionProperty m = Some vp -> W vp) ->
  effect p c a W C s (persistManagedEntity this c ctx s).2.
Proof.
  intros Hp Ha Hdef Hvp. unfold persistManagedEntity. mrun. rewrite Ha.
  set (meta := metadata this _).
  pose proof (updateEntity_effect meta ctx s) as H1.
  destruct (updateEntity this meta c ctx s) as [[e|res] s1] eqn:Hupd; cbn in *; [exact H1|].
  assert (Hdata : data (entities s1 a) = data (entities s a)).
  { revert Hupd. unfold updateEntity.
    destruct meta as [m|]; mrun; [|done].
    destruct (nativeUpdate _ _ _ _ _ _); intros [= _ <-]; done. }
  assert (H2 : effect p c a W C s (mapReturnedValues this a res meta s1).2).
  { eapply effect_trans; [exact H1|]. apply mapReturnedValues_effect.
    rewrite Hdata. exact Hdef. }
  destruct (mapReturnedValues this a res meta s1) as [[e|[]] s2]; cbn in *; [exact H2|].
  assert (H3 : effect p c a W C s (processOptimisticLock this meta c (Some res) ctx s2).2).
  { eapply effect_trans; [exact H2|]. apply processOptimisticLock_effect.
    - by rewrite (effect_entity _ _ H2).
    - intros m vp Hm. apply Hvp. by rewrite <- Hm. }
  destruct (processOptimisticLock _ _ _ _ _ s2) as [[e|[]] s3]; cbn in *; [exact H3|].
  eapply effect_trans; [exact H3|]. by apply effect_set_persisted.
Qed.

End MethodEffects.

(** ** Primary-key assignment *)

Lemma meta_prop_Some meta k prop :
  meta_prop meta k = Some prop -> prop ∈ properties meta /\ prop_name prop = k.
Proof.
  unfold meta_prop. intros H. apply find_some in H as [Hin Heq].
  split; [by apply list_elem_of_In|]. by apply String.eqb_eq.
Qed.

Lemma get__primaryKey_simple e pk :
  primaryKeys (__meta e) = [pk] -> get__primaryKey e = get (data e) pk.
Proof. unfold get__primaryKey. by intros ->. Qed.

Lemma mapPrimaryKey_run this meta prop cell v c s :
  let a := entity (changeSets s c) in
  let wrapped := entities s a in
  let s1 := upd_entity a
              (set__primaryKey
                 (if isDefined (get__primaryKey wrapped) true
                  then get__primaryKey wrapped else convertedKey this prop v)) s in
  meta_prop meta (first_key (primaryKeys meta)) = Some prop ->
  identifierMap this !! __uuid wrapped = Some cell ->
  mapPrimaryKey this (Some meta) v c s =
    (inr tt, setValue cell (get (data (entities s1 a)) (prop_name prop)) s1).
Proof.
  intros a wrapped s1 Hprop Hcell. unfold mapPrimaryKey. mrun.
  rewrite Hprop. mrun. fold a wrapped. rewrite Hcell. reflexivity.
Qed.

(** After the insert has answered, the entity's properties other than the
    version, and every identifier, are settled by [mapReturnedValues] and
    [mapPrimaryKey]: the rest of [persistNewEntity] writes the version only. *)
Lemma persistNewEntity_stages this c ctx s res :
  let cs := changeSets s c in
  let a := entity cs in
  let meta := metadata this (cs_name cs) in
  let s1 := log (NativeInsert (cs_name cs) (payload cs) ctx) s in
  let s2 := (mapReturnedValues this a res meta s1).2 in
  let s3 := if isDefined (get__primaryKey (entities s a)) true then s2
            else (mapPrimaryKey this meta (insertId res) c s2).2 in
  nativeInsert (driver this) (calls s) (cs_name cs) (payload cs) ctx = inr res ->
  effect true c a (fun k => exists m, meta = Some m /\ versionProperty m = Some k)
    (fun _ => False) s3 (persistNewEntity this c ctx s).2.
Proof.
  intros cs a meta s1 s2 s3 Hins. unfold persistNewEntity. mrun.
  subst s3 s2 s1 meta a cs. rewrite Hins. mrun.
  set (cs := changeSets s c). set (a := entity cs). set (meta := metadata this _).
  set (s1 := log _ s).
  assert (Ha2 : entity (changeSets (mapReturnedValues this a res meta s1).2 c) = a).
  { unfold mapReturnedValues.
    destruct (row res) as [r|]; [|done]. destruct (0 <? size r)%nat; [|done].
    by destruct meta. }
  destruct (mapReturnedValues this a res meta s1) as [[e|[]] s2] eqn:E2.
  { cbn. destruct (isDefined _ _); [apply effect_refl|].
    revert E2. unfold mapReturnedValues.
    destruct (row res) as [r|]; [|done]. destruct (0 <? size r)%nat; [|done].
    destruct meta as [m|] eqn:Em; mrun; [done|]. intros [= _ <-].
    unfold mapPrimaryKey. mrun. apply effect_refl. }
  cbn [snd] in *.
  set (s3 := if isDefined (get__primaryKey (entities s a)) true then s2
             else (mapPrimaryKey this meta (insertId res) c s2).2).
  match goal with
  | |- effect _ _ _ _ _ _ (let (_, _) := ?m in _).2 =>
      destruct m as [r3 s3'] eqn:E3
  end.
  assert (s3' = s3) as ->.
  { subst s3. destruct (isDefined _ _); [by injection E3 as _ <-|]. by rewrite E3. }
  assert (Ha3 : entity (changeSets s3 c) = a).
  { subst s3. destruct (isDefined _ _); [done|].
    rewrite (effect_entity true c a (fun _ => True) (fun _ => True) s2); [done|].
    by apply mapPrimaryKey_effect. }
  clearbody s3. clear E3. destruct r3 as [e|[]]; cbn; [apply effect_refl|].
  set (R := effect true c a _ _).
  assert (H4 : R s3 (markAsPopulated c meta s3).2) by (by apply markAsPopulated_effect).
  destruct (markAsPopulated c meta s3) as [[e|[]] s4]; cbn in *; [exact H4|].
  set (s5 := upd_entity a _ s4).
  assert (H5 : R s3 s5).
  { eapply effect_trans; [exact H4|]. apply effect_initialized. }
  clearbody s5.
  assert (H6 : R s3 (processOptimisticLock this meta c (Some res) ctx s5).2).
  { eapply effect_trans; [exact H5|]. apply processOptimisticLock_effect.
    - by rewrite (effect_entity _ _ _ _ _ _ _ H5).
    - intros m vp Hm Hv. by exists m. }
  destruct (processOptimisticLock _ _ _ _ _ s5) as [[e|[]] s6]; cbn in *; [exact H6|].
  eapply effect_trans; [exact H6|]. by apply effect_set_persisted.
Qed.

(** C7 (as the code has it): a CREATE change set whose entity has no primary
    key when the insert answers gets its (single-property) key from the
    returned row when the row carries a truthy value for the key column and
    its hydration is an explicit value, and otherwise from the driver's
    generated insert id, converted by the key property's custom type when it
    declares one; the key so resolved is also what the entity's identifier
    is set to. *)
Theorem persistNewEntity_assigns_key :
  forall this meta pk prop cell c ctx s res,
    let cs := changeSets s c in
    let a := entity cs in
    let e := entities s a in
    let out := persistNewEntity this c ctx s in
    let fromRow := rowValue this prop res (get (data e) pk) in
    let key := if isDefined fromRow true then fromRow
               else convertedKey this prop (insertId res) in
    metadata this (cs_name cs) = Some meta ->
    __meta e = meta ->
    primaryKeys meta = [pk] ->
    meta_prop meta pk = Some prop ->
    NoDup (map prop_name (properties meta)) ->
    versionProperty meta <> Some pk ->
    identifierMap this !! __uuid e = Some cell ->
    nativeInsert (driver this) (calls s) (cs_name cs) (payload cs) ctx = inr res ->
    isDefined (get__primaryKey e) true = false ->
    get__primaryKey (entities out.2 a) = key /\ identifiers out.2 cell = key.
Proof.
  intros this meta pk prop cell c ctx s res cs a e out fromRow key
    Hmeta Hemeta Hpks Hprop Hnd Hvp Hcell Hins Hunset.
  pose proof (persistNewEntity_stages this c ctx s res Hins) as Hrest.
  cbn zeta in Hrest. fold cs a e out in Hrest. rewrite Hunset, Hmeta in Hrest.
  destruct (meta_prop_Some _ _ _ Hprop) as [Hin Hname].
  set (s1 := log (NativeInsert (cs_name cs) (payload cs) ctx) s) in *.
  set (s2 := (mapReturnedValues this a res (Some meta) s1).2) in *.
  assert (Hid2 : __meta (entities s2 a) = meta /\ __uuid (entities s2 a) = __uuid e).
  { assert (H : effect true c a (fun _ => True) (fun _ => True) s1 s2).
    { by apply mapReturnedValues_effect. }
    rewrite (effect_meta _ _ _ _ _ _ _ _ H), (effect_uuid _ _ _ _ _ _ _ _ H). done. }
  destruct Hid2 as [Hmeta2 Huuid2].
  assert (Hpk2 : get__primaryKey (entities s2 a) = fromRow).
  { rewrite (get__primaryKey_simple _ pk) by (by rewrite Hmeta2).
    unfold get. rewrite <- Hname. subst s2.
    rewrite mapReturnedValues_lookup by done. cbn. fold a e.
    rewrite (get__primaryKey_simple _ pk) in Hunset by (by rewrite Hemeta).
    rewrite Hname. unfold get in Hunset |- *. subst fromRow. unfold rowValue.
    destruct (row res) as [r|]; [|done]. destruct (fieldNames prop) as [fns|]; [|done].
    unfold get. rewrite Hunset, andb_true_r. by destruct (truthy _). }
  assert (Ha2 : entity (changeSets s2 c) = a).
  { apply (effect_entity true c a (fun _ => True) (fun _ => True) s).
    eapply effect_trans; [apply effect_log | by apply mapReturnedValues_effect]. }
  pose proof (mapPrimaryKey_run this meta prop cell (insertId res) c s2) as Hrun.
  cbn zeta in Hrun. rewrite Ha2, Hpk2, Huuid2, Hpks in Hrun.
  rewrite (Hrun Hprop Hcell) in Hrest. clear Hrun. cbn [snd] in Hrest.
  fold key in Hrest.
  set (s3 := setValue cell _ _) in Hrest.
  assert (Hkey3 : data (entities s3 a) !! pk = Some key).
  { subst s3. cbn. rewrite fn_lookup_insert. unfold set__primaryKey. cbn.
    rewrite Hmeta2, Hpks. cbn. by rewrite lookup_insert_eq. }
  assert (Hcell3 : identifiers s3 cell = key).
  { subst s3. cbn. rewrite !fn_lookup_insert. unfold set__primaryKey. cbn.
    rewrite Hmeta2, Hpks, Hname. cbn. unfold get. by rewrite lookup_insert_eq. }
  split.
  - rewrite (get__primaryKey_simple _ pk).
    + unfold get. rewrite (eff_data _ _ _ _ _ _ _ Hrest), Hkey3; [done|].
      intros _ (m & [= <-] & Hv). congruence.
    + rewrite (effect_meta _ _ _ _ _ _ _ _ Hrest). subst s3. cbn.
      rewrite fn_lookup_insert. unfold set__primaryKey. cbn. by rewrite Hmeta2.
  - rewrite (eff_identifiers _ _ _ _ _ _ _ Hrest) by tauto. exact Hcell3.
Qed.

(** A [User] without id is inserted, the driver generates 42 and the lookup
    finds version 1: the entity's id and its identifier become 42. *)
Lemma persistNewEntity_assigns_key_witness :
  let s := Sample.world Sample.User CREATE ∅ ∅ ∅ ∅ in
  let this := Sample.persister
                (Sample.constDriver (Sample.result 1 (VNum 42) None)
                   (Some {[ "version"%string := VNum 1 ]}))
                Sample.User in
  let out := persistNewEntity this 0 None s in
  get__primaryKey (entities out.2 0%nat) = VNum 42 /\ identifiers out.2 0%nat = VNum 42.
Proof.
  intros s this out.
  apply (persistNewEntity_assigns_key this Sample.User "id" Sample.idProp 0%nat 0%nat
           None s (Sample.result 1 (VNum 42) None)).
  - reflexivity.
  - reflexivity.
  - reflexivity.
  - reflexivity.
  - apply (bool_decide_unpack _). vm_compute. reflexivity.
  - discriminate.
  - reflexivity.
  - reflexivity.
  - reflexivity.
Defined.

(** The driver returns the row [{id: 7}] next to the insert id 8: the key
    comes from the row, through the hydrator, and the insert id is not
    used. *)
Lemma persistNewEntity_key_from_row :
  let s := Sample.world Sample.User CREATE ∅ ∅ ∅ ∅ in
  let res := Sample.result 1 (VNum 8) (Some {[ "id"%string := VNum 7 ]}) in
  let this := Sample.persister
                (Sample.constDriver res (Some {[ "version"%string := VNum 1 ]}))
                Sample.User in
  let out := persistNewEntity this 0 None s in
  isDefined (get__primaryKey (entities s 0%nat)) true = false /\
  out.1 = inr tt /\
  get__primaryKey (entities out.2 0%nat) = VNum 7 /\
  identifiers out.2 0%nat = VNum 7 /\
  get__primaryKey (entities out.2 0%nat) <> convertedKey this Sample.idProp (insertId res).
Proof. vm_compute. repeat split; discriminate. Qed.

(** ** Primary keys are kept *)

Lemma getPrimaryKeyCond_ext (d d' : Dictionary) pks :
  (forall pk, pk ∈ pks -> get d' pk = get d pk) ->
  getPrimaryKeyCond d' pks = getPrimaryKeyCond d pks.
Proof.
  unfold getPrimaryKeyCond. generalize (∅ : Dictionary) as acc.
  induction pks as [|pk pks IH]; intros acc H; cbn; [done|].
  rewrite (H pk) by set_solver. apply IH. intros q Hq. apply H. set_solver.
Qed.

Lemma forallb_agree {A} (f g : A -> bool) (l : list A) :
  (forall x, x ∈ l -> f x = g x) -> forallb f l = forallb g l.
Proof.
  induction l as [|x l IH]; intros H; cbn; [done|].
  rewrite (H x), IH; [done | | ]; set_solver.
Qed.

Lemma get__primaryKey_ext e e' :
  __meta e' = __meta e ->
  (forall k, k ∈ keyNames (__meta e) -> data e' !! k = data e !! k) ->
  get__primaryKey e' = get__primaryKey e.
Proof.
  unfold get__primaryKey, keyNames. intros -> H.
  destruct (1 <? length _)%nat.
  - assert (Hget : forall pk, pk ∈ primaryKeys (__meta e) ->
                              get (data e') pk = get (data e) pk).
    { intros pk Hpk. unfold get. by rewrite H. }
    rewrite (getPrimaryKeyCond_ext _ _ _ Hget).
    rewrite (forallb_agree _ (fun pk => isDefined (get (data e) pk) true)); [done|].
    intros pk Hpk. by rewrite Hget.
  - unfold get. rewrite H; [done|]. set_solver.
Qed.

Lemma get__primaryKey_defined e k :
  isDefined (get__primaryKey e) true = true ->
  k ∈ keyNames (__meta e) ->
  isDefined (get (data e) k) true = true.
Proof.
  unfold get__primaryKey, keyNames. destruct (1 <? length _)%nat.
  - destruct (forallb _ _) eqn:Hall; [|done]. intros _ Hk.
    rewrite forallb_forall in Hall. apply Hall. by apply list_elem_of_In.
  - intros Hdef Hk. apply list_elem_of_singleton in Hk as ->. done.
Qed.


Lemma keys_kept_refl s : keys_kept s s.
Proof. split; [apply same_identity_refl | done]. Qed.

Lemma keys_kept_key s s' a :
  keys_kept s s' ->
  isDefined (get__primaryKey (entities s a)) true = true ->
  get__primaryKey (entities s' a) = get__primaryKey (entities s a).
Proof.
  intros [[_ Hid] Hkeys] Hdef. apply get__primaryKey_ext; [apply Hid|].
  intros k Hk. by apply Hkeys.
Qed.

(** A step that works on one entity and writes none of its set key
    properties keeps the keys. *)
Lemma keys_kept_step p c W C s s1 s2 :
  keys_kept s s1 ->
  effect p c (entity (changeSets s1 c)) W C s1 s2 ->
  (forall k, isDefined (get__primaryKey (entities s1 (entity (changeSets s1 c)))) true = true ->
             k ∈ keyNames (__meta (entities s1 (entity (changeSets s1 c)))) -> ~ W k) ->
  keys_kept s s2.
Proof.
  intros Hkept Heff Hw. split.
  - eapply same_identity_trans; [apply Hkept | apply Heff].
  - intros a k Hdef Hk. destruct Hkept as [[_ Hid] Hkeys].
    rewrite <- (Hkeys a k) by done. apply (eff_data _ _ _ _ _ _ _ Heff).
    intros ->. apply Hw.
    + rewrite (get__primaryKey_ext (entities s (entity (changeSets s1 c)))); [done | apply Hid |].
      intros k' Hk'. by apply Hkeys.
    + destruct (Hid (entity (changeSets s1 c))) as [-> _]. done.
Qed.

Section KeysKept.

Variables (this : ChangeSetPersister) (meta : EntityMetadata) (css : list nat).
Variable s : State.

Hypothesis Hbatch : batch_of this meta css s.
Hypothesis Hrules :
  forall prop, prop ∈ properties meta ->
    primary prop = true \/ prop_name prop ∈ keyNames meta ->
    onCreate prop = None /\ onUpdate prop = None.
Hypothesis Hversion : forall vp, versionProperty meta = Some vp -> vp ∉ keyNames meta.

Lemma batch_of_later s1 c :
  keys_kept s s1 -> c ∈ css ->
  metadata this (cs_name (changeSets s1 c)) = Some meta /\
  __meta (entities s1 (entity (changeSets s1 c))) = meta.
Proof.
  intros [[Hcs He] _] Hc. destruct (Hcs c) as (-> & _ & ->).
  destruct (He (entity (changeSets s c))) as [-> _]. by apply Hbatch.
Qed.

Lemma processProperties_keys_kept s1 c :
  keys_kept s s1 -> c ∈ css -> keys_kept s (processProperties this c s1).2.
Proof.
  intros Hkept Hc. destruct (batch_of_later s1 c Hkept Hc) as [Hm He].
  eapply (keys_kept_step false c (fun k => k ∉ keyNames meta) (fun _ => True));
    [exact Hkept | | ].
  - apply processProperties_effect; [done|]. intros m prop. rewrite Hm. intros [= <-] Hin.
    split.
    + intros _ [rule Hrule]. split.
      * intros Hk. destruct (Hrules prop Hin (or_intror Hk)) as [Hn _]. congruence.
      * intros Hprim. destruct (Hrules prop Hin (or_introl Hprim)) as [Hn _]. congruence.
    + intros _ [rule Hrule] Hk.
      destruct (Hrules prop Hin (or_intror Hk)) as [_ Hn]. congruence.
  - intros k _ Hk Hw. apply Hw. by rewrite <- He.
Qed.

Lemma persistNewEntity_keys_kept s1 c ctx :
  keys_kept s s1 -> c ∈ css -> keys_kept s (persistNewEntity this c ctx s1).2.
Proof.
  intros Hkept Hc. destruct (batch_of_later s1 c Hkept Hc) as [Hm He].
  set (a := entity (changeSets s1 c)) in *.
  eapply (keys_kept_step true c
            (fun k => isDefined (get (data (entities s1 a)) k) true = false \/
                      versionProperty meta = Some k \/
                      isDefined (get__primaryKey (entities s1 a)) true = false)
            (fun _ => True)); [exact Hkept | | ].
  - apply persistNewEntity_effect; auto.
    + intros m vp. rewrite Hm. intros [= <-] Hvp. auto.
    + intros Hunset. split; [auto | done].
  - fold a. intros k Hdef Hk [Hw | [Hw | Hw]].
    + rewrite (get__primaryKey_defined _ k Hdef Hk) in Hw. done.
    + apply (Hversion k Hw). by rewrite <- He.
    + congruence.
Qed.

Lemma persistManagedEntity_keys_kept s1 c ctx :
  keys_kept s s1 -> c ∈ css -> keys_kept s (persistManagedEntity this c ctx s1).2.
Proof.
  intros Hkept Hc. destruct (batch_of_later s1 c Hkept Hc) as [Hm He].
  set (a := entity (changeSets s1 c)) in *.
  eapply (keys_kept_step true c
            (fun k => isDefined (get (data (entities s1 a)) k) true = false \/
                      versionProperty meta = Some k)
            (fun _ => True)); [exact Hkept | | ].
  - apply persistManagedEntity_effect; auto.
    intros m vp. rewrite Hm. intros [= <-] Hvp. auto.
  - fold a. intros k Hdef Hk [Hw | Hw].
    + rewrite (get__primaryKey_defined _ k Hdef Hk) in Hw. done.
    + apply (Hversion k Hw). by rewrite <- He.
Qed.

Lemma executeInserts_keys_kept ctx : keys_kept s (executeInserts this css ctx s).2.
Proof.
  unfold executeInserts. apply bind_invariant.
  - apply forEach_invariant; [apply keys_kept_refl|].
    intros c s1 Hc H1. by apply processProperties_keys_kept.
  - intros _ _. apply forEach_invariant.
    + apply forEach_invariant; [apply keys_kept_refl|].
      intros c s1 Hc H1. by apply processProperties_keys_kept.
    + intros c s1 Hc H1. by apply persistNewEntity_keys_kept.
Qed.

Lemma executeUpdates_keys_kept ctx : keys_kept s (executeUpdates this css ctx s).2.
Proof.
  unfold executeUpdates. apply bind_invariant.
  - apply forEach_invariant; [apply keys_kept_refl|].
    intros c s1 Hc H1. by apply processProperties_keys_kept.
  - intros _ _. apply forEach_invariant.
    + apply forEach_invariant; [apply keys_kept_refl|].
      intros c s1 Hc H1. by apply processProperties_keys_kept.
    + intros c s1 Hc H1. by apply persistManagedEntity_keys_kept.
Qed.

End KeysKept.

Lemma executeDeletes_entities getPrimaryKeyHash this css ctx s :
  entities (executeDeletes getPrimaryKeyHash this css ctx s).2 = entities s.
Proof.
  unfold executeDeletes. destruct css as [|c css]; mrun; [done|].
  destruct (compositePK _); mrun; by destruct (nativeDelete _ _ _ _ _).
Qed.

(** Primary-key assignment on an entity whose simple key is set writes that
    key back under the key property. *)
Lemma mapPrimaryKey_keeps_key this meta v c s a :
  isDefined (get__primaryKey (entities s a)) true = true ->
  (1 <? length (primaryKeys (__meta (entities s a))))%nat = false ->
  entities (mapPrimaryKey this meta v c s).2 a = entities s a.
Proof.
  intros Hdef Hsimple. unfold mapPrimaryKey. destruct meta as [meta|]; mrun; [|done].
  destruct (meta_prop _ _) as [prop|]; mrun; [|done].
  set (a0 := entity (changeSets s c)).
  assert (Hsame : <[a0 := set__primaryKey
                            (if isDefined (get__primaryKey (entities s a0)) true
                             then get__primaryKey (entities s a0)
                             else match customType prop with
                                  | Some t => convertToJSValue t v (getPlatform (driver this))
                                  | None => v
                                  end) (entities s a0)]> (entities s) a = entities s a).
  { destruct (decide (a = a0)) as [->|Hne]; [|by apply fn_lookup_insert_ne].
    rewrite fn_lookup_insert, Hdef. revert Hdef.
    unfold set__primaryKey, get__primaryKey, set_data, get. rewrite Hsimple.
    destruct (entities s a0) as [d u i pop m]. cbn.
    destruct (d !! first_key (primaryKeys m)) as [k|] eqn:Hk; [|done].
    intros _. f_equal. by apply insert_id. }
  by destruct (identifierMap this !! _).
Qed.

(** Reconciliation writes none of the properties a set key is read from. *)
Lemma mapReturnedValues_keeps_key this a' res meta s a :
  isDefined (get__primaryKey (entities s a)) true = true ->
  get__primaryKey (entities (mapReturnedValues this a' res meta s).2 a)
    = get__primaryKey (entities s a).
Proof.
  intros Hdef.
  pose proof (mapReturnedValues_effect this false 0%nat a'
                (fun k => isDefined (get (data (entities s a')) k) true = false)
                (fun _ => True) res meta s (fun k H => H)) as Heff.
  apply get__primaryKey_ext; [apply Heff|].
  intros k Hk. apply (eff_data _ _ _ _ _ _ _ Heff). intros -> Hw.
  by rewrite (get__primaryKey_defined _ k Hdef Hk) in Hw.
Qed.

(** C9 (as the code has it): an entity's primary key, once defined, is kept
    by primary-key assignment when the key is simple (the key that is
    present is written back, not the generated id), by returned-value
    reconciliation (which skips every property that holds a defined value),
    and, when no primary-key property of the type declares a
    compute-on-create or compute-on-update rule and the version property is
    not a key property, by [executeInserts], [executeUpdates] and
    [executeDeletes], whatever their outcome. *)
Theorem defined_primary_key_is_kept :
  forall getPrimaryKeyHash this meta css ctx s a,
    isDefined (get__primaryKey (entities s a)) true = true ->
    (forall m v c,
       (1 <? length (primaryKeys (__meta (entities s a))))%nat = false ->
       get__primaryKey (entities (mapPrimaryKey this m v c s).2 a)
         = get__primaryKey (entities s a)) /\
    (forall a' res m,
       get__primaryKey (entities (mapReturnedValues this a' res m s).2 a)
         = get__primaryKey (entities s a)) /\
    (batch_of this meta css s ->
     (forall prop, prop ∈ properties meta ->
        primary prop = true \/ prop_name prop ∈ keyNames meta ->
        onCreate prop = None /\ onUpdate prop = None) ->
     (forall vp, versionProperty meta = Some vp -> vp ∉ keyNames meta) ->
     get__primaryKey (entities (executeInserts this css ctx s).2 a)
       = get__primaryKey (entities s a) /\
     get__primaryKey (entities (executeUpdates this css ctx s).2 a)
       = get__primaryKey (entities s a) /\
     get__primaryKey (entities (executeDeletes getPrimaryKeyHash this css ctx s).2 a)
       = get__primaryKey (entities s a)).
Proof.
  intros gh this meta css ctx s a Hdef. split; [|split].
  - intros m v c Hsimple. by rewrite mapPrimaryKey_keeps_key.
  - intros a' res m. by apply mapReturnedValues_keeps_key.
  - intros Hbatch Hrules Hversion. repeat split.
    + apply keys_kept_key; [|done]. by eapply executeInserts_keys_kept.
    + apply keys_kept_key; [|done]. by eapply executeUpdates_keys_kept.
    + by rewrite executeDeletes_entities.
Qed.

(** Two [User]s, the first with id 5: the key is still 5 after the
    assignment of the generated id 42, after the reconciliation of a row
    that holds the id 9, and after each of the three batch operations. *)
Lemma defined_primary_key_is_kept_witness :
  let s := Sample.world Sample.User CREATE {[ "id"%string := VNum 5 ]} ∅ ∅ ∅ in
  let this := Sample.persister
                (Sample.constDriver (Sample.result 1 (VNum 42) None)
                   (Some {[ "version"%string := VNum 1 ]}))
                Sample.User in
  let res := Sample.result 1 (VNum 42) (Some {[ "id"%string := VNum 9 ]}) in
  get__primaryKey (entities (mapPrimaryKey this (Some Sample.User) (VNum 42) 0%nat s).2 0%nat)
    = VNum 5 /\
  get__primaryKey (entities (mapReturnedValues this 0%nat res (Some Sample.User) s).2 0%nat)
    = VNum 5 /\
  get__primaryKey (entities (executeInserts this [0; 1]%nat None s).2 0%nat) = VNum 5 /\
  get__primaryKey (entities (executeUpdates this [0; 1]%nat None s).2 0%nat) = VNum 5 /\
  get__primaryKey (entities (executeDeletes first_key this [0; 1]%nat None s).2 0%nat)
    = VNum 5.
Proof.
  intros s this res.
  destruct (defined_primary_key_is_kept first_key this Sample.User [0; 1]%nat None s 0%nat
              eq_refl) as (Hassign & Hreconcile & Hbatch).
  split; [exact (Hassign (Some Sample.User) (VNum 42) 0%nat eq_refl)|].
  split; [exact (Hreconcile 0%nat res (Some Sample.User))|].
  apply Hbatch.
  - intros c Hc. apply elem_of_cons in Hc as [-> | Hc]; [by split|].
    apply list_elem_of_singleton in Hc as ->. by split.
  - intros prop Hprop _. apply elem_of_cons in Hprop as [-> | Hprop]; [by split|].
    apply list_elem_of_singleton in Hprop as ->. by split.
  - intros vp [= <-] Hin. apply list_elem_of_singleton in Hin. discriminate Hin.
Defined.

(** The assignment writes under the first key property only: on a
    [Membership] whose composite key is set, that property receives the
    whole key, so this key is not kept. *)
Example mapPrimaryKey_composite_key :
  let s := Sample.world Sample.Membership CREATE
             {[ "user"%string := VNum 1; "group"%string := VNum 2 ]} ∅ ∅ ∅ in
  let this := Sample.persister (Sample.constDriver (Sample.result 1 (VNum 42) None) None)
                Sample.Membership in
  let out := mapPrimaryKey this (Some Sample.Membership) (VNum 42) 0%nat s in
  isDefined (get__primaryKey (entities s 0%nat)) true = true /\
  out.1 = inr tt /\
  data (entities s 0%nat) !! "user"%string = Some (VNum 1) /\
  data (entities out.2 0%nat) !! "user"%string = Some (get__primaryKey (entities s 0%nat)) /\
  get__primaryKey (entities out.2 0%nat) <> get__primaryKey (entities s 0%nat).
Proof.
  intros s this out. repeat split.
  intros H.
  apply (f_equal (fun v => match v with
                           | VObject o => o !! "user"%string
                           | _ => None
                           end)) in H.
  vm_compute in H. discriminate H.
Qed.

(** A key property with a compute-on-create rule: the caller's key "mine" is
    overwritten by property resolution. *)
Lemma processProperty_overwrites_key :
  let s := Sample.world Sample.Token CREATE {[ "id"%string := VStr "mine" ]} ∅ ∅ ∅ in
  let this := Sample.persister (Sample.constDriver (Sample.result 1 VUndefined None) None)
                Sample.Token in
  let out := executeInserts this [0%nat] None s in
  isDefined (get__primaryKey (entities s 0%nat)) true = true /\
  out.1 = inr tt /\
  get__primaryKey (entities out.2 0%nat) = VStr "generated" /\
  get__primaryKey (entities out.2 0%nat) <> get__primaryKey (entities s 0%nat).
Proof. vm_compute. repeat split; discriminate. Qed.

(** ** Batches *)

Lemma forEach_app {A} (f : A -> M unit) xs ys s :
  forEach f (xs ++ ys) s =
    match forEach f xs s with
    | (inr _, s1) => forEach f ys s1
    | (inl e, s1) => (inl e, s1)
    end.
Proof.
  revert s. induction xs as [|x xs IH]; intros s; cbn; [done|].
  unfold bind. destruct (f x s) as [[e|[]] s1]; [done|]. apply IH.
Qed.

Lemma forEach_keep {A} (I P : State -> Prop) (f : A -> M unit) ys :
  forall s s',
    forEach f ys s = (inr tt, s') ->
    I s -> P s ->
    (forall y s1 s2, y ∈ ys -> I s1 -> f y s1 = (inr tt, s2) -> I s2) ->
    (forall y s1 s2, y ∈ ys -> I s1 -> P s1 -> f y s1 = (inr tt, s2) -> P s2) ->
    P s'.
Proof.
  induction ys as [|y ys IH]; intros s s' Hrun Hs Hp HI HP.
  - by injection Hrun as <-.
  - cbn in Hrun. unfold bind in Hrun. destruct (f y s) as [[e|[]] s1] eqn:Ey; [done|].
    apply (IH s1 s' Hrun).
    + apply (HI y s s1); [by left | done..].
    + apply (HP y s s1); [by left | done..].
    + intros z t1 t2 Hz. apply HI. by right.
    + intros z t1 t2 Hz. apply HP. by right.
Qed.

(** What holds after the round of [x] and is kept by every round holds for
    every element once the loop has returned. *)
Lemma forEach_post {A} (I : State -> Prop) (Q : A -> State -> Prop)
    (f : A -> M unit) xs :
  forall s s',
    forEach f xs s = (inr tt, s') ->
    I s ->
    (forall x s1 s2, x ∈ xs -> I s1 -> f x s1 = (inr tt, s2) -> I s2 /\ Q x s2) ->
    (forall x y s1 s2, x ∈ xs -> y ∈ xs -> I s1 -> Q x s1 ->
                       f y s1 = (inr tt, s2) -> Q x s2) ->
    I s' /\ forall x, x ∈ xs -> Q x s'.
Proof.
  induction xs as [|x xs IH]; intros s s' Hrun Hs Hstep Hkeep.
  - injection Hrun as <-. split; [done|]. intros x Hx. by apply elem_of_nil in Hx.
  - cbn in Hrun. unfold bind in Hrun.
    destruct (f x s) as [[e|[]] s1] eqn:Ex; [done|].
    destruct (Hstep x s s1) as [H1 Hq]; [by left | done | done |].
    destruct (IH s1 s' Hrun H1) as [Hs' Hall].
    + intros y t1 t2 Hy. apply Hstep. by right.
    + intros y z t1 t2 Hy Hz. apply Hkeep; by right.
    + split; [done|]. intros y Hy. apply elem_of_cons in Hy as [-> | Hy]; [|by apply Hall].
      apply (forEach_keep I (Q x) f xs s1 s' Hrun H1 Hq).
      * intros y t1 t2 Hy Ht Hf. apply (Hstep y t1 t2); [by right | done..].
      * intros y t1 t2 Hy Ht Hq' Hf.
        apply (Hkeep x y t1 t2); [by left | by right | done..].
Qed.

Lemma batch_frame_refl done s : batch_frame done s s.
Proof.
  split; [apply same_identity_refl|]. repeat split; try done.
  exists []. by rewrite app_nil_r.
Qed.

Lemma batch_frame_step p c W C done s1 s2 s3 :
  batch_frame done s1 s2 ->
  c ∈ done ->
  effect p c (entity (changeSets s2 c)) W C s2 s3 ->
  batch_frame done s1 s3.
Proof.
  intros (Hid & Hcs & Hent & Hper & l1 & Hcalls) Hc Heff.
  assert (Hother : forall a, a ∉ map (fun c => entity (changeSets s1 c)) done ->
                             a <> entity (changeSets s2 c)).
  { intros a Ha ->. apply Ha. destruct Hid as [Hid _].
    destruct (Hid c) as (_ & _ & ->).
    exact (list_elem_of_fmap_2 (fun c => entity (changeSets s1 c)) done c Hc). }
  refine (conj _ (conj _ (conj _ (conj _ _)))).
  - eapply same_identity_trans; [exact Hid | apply Heff].
  - intros c' Hc'. rewrite <- (Hcs c') by done. apply Heff. by intros ->.
  - intros a Ha. destruct (Hent a Ha) as [<- <-]. split.
    + apply map_eq. intros k. apply Heff. intros ->. by apply Hother in Ha.
    + apply Heff. by apply Hother.
  - intros c' Hc'. destruct (eff_persisted _ _ _ _ _ _ _ Heff c') as [-> | [_ ->]]; auto.
  - destruct (eff_calls _ _ _ _ _ _ _ Heff) as [l2 ->]. exists (l1 ++ l2).
    by rewrite Hcalls, app_assoc.
Qed.

Lemma persistNewEntity_frame this c ctx s :
  effect true c (entity (changeSets s c)) (fun _ => True) (fun _ => True) s
    (persistNewEntity this c ctx s).2.
Proof. apply persistNewEntity_effect; done. Qed.

Lemma persistManagedEntity_frame this c ctx s :
  effect true c (entity (changeSets s c)) (fun _ => True) (fun _ => True) s
    (persistManagedEntity this c ctx s).2.
Proof. apply persistManagedEntity_effect; done. Qed.

Lemma processProperties_frame this c s :
  effect false c (entity (changeSets s c)) (fun _ => True) (fun _ => True) s
    (processProperties this c s).2.
Proof. apply processProperties_effect; done. Qed.

Lemma persistNewEntity_persisted this c ctx s s' :
  persistNewEntity this c ctx s = (inr tt, s') -> persisted (changeSets s' c) = true.
Proof.
  unfold persistNewEntity. mrun.
  destruct (nativeInsert _ _ _ _ _) as [e|res]; mrun; [done|].
  destruct (mapReturnedValues _ _ _ _ _) as [[e|[]] s2]; [done|].
  match goal with
  | |- (let (_, _) := ?m in _) = _ -> _ => destruct m as [[e|[]] s3]; [done|]
  end.
  destruct (markAsPopulated _ _ _) as [[e|[]] s4]; [done|].
  destruct (processOptimisticLock _ _ _ _ _ _) as [[e|[]] s6]; [done|].
  intros [= <-]. cbn. by rewrite fn_lookup_insert.
Qed.

Lemma persistManagedEntity_persisted this c ctx s s' :
  persistManagedEntity this c ctx s = (inr tt, s') -> persisted (changeSets s' c) = true.
Proof.
  unfold persistManagedEntity. mrun.
  destruct (updateEntity _ _ _ _ _) as [[e|res] s1]; [done|].
  destruct (mapReturnedValues _ _ _ _ _) as [[e|[]] s2]; [done|].
  destruct (processOptimisticLock _ _ _ _ _ _) as [[e|[]] s3]; [done|].
  intros [= <-]. cbn. by rewrite fn_lookup_insert.
Qed.

(** A loop of persisting steps that has returned: every change set of it is
    persisted, and nothing outside it was touched. *)
Lemma persist_loop_done (f : nat -> M unit) done s1 s2 :
  (forall c s, effect true c (entity (changeSets s c)) (fun _ => True) (fun _ => True) s
                 (f c s).2) ->
  (forall c s s', f c s = (inr tt, s') -> persisted (changeSets s' c) = true) ->
  forEach f done s1 = (inr tt, s2) ->
  batch_frame done s1 s2 /\ forall c, c ∈ done -> persisted (changeSets s2 c) = true.
Proof.
  intros Hframe Hpers Hrun.
  assert (Hinv : batch_frame done s1 s2).
  { replace s2 with (forEach f done s1).2 by (by rewrite Hrun).
    apply forEach_invariant; [apply batch_frame_refl|].
    intros c s Hc Hs. eapply batch_frame_step; [exact Hs | exact Hc | apply Hframe]. }
  split; [exact Hinv|]. clear Hinv. revert s1 Hrun.
  induction done as [|c cs IH]; intros s1 Hrun c' Hc'; [by apply elem_of_nil in Hc'|].
  cbn in Hrun. unfold bind in Hrun. destruct (f c s1) as [[e|[]] s] eqn:Ec; [done|].
  apply elem_of_cons in Hc' as [-> | Hc']; [|by eapply IH].
  apply Hpers in Ec. clear IH. revert s Hrun Ec.
  induction cs as [|d ds IH]; intros s Hrun Ec; [by injection Hrun as <-|].
  cbn in Hrun. unfold bind in Hrun. destruct (f d s) as [[e|[]] t] eqn:Ed; [done|].
  apply (IH t Hrun).
  pose proof (Hframe d s) as Heff. rewrite Ed in Heff. cbn in Heff.
  destruct (eff_persisted _ _ _ _ _ _ _ Heff c) as [-> | [_ ->]]; done.
Qed.

Lemma persistNewEntity_insert_fails this c ctx s e :
  let cs := changeSets s c in
  nativeInsert (driver this) (calls s) (cs_name cs) (payload cs) ctx = inl e ->
  persistNewEntity this c ctx s =
    (inl (DriverError e), log (NativeInsert (cs_name cs) (payload cs) ctx) s).
Proof. intros cs H. unfold persistNewEntity. mrun. subst cs. by rewrite H. Qed.

Lemma persistManagedEntity_update_fails this meta c ctx s e :
  let cs := changeSets s c in
  let cond := updateCond meta (entities s (entity cs)) in
  metadata this (cs_name cs) = Some meta ->
  nativeUpdate (driver this) (calls s) (cs_name cs) cond (payload cs) ctx = inl e ->
  persistManagedEntity this c ctx s =
    (inl (DriverError e), log (NativeUpdate (cs_name cs) cond (payload cs) ctx) s).
Proof.
  intros cs cond Hmeta H. unfold persistManagedEntity, updateEntity. mrun.
  subst cond cs. rewrite Hmeta. mrun. by rewrite H.
Qed.

Lemma resolution_identity this css s :
  same_identity s (forEach (processProperties this) css s).2.
Proof.
  apply forEach_invariant; [apply same_identity_refl|].
  intros c s1 _ H1. eapply same_identity_trans; [exact H1|].
  apply (processProperties_frame this c s1).
Qed.

(** The change sets before the one that fails are persisted, the ones after
    it and their entities are as they were when the loop started. *)
Lemma aborted_batch (f : nat -> M unit) pre c post s1 s2 err call :
  (forall c s, effect true c (entity (changeSets s c)) (fun _ => True) (fun _ => True) s
                 (f c s).2) ->
  (forall c s s', f c s = (inr tt, s') -> persisted (changeSets s' c) = true) ->
  NoDup (pre ++ c :: post) ->
  NoDup (map (fun c' => entity (changeSets s1 c')) (pre ++ c :: post)) ->
  forEach f pre s1 = (inr tt, s2) ->
  f c s2 = (inl err, log call s2) ->
  forEach f (pre ++ c :: post) s1 = (inl err, log call s2) /\
  (forall c', c' ∈ pre -> persisted (changeSets (log call s2) c') = true) /\
  (forall c', c' ∈ post ->
     changeSets (log call s2) c' = changeSets s1 c' /\
     data (entities (log call s2) (entity (changeSets s1 c')))
       = data (entities s1 (entity (changeSets s1 c'))) /\
     __initialized (entities (log call s2) (entity (changeSets s1 c')))
       = __initialized (entities s1 (entity (changeSets s1 c')))).
Proof.
  intros Hframe Hpers Hnd Hnde Hpre Hfail.
  destruct (persist_loop_done f pre s1 s2 Hframe Hpers Hpre)
    as [(_ & Hcs & Hent & _) Hdone].
  split; [|split].
  - rewrite forEach_app, Hpre. cbn. unfold bind. by rewrite Hfail.
  - exact Hdone.
  - intros c' Hc'. cbn.
    apply list.NoDup_app in Hnd as (_ & Hnd & _).
    rewrite map_app in Hnde. apply list.NoDup_app in Hnde as (_ & Hnde & _).
    split; [|apply Hent].
    + apply Hcs. intros Hin. apply (Hnd c' Hin). by right.
    + intros Hin. apply (Hnde _ Hin). right.
      exact (list_elem_of_fmap_2 (fun c => entity (changeSets s1 c)) post c' Hc').
Qed.

(** ** Lock failure *)

Lemma resolution_persisted this css s c :
  persisted (changeSets (forEach (processProperties this) css s).2 c)
    = persisted (changeSets s c).
Proof.
  apply (forEach_invariant
           (fun s' => persisted (changeSets s' c) = persisted (changeSets s c)));
    [done|].
  intros c' s1 _ <-.
  destruct (eff_persisted _ _ _ _ _ _ _ (processProperties_frame this c' s1) c)
    as [-> | [? _]]; done.
Qed.

Lemma persistManagedEntity_lock_fails this meta vp c ctx s res :
  let cs := changeSets s c in
  let a := entity cs in
  let cond := updateCond meta (entities s a) in
  let call := NativeUpdate (cs_name cs) cond (payload cs) ctx in
  metadata this (cs_name cs) = Some meta ->
  versionProperty meta = Some vp ->
  cs_type cs = UPDATE ->
  nativeUpdate (driver this) (calls s) (cs_name cs) cond (payload cs) ctx = inr res ->
  truthy (affectedRows res) = false ->
  persistManagedEntity this c ctx s =
    (inl (OptimisticLockError a),
     (mapReturnedValues this a res (Some meta) (log call s)).2).
Proof.
  intros cs a cond call Hmeta Hvp Hty Hupd Hzero.
  unfold persistManagedEntity, updateEntity. mrun.
  subst call cond a cs. rewrite Hmeta. mrun. rewrite Hupd. mrun.
  set (s1 := log _ s).
  assert (Hcs : changeSets
                  (mapReturnedValues this (entity (changeSets s c)) res (Some meta) s1).2 c
                = changeSets s c).
  { rewrite mapReturnedValues_run. cbn [snd].
    destruct (row res) as [r|]; [|done]. by destruct (0 <? size r)%nat. }
  destruct (mapReturnedValues _ _ _ _ s1) as [[err|[]] s3] eqn:E3.
  { by rewrite mapReturnedValues_run in E3. }
  cbn [snd] in *. unfold processOptimisticLock. mrun. rewrite Hvp. mrun.
  rewrite Hcs, Hty, Hzero. reflexivity.
Qed.

(** C2 (as the code has it): in an UPDATE batch on a versioned type, when
    the driver reports no affected row for the k-th change set, the call
    fails with an OptimisticLockError on that change set's entity; the update
    of the k-th change set is the last driver call; the persisted flag of the
    k-th change set is what it was before the call; and the entity's version
    is not refreshed: when it held an explicit version as the update was
    issued, it still holds that version. *)
Theorem lock_failure_aborts_updates :
  forall this meta vp pre c post ctx s s2 res,
    let css := pre ++ c :: post in
    let s1 := (forEach (processProperties this) css s).2 in
    let cs := changeSets s2 c in
    let a := entity cs in
    let e := entities s2 a in
    let cond := updateCond meta e in
    let out := executeUpdates this css ctx s in
    NoDup css ->
    (forEach (processProperties this) css s).1 = inr tt ->
    forEach (fun c' => persistManagedEntity this c' ctx) pre s1 = (inr tt, s2) ->
    metadata this (cs_name cs) = Some meta ->
    versionProperty meta = Some vp ->
    cs_type cs = UPDATE ->
    nativeUpdate (driver this) (calls s2) (cs_name cs) cond (payload cs) ctx = inr res ->
    truthy (affectedRows res) = false ->
    out.1 = inl (OptimisticLockError a) /\
    calls out.2 = calls s2 ++ [NativeUpdate (cs_name cs) cond (payload cs) ctx] /\
    persisted (changeSets out.2 c) = persisted (changeSets s c) /\
    (isDefined (get (data e) vp) true = true ->
     data (entities out.2 a) !! vp = data e !! vp).
Proof.
  intros this meta vp pre c post ctx s s2 res css s1 cs a e cond out
    Hnd Hres Hpre Hmeta Hvp Hty Hupd Hzero.
  assert (Hrun : forEach (processProperties this) css s = (inr tt, s1)).
  { subst s1. destruct (forEach _ css s) as [[err|[]] t]; cbn in *; done. }
  set (call := NativeUpdate (cs_name cs) cond (payload cs) ctx).
  set (s3 := (mapReturnedValues this a res (Some meta) (log call s2)).2).
  assert (Hout : executeUpdates this css ctx s = (inl (OptimisticLockError a), s3)).
  { unfold executeUpdates, bind. fold css. rewrite Hrun. cbv beta iota.
    subst css. rewrite forEach_app, Hpre. cbn. unfold bind.
    by rewrite (persistManagedEntity_lock_fails this meta vp c ctx s2 res). }
  subst out. rewrite Hout. cbn [fst snd].
  assert (Hs3 : calls s3 = calls s2 ++ [call] /\ changeSets s3 c = changeSets s2 c).
  { subst s3. rewrite mapReturnedValues_run. cbn [snd].
    destruct (row res) as [r|]; [|done]. by destruct (0 <? size r)%nat. }
  destruct Hs3 as [Hcalls Hcs]. split; [done|]. split; [done|]. split.
  - rewrite Hcs.
    destruct (persist_loop_done (fun c' => persistManagedEntity this c' ctx) pre s1 s2)
      as [(_ & Hkeep & _) _]; auto using persistManagedEntity_frame.
    { intros c0 t t'. apply persistManagedEntity_persisted. }
    rewrite Hkeep.
    + apply resolution_persisted.
    + apply list.NoDup_app in Hnd as (_ & Hnd & _). intros Hin. apply (Hnd c Hin). by left.
  - intros Hdef. subst s3. rewrite mapReturnedValues_keeps_defined; [done|].
    intros _. exact Hdef.
Qed.

(** [User{id:42, version:1}] is updated while the row has moved on: no row
    is affected, the call fails on that entity, nothing is sent for the
    second change set, and the entity's version remains 1. *)
Lemma lock_failure_aborts_updates_witness :
  let s := Sample.world Sample.User UPDATE
             {[ "id"%string := VNum 42; "version"%string := VNum 1 ]}
             {[ "id"%string := VNum 43; "version"%string := VNum 1 ]} ∅ ∅ in
  let this := Sample.persister (Sample.constDriver (Sample.result 0 VUndefined None) None)
                Sample.User in
  let out := executeUpdates this [0; 1]%nat None s in
  out.1 = inl (OptimisticLockError 0) /\
  length (calls out.2) = 1%nat /\
  persisted (changeSets out.2 0%nat) = false /\
  data (entities out.2 0%nat) !! "version"%string = Some (VNum 1).
Proof.
  intros s this out.
  destruct (lock_failure_aborts_updates this Sample.User "version" [] 0%nat [1%nat] None s
              (forEach (processProperties this) [0; 1]%nat s).2
              (Sample.result 0 VUndefined None))
    as (Hfail & Hcalls & Hpersisted & Hversion).
  - apply (bool_decide_unpack _). vm_compute. reflexivity.
  - reflexivity.
  - reflexivity.
  - reflexivity.
  - reflexivity.
  - reflexivity.
  - reflexivity.
  - reflexivity.
  - split; [exact Hfail|]. split; [|split].
    + exact (f_equal length Hcalls).
    + exact Hpersisted.
    + exact (Hversion eq_refl).
Defined.

(** A version the application bumps itself, by a compute-on-update rule:
    property resolution has already moved the entity's version from 1 to 2
    when the update is refused. *)
Lemma lock_failure_after_resolution :
  let s := Sample.world Sample.Counted UPDATE
             {[ "id"%string := VNum 42; "version"%string := VNum 1 ]} ∅ ∅ ∅ in
  let this := Sample.persister (Sample.constDriver (Sample.result 0 VUndefined None) None)
                Sample.Counted in
  let out := executeUpdates this [0%nat] None s in
  out.1 = inl (OptimisticLockError 0) /\
  data (entities s 0%nat) !! "version"%string = Some (VNum 1) /\
  data (entities out.2 0%nat) !! "version"%string = Some (VNum 2) /\
  data (entities out.2 0%nat) !! "version"%string
    <> data (entities s 0%nat) !! "version"%string.
Proof. vm_compute. repeat split; discriminate. Qed.

(** ** The insert flow *)

Lemma markAsPopulated_populates c meta s :
  __populated (entities (markAsPopulated c meta s).2 (entity (changeSets s c))) = true.
Proof.
  unfold markAsPopulated. mrun. set (a := entity (changeSets s c)).
  set (s1 := upd_entity a populated s).
  assert (H1 : __populated (entities s1 a) = true).
  { subst s1. cbn. by rewrite fn_lookup_insert. }
  clearbody s1. destruct meta as [meta|]; mrun; [|done].
  apply (forEach_invariant (fun s' => __populated (entities s' a) = true)); [done|].
  intros prop s2 _ H2. mrun.
  destruct (get _ _); mrun; try done.
  destruct (decide (addr = a)) as [->|Hne].
  - by rewrite fn_lookup_insert.
  - by rewrite fn_lookup_insert_ne.
Qed.

Lemma processOptimisticLock_success this meta vp c res ctx s s' :
  let a := entity (changeSets s c) in
  let pk := get__primaryKey (entities s a) in
  processOptimisticLock this (Some meta) c res ctx s = (inr tt, s') ->
  versionProperty meta = Some vp ->
  exists found,
    findOne (driver this) (calls s) (meta_name meta) pk [vp] ctx = inr (Some found) /\
    s' = upd_entity a (set_data <[vp := get found vp]>)
           (log (FindOne (meta_name meta) pk [vp] ctx) s).
Proof.
  intros a pk Hrun Hvp. revert Hrun. unfold processOptimisticLock. mrun. rewrite Hvp. mrun.
  destruct (match cs_type _ with UPDATE => _ | _ => _ end); mrun; [done|].
  fold a pk. destruct (findOne _ _ _ _ _ _) as [e|[found|]]; mrun; try done.
  intros [= <-]. by exists found.
Qed.

Lemma mapPrimaryKey_success this meta v c s s' :
  let a := entity (changeSets s c) in
  let wrapped := entities s a in
  mapPrimaryKey this (Some meta) v c s = (inr tt, s') ->
  exists prop cell,
    meta_prop meta (first_key (primaryKeys meta)) = Some prop /\
    identifierMap this !! __uuid wrapped = Some cell /\
    let s1 := upd_entity a
                (set__primaryKey
                   (if isDefined (get__primaryKey wrapped) true
                    then get__primaryKey wrapped else convertedKey this prop v)) s in
    s' = setValue cell (get (data (entities s1 a)) (prop_name prop)) s1.
Proof.
  intros a wrapped. unfold mapPrimaryKey. mrun.
  destruct (meta_prop _ _) as [prop|] eqn:Hprop; mrun; [|done].
  fold a wrapped. destruct (identifierMap this !! _) as [cell|] eqn:Hcell; mrun; [|done].
  intros [= <-]. by exists prop, cell.
Qed.

Lemma persistNewEntity_success this meta c ctx s s' before :
  persistNewEntity this c ctx s = (inr tt, s') ->
  metadata this (cs_name (changeSets s c)) = Some meta ->
  __meta (entities s (entity (changeSets s c))) = meta ->
  (forall vp, versionProperty meta = Some vp -> vp ∉ keyNames meta) ->
  (exists l, calls s = before ++ l) ->
  insert_done this meta ctx before c s' /\
  (key_defined c s \/
   ((1 <? length (primaryKeys meta))%nat = false /\ ids_defined this meta) ->
   key_defined c s').
Proof.
  intros Hrun Hmeta Hemeta Hvers [l0 Hcalls].
  set (a := entity (changeSets s c)) in *.
  pose proof (persistNewEntity_frame this c ctx s) as Hall. rewrite Hrun in Hall.
  cbn [snd] in Hall. fold a in Hall.
  assert (Ha' : entity (changeSets s' c) = a) by apply Hall.
  assert (Hmeta' : __meta (entities s' a) = meta).
  { by rewrite (effect_meta _ _ _ _ _ _ _ _ Hall). }
  pose proof Hrun as Hrun0.
  unfold persistNewEntity in Hrun. mrun_in Hrun. fold a in Hrun. rewrite Hmeta in Hrun.
  destruct (nativeInsert _ _ _ _ _) as [err|res] eqn:Hins; [done|].
  pose proof (persistNewEntity_stages this c ctx s res Hins) as Hrest.
  cbn zeta in Hrest. fold a in Hrest. rewrite Hmeta, Hrun0 in Hrest. cbn [snd] in Hrest.
  mrun_in Hrun. set (s1 := log _ s) in *.
  assert (H1 : effect true c a (fun _ => True) (fun _ => True) s s1) by apply effect_log.
  assert (H2 : effect true c a (fun _ => True) (fun _ => True) s
                 (mapReturnedValues this a res (Some meta) s1).2).
  { eapply effect_trans; [exact H1|]. by apply mapReturnedValues_effect. }
  assert (Hkeep2 : forall k, isDefined (get (data (entities s a)) k) true = true ->
             data (entities (mapReturnedValues this a res (Some meta) s1).2 a) !! k
             = data (entities s a) !! k).
  { intros k Hk. by rewrite mapReturnedValues_keeps_defined. }
  destruct (mapReturnedValues this a res (Some meta) s1) as [[err|[]] s2]; [done|].
  cbn [snd] in *.
  remember (isDefined (get__primaryKey (entities s a)) true) as hasPrimaryKey eqn:Hhas.
  match type of Hrun with
  | (let (_, _) := ?m in _) = _ => destruct m as [r3 s3] eqn:E3
  end.
  assert (H3 : effect true c a (fun _ => True) (fun _ => True) s s3).
  { destruct hasPrimaryKey; [by injection E3 as _ <-|].
    eapply effect_trans; [exact H2|].
    replace s3 with (mapPrimaryKey this (Some meta) (insertId res) c s2).2
      by (by rewrite E3).
    apply mapPrimaryKey_effect; [|done..]. by rewrite (effect_entity _ _ _ _ _ _ _ H2). }
  assert (Hs3 : (if hasPrimaryKey then s2
                 else (mapPrimaryKey this (Some meta) (insertId res) c s2).2) = s3).
  { destruct hasPrimaryKey; [by injection E3 as _ <-|]. by rewrite E3. }
  rewrite Hs3 in Hrest.
  destruct r3 as [err|[]]; [done|].
  assert (Ha3 : entity (changeSets s3 c) = a) by (by rewrite (effect_entity _ _ _ _ _ _ _ H3)).
  pose proof (markAsPopulated_populates c (Some meta) s3) as Hpop. rewrite Ha3 in Hpop.
  pose proof (markAsPopulated_effect true c a (fun _ => True) (fun _ => True)
                (Some meta) s3 Ha3) as H4.
  destruct (markAsPopulated c (Some meta) s3) as [[err|[]] s4]; [done|].
  cbn [snd] in *. mrun_in Hrun.
  set (s5 := upd_entity a (set_initialized true) s4) in *.
  assert (H5 : effect true c a (fun _ => True) (fun _ => True) s s5).
  { eapply effect_trans; [exact H3|]. eapply effect_trans; [exact H4|].
    apply effect_initialized. }
  assert (Ha5 : entity (changeSets s5 c) = a) by (by rewrite (effect_entity _ _ _ _ _ _ _ H5)).
  assert (Hflags5 : __populated (entities s5 a) = true /\ __initialized (entities s5 a) = true).
  { subst s5. cbn. by rewrite fn_lookup_insert. }
  clearbody s5.
  pose proof (processOptimisticLock_effect this true c a (fun _ => True) (fun _ => True)
                (Some meta) (Some res) ctx s5 Ha5 ltac:(done)) as H6.
  destruct (processOptimisticLock this (Some meta) c (Some res) ctx s5)
    as [[err|[]] s6] eqn:E6; [done|].
  cbn [snd] in *. injection Hrun as Hs'. split.
  - unfold insert_done. cbn zeta. rewrite Ha'. subst s'. cbn.
    rewrite fn_lookup_insert. split; [done|].
    split; [apply H6, Hflags5|]. split; [apply H6, Hflags5|].
    intros vp Hvp.
    destruct (processOptimisticLock_success this meta vp c (Some res) ctx s5 s6 E6 Hvp)
      as (found & Hfind & Hs6).
    rewrite Ha5 in Hfind, Hs6.
    destruct (eff_calls _ _ _ _ _ _ _ H5) as [l5 Hcalls5].
    assert (Hpk : get__primaryKey (entities s6 a) = get__primaryKey (entities s5 a)).
    { apply get__primaryKey_ext; [apply H6|].
      intros k Hk. rewrite Hs6. cbn. rewrite fn_lookup_insert. cbn.
      apply lookup_insert_ne. intros <-. apply (Hvers vp Hvp).
      revert Hk. rewrite (effect_meta _ _ _ _ _ _ _ _ H5). by rewrite Hemeta. }
    exists (l0 ++ l5), [], found. rewrite Hpk. split; [|split].
    + rewrite Hs6. cbn. rewrite Hcalls5, Hcalls. by rewrite <- !app_assoc.
    + rewrite app_assoc, <- Hcalls, <- Hcalls5. exact Hfind.
    + rewrite Hs6. cbn. rewrite fn_lookup_insert. cbn. unfold get.
      by rewrite lookup_insert_eq.
  - intros Hkey. unfold key_defined. rewrite Ha'.
    assert (H3key : isDefined (get__primaryKey (entities s3 a)) true = true).
    { unfold key_defined in Hkey. fold a in Hkey.
      destruct hasPrimaryKey.
      - injection E3 as <-.
        rewrite (get__primaryKey_ext (entities s a)); [done | apply H2 |].
        intros k Hk. apply Hkeep2. by apply get__primaryKey_defined.
      - destruct Hkey as [Hkey | [Hsimple Hids]]; [congruence|].
        destruct (mapPrimaryKey_success this meta (insertId res) c s2 s3 E3)
          as (prop & cell & Hprop & Hcell & Hs3').
        cbn zeta in Hs3'. rewrite (effect_entity _ _ _ _ _ _ _ H2) in Hs3'. fold a in Hs3'.
        assert (Hm2 : __meta (entities s2 a) = meta).
        { by rewrite (effect_meta _ _ _ _ _ _ _ _ H2). }
        unfold get__primaryKey at 1.
        rewrite (effect_meta _ _ _ _ _ _ _ _ H3), Hemeta, Hsimple.
        rewrite Hs3'. cbn. rewrite fn_lookup_insert. unfold set__primaryKey at 1. cbn.
        rewrite Hm2. unfold get at 1. rewrite lookup_insert_eq. cbn.
        destruct (isDefined (get__primaryKey (entities s2 a)) true) eqn:H2key; [done|].
        eapply Hids; eauto. }
    rewrite (get__primaryKey_ext (entities s3 a)); [done | apply Hrest |].
    intros k Hk. apply Hrest. intros _ (m & [= <-] & Hv).
    apply (Hvers k Hv). revert Hk. rewrite (effect_meta _ _ _ _ _ _ _ _ H3). by rewrite Hemeta.
Qed.



Lemma effect_other_entity p c a W C s s' a' :
  effect p c a W C s s' -> a' <> a ->
  data (entities s' a') = data (entities s a') /\
  get__primaryKey (entities s' a') = get__primaryKey (entities s a') /\
  __initialized (entities s' a') = __initialized (entities s a').
Proof.
  intros Heff Hne.
  assert (Hdata : data (entities s' a') = data (entities s a')).
  { apply map_eq. intros k. by apply Heff. }
  split; [done|]. split; [|by apply Heff].
  apply get__primaryKey_ext; [apply Heff|]. intros k _. by rewrite Hdata.
Qed.

Lemma resolution_calls this css s :
  exists l, calls (forEach (processProperties this) css s).2 = calls s ++ l.
Proof.
  apply (forEach_invariant (fun s' => exists l, calls s' = calls s ++ l)).
  - exists []. by rewrite app_nil_r.
  - intros c s1 _ [l1 H1].
    destruct (eff_calls _ _ _ _ _ _ _ (processProperties_frame this c s1)) as [l2 H2].
    exists (l1 ++ l2). by rewrite H2, H1, app_assoc.
Qed.

(** C1 (as the code has it): after [executeInserts] has returned on a batch
    of one type whose version property is not a key property, every change
    set is persisted, every entity is populated and initialized, the version
    of every entity of a versioned type is the one found by a lookup on its
    key that the call issued, and the key of an entity is defined whenever it
    was defined after property resolution, or the type has a single-property
    key and the driver's insert ids are defined once converted. *)
Theorem executeInserts_postcondition :
  forall this meta css ctx s,
    let s1 := (forEach (processProperties this) css s).2 in
    let out := executeInserts this css ctx s in
    batch_of this meta css s ->
    (forall vp, versionProperty meta = Some vp -> vp ∉ keyNames meta) ->
    out.1 = inr tt ->
    forall c, c ∈ css ->
      insert_done this meta ctx (calls s) c out.2 /\
      (key_defined c s1 \/
       ((1 <? length (primaryKeys meta))%nat = false /\ ids_defined this meta) ->
       key_defined c out.2).
Proof.
  intros this meta css ctx s s1 out Hbatch Hvers Hok.
  assert (Hrun : forEach (processProperties this) css s = (inr tt, s1) /\
                 forEach (fun c => persistNewEntity this c ctx) css s1 = (inr tt, out.2)).
  { subst out s1. revert Hok. unfold executeInserts, bind.
    destruct (forEach (processProperties this) css s) as [[e|[]] t1]; [done|]. cbn.
    destruct (forEach _ css t1) as [[e|[]] t2]; done. }
  destruct Hrun as [Hres Hloop]. clearbody out.
  set (I := fun t => same_identity s t /\
                     (exists l, calls t = calls s ++ l) /\
                     forall c, c ∈ css -> key_defined c s1 -> key_defined c t).
  set (Q := fun c t =>
              insert_done this meta ctx (calls s) c t /\
              (key_defined c s1 \/
               ((1 <? length (primaryKeys meta))%nat = false /\ ids_defined this meta) ->
               key_defined c t)).
  assert (Hwf : forall t c, I t -> c ∈ css ->
                  metadata this (cs_name (changeSets t c)) = Some meta /\
                  __meta (entities t (entity (changeSets t c))) = meta).
  { intros t c ([Hcs He] & _) Hc. destruct (Hcs c) as (-> & _ & ->).
    destruct (He (entity (changeSets s c))) as [-> _]. by apply Hbatch. }
  (* one round, seen from any change set of the batch *)
  assert (Hround : forall x y t1 t2, x ∈ css -> y ∈ css -> I t1 ->
            persistNewEntity this y ctx t1 = (inr tt, t2) ->
            I t2 /\ Q y t2 /\ (Q x t1 -> Q x t2)).
  { intros x y t1 t2 Hx Hy Ht1 Hstep.
    destruct (Hwf t1 y Ht1 Hy) as (Hm & He).
    destruct Ht1 as (Hid & Hcalls & Hkeys).
    destruct (persistNewEntity_success this meta y ctx t1 t2 (calls s) Hstep Hm He Hvers Hcalls)
      as [Hdone Hkey].
    pose proof (persistNewEntity_frame this y ctx t1) as Heff.
    rewrite Hstep in Heff. cbn [snd] in Heff.
    destruct (eff_identity _ _ _ _ _ _ _ Heff) as [Hcs _].
    assert (Hkeep : forall c, c ∈ css -> key_defined c t1 -> key_defined c t2).
    { intros c Hc Hc1. unfold key_defined in *. destruct (Hcs c) as (_ & _ & ->).
      destruct (decide (entity (changeSets t1 c) = entity (changeSets t1 y))) as [Heq|Hne].
      - rewrite Heq. destruct (Hcs y) as (_ & _ & <-). apply Hkey. left. unfold key_defined.
        by rewrite <- Heq.
      - destruct (effect_other_entity _ _ _ _ _ _ _ _ Heff Hne) as (_ & -> & _). done. }
    assert (Hqy : Q y t2).
    { split; [exact Hdone|]. intros [Hk|Hk]; apply Hkey; [left; by apply Hkeys | by right]. }
    split; [|split; [exact Hqy|]].
    - split; [|split].
      + eapply same_identity_trans; [exact Hid | apply Heff].
      + destruct Hcalls as [l1 H1]. destruct (eff_calls _ _ _ _ _ _ _ Heff) as [l2 H2].
        exists (l1 ++ l2). by rewrite H2, H1, app_assoc.
      + intros c Hc Hc1. by apply Hkeep, Hkeys.
    - intros [Hdonex Hkeyx]. split.
      + destruct Hdonex as (Hper & Hpop & Hini & Hver).
        destruct Hdone as (_ & Hpopy & Hiniy & Hvery).
        destruct (Hcs x) as (_ & _ & Hentx). destruct (Hcs y) as (_ & _ & Henty).
        unfold insert_done. cbn zeta. rewrite Hentx.
        split; [|split; [by apply Heff|split; [by apply Heff|]]].
        * destruct (eff_persisted _ _ _ _ _ _ _ Heff x) as [-> | [_ ->]]; done.
        * intros vp Hvp.
          destruct (decide (entity (changeSets t1 x) = entity (changeSets t1 y)))
            as [Heq|Hne].
          -- rewrite Heq, <- Henty. by apply Hvery.
          -- destruct (effect_other_entity _ _ _ _ _ _ _ _ Heff Hne) as (-> & -> & _).
             destruct (Hver vp Hvp) as (h & l & found & Hlog & Hfind & Hv).
             destruct (eff_calls _ _ _ _ _ _ _ Heff) as [l2 H2].
             exists h, (l ++ l2), found. split; [|done].
             rewrite H2, Hlog. by rewrite <- !app_assoc.
      + intros [Hk|Hk].
        * by apply Hkeep, Hkeys.
        * apply Hkeep; [done|]. apply Hkeyx. by right. }
  apply (forEach_post I Q (fun c => persistNewEntity this c ctx) css s1 out.2);
    [exact Hloop | | | ].
  - split; [apply resolution_identity|]. split; [apply resolution_calls | done].
  - intros x t1 t2 Hx Ht1 Hstep. destruct (Hround x x t1 t2 Hx Hx Ht1 Hstep) as (? & ? & _).
    done.
  - intros x y t1 t2 Hx Hy Ht1 Hq Hstep.
    destruct (Hround x y t1 t2 Hx Hy Ht1 Hstep) as (_ & _ & Hkeep). by apply Hkeep.
Qed.

(** A [User] without id and a [User] with id 7 are inserted; the driver
    generates 42 and the lookup finds version 1: both change sets are
    persisted, both keys are defined, the version is the one found. *)
Lemma executeInserts_postcondition_witness :
  let s := Sample.world Sample.User CREATE ∅ {[ "id"%string := VNum 7 ]} ∅ ∅ in
  let this := Sample.persister
                (Sample.constDriver (Sample.result 1 (VNum 42) None)
                   (Some {[ "version"%string := VNum 1 ]}))
                Sample.User in
  let out := executeInserts this [0; 1]%nat None s in
  (insert_done this Sample.User None [] 0%nat out.2 /\ key_defined 0%nat out.2) /\
  (insert_done this Sample.User None [] 1%nat out.2 /\ key_defined 1%nat out.2).
Proof.
  intros s this out.
  assert (Hids : (1 <? length (primaryKeys Sample.User))%nat = false /\
                 ids_defined this Sample.User).
  { split; [reflexivity|]. intros h n d ctx r prop [= <-] [= <-]. reflexivity. }
  assert (Hall : forall c, c ∈ [0; 1]%nat ->
            insert_done this Sample.User None (calls s) c out.2 /\
            (key_defined c (forEach (processProperties this) [0; 1]%nat s).2 \/
             ((1 <? length (primaryKeys Sample.User))%nat = false /\
              ids_defined this Sample.User) ->
             key_defined c out.2)).
  { apply (executeInserts_postcondition this Sample.User [0; 1]%nat None s).
    - intros c Hc. apply elem_of_cons in Hc as [-> | Hc]; [by split|].
      apply list_elem_of_singleton in Hc as ->. by split.
    - intros vp [= <-] Hin. apply list_elem_of_singleton in Hin. discriminate Hin.
    - reflexivity. }
  split.
  - destruct (Hall 0%nat ltac:(by left)) as [Hdone Hkey]. split; [exact Hdone|].
    apply Hkey. right. exact Hids.
  - destruct (Hall 1%nat ltac:(by right; left)) as [Hdone Hkey]. split; [exact Hdone|].
    apply Hkey. right. exact Hids.
Defined.

(** The same insert with a driver that generates no id (and returns no row):
    the call returns, the change set is persisted, and the entity still has
    no primary key. *)
Lemma executeInserts_without_insert_id :
  let s := Sample.world Sample.User CREATE ∅ ∅ ∅ ∅ in
  let this := Sample.persister
                (Sample.constDriver (Sample.result 1 VUndefined None)
                   (Some {[ "version"%string := VNum 1 ]}))
                Sample.User in
  let out := executeInserts this [0%nat] None s in
  out.1 = inr tt /\
  persisted (changeSets out.2 0%nat) = true /\
  isDefined (get__primaryKey (entities out.2 0%nat)) true = false.
Proof. vm_compute. repeat split. Qed.
(** * Further properties *)

(** ** What the steps leave of the change sets *)

Lemma mapPrimaryKey_changeSets this meta v c s :
  changeSets (mapPrimaryKey this meta v c s).2 = changeSets s.
Proof.
  unfold mapPrimaryKey. destruct meta as [meta|]; mrun; [|done].
  destruct (meta_prop _ _) as [prop|]; mrun; [|done].
  by destruct (identifierMap this !! _).
Qed.

Lemma mapReturnedValues_changeSets this a res meta s :
  changeSets (mapReturnedValues this a res meta s).2 = changeSets s.
Proof.
  unfold mapReturnedValues. destruct (row res) as [r|]; [|done].
  destruct (0 <? size r)%nat; [|done]. by destruct meta.
Qed.

Lemma markAsPopulated_changeSets c meta s :
  changeSets (markAsPopulated c meta s).2 = changeSets s.
Proof.
  unfold markAsPopulated. mrun. destruct meta as [meta|]; mrun; [|done].
  apply (forEach_invariant (fun s' => changeSets s' = changeSets s)); [done|].
  intros prop s1 _ <-. mrun. by destruct (get _ _).
Qed.

Lemma updateEntity_changeSets this meta c ctx s :
  changeSets (updateEntity this meta c ctx s).2 = changeSets s.
Proof.
  unfold updateEntity. destruct meta as [meta|]; mrun; [|done].
  by destruct (nativeUpdate _ _ _ _ _ _).
Qed.

Lemma processOptimisticLock_changeSets this meta c res ctx s :
  changeSets (processOptimisticLock this meta c res ctx s).2 = changeSets s.
Proof.
  unfold processOptimisticLock. destruct meta as [meta|]; mrun; [|done].
  destruct (versionProperty meta) as [vp|]; mrun; [|done].
  destruct (match cs_type _ with UPDATE => _ | _ => _ end); mrun; [done|].
  by destruct (findOne _ _ _ _ _ _) as [e|[found|]].
Qed.

Lemma persistNewEntity_changeSets this c ctx s :
  changeSets (persistNewEntity this c ctx s).2 =
    match (persistNewEntity this c ctx s).1 with
    | inr _ => <[c := set_persisted true (changeSets s c)]> (changeSets s)
    | inl _ => changeSets s
    end.
Proof.
  unfold persistNewEntity. mrun.
  destruct (nativeInsert _ _ _ _ _) as [e|res]; mrun; [done|].
  set (meta := metadata this _). set (a := entity _). set (s1 := log _ s).
  assert (H1 : changeSets s1 = changeSets s) by done. clearbody s1.
  pose proof (mapReturnedValues_changeSets this a res meta s1) as H2.
  destruct (mapReturnedValues this a res meta s1) as [[e|[]] s2]; cbn in *; [congruence|].
  match goal with
  | |- context [let (_, _) := ?m in _] => destruct m as [r3 s3] eqn:E3
  end.
  assert (H3 : changeSets s3 = changeSets s).
  { destruct (isDefined _ _); [injection E3 as _ <-; congruence|].
    replace s3 with (mapPrimaryKey this meta (insertId res) c s2).2 by (by rewrite E3).
    rewrite mapPrimaryKey_changeSets. congruence. }
  clear E3. destruct r3 as [e|[]]; cbn; [done|].
  pose proof (markAsPopulated_changeSets c meta s3) as H4.
  destruct (markAsPopulated c meta s3) as [[e|[]] s4]; cbn in *; [congruence|].
  set (s5 := upd_entity _ _ s4).
  assert (H5 : changeSets s5 = changeSets s) by (subst s5; cbn; congruence).
  clearbody s5.
  pose proof (processOptimisticLock_changeSets this meta c (Some res) ctx s5) as H6.
  destruct (processOptimisticLock _ _ _ _ _ s5) as [[e|[]] s6]; cbn in *; [congruence|].
  rewrite H6, H5. done.
Qed.

Lemma persistManagedEntity_changeSets this c ctx s :
  changeSets (persistManagedEntity this c ctx s).2 =
    match (persistManagedEntity this c ctx s).1 with
    | inr _ => <[c := set_persisted true (changeSets s c)]> (changeSets s)
    | inl _ => changeSets s
    end.
Proof.
  unfold persistManagedEntity. mrun.
  set (meta := metadata this _). set (a := entity _).
  pose proof (updateEntity_changeSets this meta c ctx s) as H1.
  destruct (updateEntity this meta c ctx s) as [[e|res] s1]; cbn in *; [done|].
  pose proof (mapReturnedValues_changeSets this a res meta s1) as H2.
  destruct (mapReturnedValues this a res meta s1) as [[e|[]] s2]; cbn in *; [congruence|].
  pose proof (processOptimisticLock_changeSets this meta c (Some res) ctx s2) as H3.
  destruct (processOptimisticLock _ _ _ _ _ s2) as [[e|[]] s3]; cbn in *; [congruence|].
  rewrite H3, H2, H1. done.
Qed.

(** ** What the steps can throw *)

Lemma forEach_throws {A} (I : State -> Prop) (P : Exception -> Prop)
    (f : A -> M unit) xs :
  forall s e,
    I s ->
    (forall x s1, x ∈ xs -> I s1 -> I (f x s1).2) ->
    (forall x s1 e, x ∈ xs -> I s1 -> (f x s1).1 = inl e -> P e) ->
    (forEach f xs s).1 = inl e -> P e.
Proof.
  induction xs as [|x xs IH]; intros s e Hs Hinv Hthrow; cbn; [done|].
  unfold bind. pose proof (Hinv x s ltac:(by left) Hs) as H1.
  pose proof (Hthrow x s) as Hx.
  destruct (f x s) as [[e'|[]] s1]; cbn in *.
  - intros [= <-]. apply (Hx e'); [by left | done..].
  - apply IH; [done | |].
    + intros y t Hy. apply Hinv. by right.
    + intros y t e' Hy. apply Hthrow. by right.
Qed.

Lemma mapPrimaryKey_throws this meta v c s e :
  (mapPrimaryKey this meta v c s).1 = inl e -> e = TypeError.
Proof.
  unfold mapPrimaryKey. destruct meta as [meta|]; mrun; [|congruence].
  destruct (meta_prop _ _) as [prop|]; mrun; [|congruence].
  destruct (identifierMap this !! _); mrun; congruence.
Qed.

Lemma processProperty_throws this c prop s e :
  (processProperty this c prop s).1 = inl e -> e = TypeError.
Proof.
  unfold processProperty. mrun.
  match goal with
  | |- context [let (_, _) := ?m in _] => destruct m as [[e1|[]] s1] eqn:E1
  end.
  { destruct (get _ _); mrun_in E1; congruence. }
  clear E1.
  match goal with
  | |- context [let (_, _) := ?m in _] => destruct m as [[e2|[]] s2] eqn:E2
  end.
  { intros [= <-]. revert E2.
    destruct (onCreate prop) as [rule|]; [|done].
    destruct (cs_type _); try done. mrun.
    destruct (primary prop); mrun; [|done].
    intros E2. eapply mapPrimaryKey_throws. by rewrite E2. }
  clear E2. destruct (onUpdate prop) as [rule|]; [|done].
  destruct (cs_type _); done.
Qed.

Lemma processProperties_throws this c s e :
  (processProperties this c s).1 = inl e -> e = TypeError.
Proof.
  unfold processProperties. mrun.
  destruct (metadata this _) as [meta|]; mrun; [|congruence].
  apply (forEach_throws (fun _ => True) (fun e => e = TypeError)); [done.. |].
  intros prop s1 e' _ _. apply processProperty_throws.
Qed.

Lemma mapReturnedValues_throws this a res meta s e :
  (mapReturnedValues this a res meta s).1 = inl e -> e = TypeError.
Proof.
  unfold mapReturnedValues. destruct (row res) as [r|]; [|done].
  destruct (0 <? size r)%nat; [|done]. destruct meta; mrun; congruence.
Qed.

Lemma markAsPopulated_throws c meta s e :
  (markAsPopulated c meta s).1 = inl e -> e = TypeError.
Proof.
  unfold markAsPopulated. mrun. destruct meta as [meta|]; mrun; [|congruence].
  apply (forEach_throws (fun _ => True) (fun e => e = TypeError)); [done.. |].
  intros prop s1 e' _ _. mrun. by destruct (get _ _).
Qed.

(** A lock failure is thrown for an UPDATE change set only. *)
Lemma processOptimisticLock_throws this meta c res ctx s a :
  (processOptimisticLock this meta c res ctx s).1 = inl (OptimisticLockError a) ->
  cs_type (changeSets s c) = UPDATE /\ a = entity (changeSets s c) /\
  exists m vp r, meta = Some m /\ versionProperty m = Some vp /\ res = Some r /\
                 truthy (affectedRows r) = false.
Proof.
  unfold processOptimisticLock. destruct meta as [meta|]; mrun; [|done].
  destruct (versionProperty meta) as [vp|] eqn:Hvp; mrun; [|done].
  destruct (cs_type (changeSets s c)) eqn:Hty.
  - by destruct (findOne _ _ _ _ _ _) as [e|[found|]].
  - destruct res as [r|].
    + destruct (truthy (affectedRows r)) eqn:Hr; cbn.
      * by destruct (findOne _ _ _ _ _ _) as [e|[found|]].
      * intros [= <-]. split; [done|]. split; [done|]. by exists meta, vp, r.
    + by destruct (findOne _ _ _ _ _ _) as [e|[found|]].
  - by destruct (findOne _ _ _ _ _ _) as [e|[found|]].
Qed.

Lemma persistNewEntity_throws_lock this c ctx s a :
  (persistNewEntity this c ctx s).1 = inl (OptimisticLockError a) ->
  cs_type (changeSets s c) = UPDATE.
Proof.
  unfold persistNewEntity. mrun.
  destruct (nativeInsert _ _ _ _ _) as [e|res]; mrun; [done|].
  set (meta := metadata this _). set (a0 := entity _). set (s1 := log _ s).
  assert (H1 : changeSets s1 = changeSets s) by done. clearbody s1.
  pose proof (mapReturnedValues_changeSets this a0 res meta s1) as H2.
  pose proof (mapReturnedValues_throws this a0 res meta s1) as T2.
  destruct (mapReturnedValues this a0 res meta s1) as [[e|[]] s2]; cbn in *.
  { intros [= ->]. by specialize (T2 _ eq_refl). }
  match goal with
  | |- context [let (_, _) := ?m in _] => destruct m as [r3 s3] eqn:E3
  end.
  assert (H3 : changeSets s3 = changeSets s /\ forall e, r3 = inl e -> e = TypeError).
  { destruct (isDefined _ _); [injection E3 as <- <-; split; congruence|].
    pose proof (mapPrimaryKey_changeSets this meta (insertId res) c s2) as Hc.
    pose proof (mapPrimaryKey_throws this meta (insertId res) c s2) as Ht.
    rewrite E3 in Hc, Ht. cbn in *. split; [congruence|]. intros e ->. by apply Ht. }
  clear E3. destruct H3 as [H3 T3]. destruct r3 as [e|[]]; cbn.
  { intros [= ->]. by specialize (T3 _ eq_refl). }
  pose proof (markAsPopulated_changeSets c meta s3) as H4.
  pose proof (markAsPopulated_throws c meta s3) as T4.
  destruct (markAsPopulated c meta s3) as [[e|[]] s4]; cbn in *.
  { intros [= ->]. by specialize (T4 _ eq_refl). }
  set (s5 := upd_entity _ _ s4).
  assert (H5 : changeSets s5 = changeSets s) by (subst s5; cbn; congruence).
  clearbody s5.
  pose proof (processOptimisticLock_throws this meta c (Some res) ctx s5 a) as T6.
  destruct (processOptimisticLock _ _ _ _ _ s5) as [[e|[]] s6]; cbn in *; [|done].
  intros [= ->]. destruct (T6 eq_refl) as [Hty _]. by rewrite H5 in Hty.
Qed.

(** ** Steps that work in memory *)

Lemma same_flags_refl s : same_flags s s.
Proof. by split. Qed.

Lemma same_flags_trans s1 s2 s3 :
  same_flags s1 s2 -> same_flags s2 s3 -> same_flags s1 s3.
Proof.
  intros [Hc1 He1] [Hc2 He2]. split; [congruence|].
  intros a. destruct (He1 a) as [<- <-]. apply He2.
Qed.

Lemma same_flags_upd_entity a f s :
  (forall e, __initialized (f e) = __initialized e /\ __populated (f e) = __populated e) ->
  same_flags s (upd_entity a f s).
Proof.
  intros Hf. split; [done|]. intros a'. cbn.
  destruct (decide (a = a')) as [<-|Hne].
  - rewrite fn_lookup_insert. apply Hf.
  - by rewrite fn_lookup_insert_ne.
Qed.

Lemma same_flags_write a k v s : same_flags s (upd_entity a (set_data <[k := v]>) s).
Proof. by apply same_flags_upd_entity. Qed.

Lemma mapPrimaryKey_in_memory this meta v c s :
  calls (mapPrimaryKey this meta v c s).2 = calls s /\
  same_flags s (mapPrimaryKey this meta v c s).2.
Proof.
  unfold mapPrimaryKey. destruct meta as [meta|]; mrun; [|by split].
  destruct (meta_prop _ _) as [prop|]; mrun; [|by split].
  destruct (identifierMap this !! _); mrun; (split; [done|]).
  - match goal with
    | |- same_flags _ (setValue _ _ ?t) => apply (same_flags_trans _ t)
    end; [by apply same_flags_upd_entity | by split].
  - by apply same_flags_upd_entity.
Qed.

Lemma processProperty_in_memory this c prop s :
  calls (processProperty this c prop s).2 = calls s /\
  same_flags s (processProperty this c prop s).2.
Proof.
  set (I := fun t => calls t = calls s /\ same_flags s t).
  assert (Hwrite : forall t k v, I t ->
            I (upd_entity (entity (changeSets s c)) (set_data <[k := v]>)
                 (upd_changeSet c (set_payload <[k := v]>) t))).
  { intros t k v [Hcalls Hflags]. split; [done|].
    eapply same_flags_trans; [exact Hflags|].
    eapply same_flags_trans; [|apply same_flags_write]. by split. }
  assert (Hkey : forall t meta v, I t -> I (mapPrimaryKey this meta v c t).2).
  { intros t meta v [Hcalls Hflags].
    destruct (mapPrimaryKey_in_memory this meta v c t) as [Hc Hf].
    split; [congruence|]. by eapply same_flags_trans. }
  change (I (processProperty this c prop s).2). unfold processProperty.
  apply bind_invariant; [by split|]. cbn. intros cs [= <-].
  apply bind_invariant.
  { destruct (get _ _); mrun; by split. }
  intros _ _. set (s1 := (_ s).2).
  assert (H1 : I s1).
  { subst s1. destruct (get _ _); mrun; by split. }
  clearbody s1. apply bind_invariant.
  - destruct (onCreate prop) as [rule|]; [|done].
    destruct (cs_type _); try done. mrun.
    destruct (primary prop); mrun; [|by apply Hwrite].
    by apply Hkey, Hwrite.
  - intros _ _. set (s2 := (_ s1).2).
    assert (H2 : I s2).
    { subst s2. destruct (onCreate prop) as [rule|]; [|done].
      destruct (cs_type _); try done. mrun.
      destruct (primary prop); mrun; [|by apply Hwrite].
      by apply Hkey, Hwrite. }
    clearbody s2. destruct (onUpdate prop) as [rule|]; [|done].
    destruct (cs_type _); try done. mrun. by apply Hwrite.
Qed.

Lemma processProperties_in_memory this c s :
  calls (processProperties this c s).2 = calls s /\
  same_flags s (processProperties this c s).2.
Proof.
  unfold processProperties. mrun.
  destruct (metadata this _) as [meta|]; mrun; [|by split].
  apply (forEach_invariant (fun t => calls t = calls s /\ same_flags s t)); [by split|].
  intros prop s1 _ [Hcalls Hflags].
  destruct (processProperty_in_memory this c prop s1) as [Hc Hf].
  split; [congruence|]. by eapply same_flags_trans.
Qed.

Lemma resolution_in_memory this css s :
  calls (forEach (processProperties this) css s).2 = calls s /\
  same_flags s (forEach (processProperties this) css s).2.
Proof.
  apply (forEach_invariant (fun t => calls t = calls s /\ same_flags s t)); [by split|].
  intros c s1 _ [Hcalls Hflags].
  destruct (processProperties_in_memory this c s1) as [Hc Hf].
  split; [congruence|]. by eapply same_flags_trans.
Qed.

(** A loop stops at the first round that throws. *)
Lemma forEach_reaches {A} (I : State -> Prop) (f : A -> M unit) xs x :
  x ∈ xs ->
  (forall y s1, I s1 -> I (f y s1).2) ->
  (forall s1, I s1 -> exists e, (f x s1).1 = inl e) ->
  forall s, I s -> exists e, (forEach f xs s).1 = inl e.
Proof.
  intros Hx Hinv Hfail. induction xs as [|y ys IH]; intros s Hs.
  { by apply elem_of_nil in Hx. }
  cbn. unfold bind. pose proof (Hinv y s Hs) as H1.
  destruct (f y s) as [[e|[]] s1] eqn:Ey; cbn in *; [by exists e|].
  apply elem_of_cons in Hx as [-> | Hx]; [|by apply IH].
  destruct (Hfail s Hs) as [e He]. rewrite Ey in He. done.
Qed.

Lemma resolution_unknown_type this css c s :
  c ∈ css ->
  metadata this (cs_name (changeSets s c)) = None ->
  (forEach (processProperties this) css s).1 = inl TypeError.
Proof.
  intros Hc Hmeta.
  destruct (forEach_reaches (same_identity s) (processProperties this) css c Hc)
    with (s := s) as [e He].
  - intros y s1 H1. eapply same_identity_trans; [exact H1|].
    apply (processProperties_frame this y s1).
  - intros s1 [Hcs _]. exists TypeError. unfold processProperties. mrun.
    destruct (Hcs c) as (-> & _). by rewrite Hmeta.
  - apply same_identity_refl.
  - rewrite He. f_equal.
    apply (forEach_throws (fun _ => True) (fun e => e = TypeError)
             (processProperties this) css s e); [done.. | | done].
    intros y s1 e' _ _. apply processProperties_throws.
Qed.

(** ** Batches that do not reach the driver *)

(** An empty batch of inserts or of updates is a no-op: the call returns,
    nothing is sent to the driver and nothing changes (deleting an empty
    batch, in contrast, throws). *)
Example executeInserts_executeUpdates_empty_batch :
  forall this ctx s,
    executeInserts this [] ctx s = (inr tt, s) /\
    executeUpdates this [] ctx s = (inr tt, s).
Proof. by split. Qed.

(** X1: when the metadata storage knows no type under the name of one of the
    change sets of a batch, [executeInserts] and [executeUpdates] throw a
    TypeError out of property resolution, which runs over the whole batch
    before the first write: the driver is not called, not even for the
    change sets that precede the unknown one, and no persisted flag
    changes. *)
Theorem unknown_type_fails_before_any_call :
  forall this css c ctx s,
    let failed (out : (Exception + unit) * State) :=
      out.1 = inl TypeError /\
      calls out.2 = calls s /\
      forall c', persisted (changeSets out.2 c') = persisted (changeSets s c') in
    c ∈ css ->
    metadata this (cs_name (changeSets s c)) = None ->
    failed (executeInserts this css ctx s) /\ failed (executeUpdates this css ctx s).
Proof.
  intros this css c ctx s failed Hc Hmeta.
  pose proof (resolution_unknown_type this css c s Hc Hmeta) as Hfail.
  destruct (resolution_in_memory this css s) as [Hcalls _].
  pose proof (resolution_persisted this css s) as Hpers.
  subst failed. unfold executeInserts, executeUpdates, bind.
  destruct (forEach (processProperties this) css s) as [[e|[]] s1]; cbn in *; [|done].
  injection Hfail as ->. done.
Qed.

(** Two [User] change sets handed to a persister whose metadata storage
    only knows [Article]. *)
Lemma unknown_type_fails_before_any_call_witness :
  let s := Sample.world Sample.User CREATE ∅ ∅ ∅ ∅ in
  let this := Sample.persister (Sample.constDriver (Sample.result 1 (VNum 42) None) None)
                Sample.Article in
  ((executeInserts this [0; 1]%nat None s).1 = inl TypeError /\
   calls (executeInserts this [0; 1]%nat None s).2 = [] /\
   forall c', persisted (changeSets (executeInserts this [0; 1]%nat None s).2 c')
              = persisted (changeSets s c')) /\
  ((executeUpdates this [0; 1]%nat None s).1 = inl TypeError /\
   calls (executeUpdates this [0; 1]%nat None s).2 = [] /\
   forall c', persisted (changeSets (executeUpdates this [0; 1]%nat None s).2 c')
              = persisted (changeSets s c')).
Proof.
  intros s this.
  apply (unknown_type_fails_before_any_call this [0; 1]%nat 1%nat None s).
  - right. left.
  - reflexivity.
Defined.

(** ** The errors of a batch *)

(** X2: inserting never fails on the optimistic lock: whatever the driver
    reports as affected rows, a batch of CREATE change sets does not throw
    an OptimisticLockError. *)
Theorem executeInserts_never_lock_error :
  forall this css ctx s a,
    (forall c, c ∈ css -> cs_type (changeSets s c) = CREATE) ->
    (executeInserts this css ctx s).1 <> inl (OptimisticLockError a).
Proof.
  intros this css ctx s a Hty Hthrow.
  assert (Hres : forall e, (forEach (processProperties this) css s).1 = inl e ->
                           e = TypeError).
  { intros e. apply (forEach_throws (fun _ => True) (fun e => e = TypeError)); [done..|].
    intros y s1 e' _ _. apply processProperties_throws. }
  pose proof (resolution_identity this css s) as Hid.
  revert Hthrow. unfold executeInserts, bind.
  destruct (forEach (processProperties this) css s) as [[e|[]] s1]; cbn in *.
  { intros [= ->]. by specialize (Hres _ eq_refl). }
  intros Hthrow.
  apply (forEach_throws (same_identity s) (fun e => e <> OptimisticLockError a)
           (fun c => persistNewEntity this c ctx) css s1 (OptimisticLockError a));
    [exact Hid | | | exact Hthrow | reflexivity].
  - intros c t _ Ht. eapply same_identity_trans; [exact Ht|].
    apply (persistNewEntity_frame this c ctx t).
  - intros c t e Hc [Hcs _] He ->.
    apply persistNewEntity_throws_lock in He.
    destruct (Hcs c) as (_ & Hsame & _). rewrite Hsame, (Hty c Hc) in He. done.
Qed.

(** Two [User]s are inserted and the driver reports no affected row: the
    call does not fail on the lock. *)
Lemma executeInserts_never_lock_error_witness :
  let s := Sample.world Sample.User CREATE ∅ ∅ ∅ ∅ in
  let this := Sample.persister
                (Sample.constDriver (Sample.result 0 (VNum 42) None)
                   (Some {[ "version"%string := VNum 1 ]}))
                Sample.User in
  (executeInserts this [0; 1]%nat None s).1 = inr tt /\
  (executeInserts this [0; 1]%nat None s).1 <> inl (OptimisticLockError 0).
Proof.
  intros s this. split; [reflexivity|].
  apply (executeInserts_never_lock_error this [0; 1]%nat None s 0%nat).
  intros c Hc. apply elem_of_cons in Hc as [-> | Hc]; [reflexivity|].
  apply list_elem_of_singleton in Hc as ->. reflexivity.
Defined.

(** ** Batches that return *)

Lemma forEach_returns {A} (I : State -> Prop) (f : A -> M unit) xs :
  forall s,
    I s ->
    (forall x s1, x ∈ xs -> I s1 -> I (f x s1).2 /\ (f x s1).1 = inr tt) ->
    (forEach f xs s).1 = inr tt.
Proof.
  induction xs as [|x xs IH]; intros s Hs Hstep; [done|].
  cbn. unfold bind. destruct (Hstep x s ltac:(by left) Hs) as [H1 Hok].
  destruct (f x s) as [[e|[]] s1]; cbn in *; [done|].
  apply IH; [done|]. intros y t Hy. apply Hstep. by right.
Qed.

Lemma mapPrimaryKey_returns this meta v c s :
  let wrapped := entities s (entity (changeSets s c)) in
  is_Some (meta_prop meta (first_key (primaryKeys meta))) ->
  is_Some (identifierMap this !! __uuid wrapped) ->
  (mapPrimaryKey this (Some meta) v c s).1 = inr tt.
Proof.
  intros wrapped [prop Hprop] [cell Hcell].
  by rewrite (mapPrimaryKey_run this meta prop cell).
Qed.

Lemma markAsPopulated_returns c meta s : (markAsPopulated c (Some meta) s).1 = inr tt.
Proof.
  unfold markAsPopulated. mrun.
  apply (forEach_returns (fun _ => True)); [done|].
  intros prop t _ _. split; [done|]. mrun. by destruct (get _ _).
Qed.

(** Resolving a property returns when the key of the entity can be
    assigned: its type has the key property and its uuid an identifier. *)
Lemma processProperty_returns this c prop s :
  let e := entities s (entity (changeSets s c)) in
  is_Some (meta_prop (__meta e) (first_key (primaryKeys (__meta e)))) ->
  is_Some (identifierMap this !! __uuid e) ->
  (processProperty this c prop s).1 = inr tt.
Proof.
  intros e Hprop Hcell. unfold processProperty. mrun. fold e.
  match goal with
  | |- context [let (_, _) := ?m in _] => destruct m as [[e1|[]] s1] eqn:E1
  end.
  { destruct (get _ _); mrun_in E1; congruence. }
  assert (H1 : entities s1 = entities s /\
               entity (changeSets s1 c) = entity (changeSets s c)).
  { destruct (get _ _); mrun_in E1; injection E1 as <-; split; try done.
    cbn. by rewrite fn_lookup_insert. }
  clear E1. destruct H1 as [H1 Hent1].
  match goal with
  | |- context [let (_, _) := ?m in _] => destruct m as [[e2|[]] s2] eqn:E2
  end.
  { exfalso. revert E2. destruct (onCreate prop) as [rule|]; [|done].
    destruct (cs_type _); try done. mrun.
    destruct (primary prop); mrun; [|done]. rewrite !H1. fold e.
    match goal with
    | |- mapPrimaryKey ?t (Some ?m) ?v ?c ?s0 = _ -> _ =>
        assert (Hok : (mapPrimaryKey t (Some m) v c s0).1 = inr tt)
    end.
    { apply mapPrimaryKey_returns;
        repeat (progress (cbn; rewrite ?H1, ?Hent1, ?fn_lookup_insert)); assumption. }
    intros E2. by rewrite E2 in Hok. }
  destruct (onUpdate prop) as [rule|]; [|done]. by destruct (cs_type _).
Qed.

Lemma processProperties_returns this meta c s :
  let e := entities s (entity (changeSets s c)) in
  metadata this (cs_name (changeSets s c)) = Some meta ->
  is_Some (meta_prop (__meta e) (first_key (primaryKeys (__meta e)))) ->
  is_Some (identifierMap this !! __uuid e) ->
  (processProperties this c s).1 = inr tt.
Proof.
  intros e Hmeta Hprop Hcell. unfold processProperties. mrun. rewrite Hmeta. mrun.
  apply (forEach_returns (same_identity s)); [apply same_identity_refl|].
  intros prop t _ Ht. split.
  - eapply same_identity_trans; [exact Ht|].
    apply (processProperty_effect this false c (entity (changeSets t c))
             (fun _ => True) (fun _ => True)); done.
  - destruct Ht as [Hcs Hes]. destruct (Hcs c) as (_ & _ & Hent).
    destruct (Hes (entity (changeSets s c))) as [Hm Hu].
    apply processProperty_returns; rewrite Hent, ?Hm, ?Hu; done.
Qed.

Lemma processOptimisticLock_returns this meta c res ctx s :
  let cs := changeSets s c in
  (cs_type cs = UPDATE -> exists r, res = Some r /\ truthy (affectedRows r) = true) \/
  versionProperty meta = None \/ cs_type cs = CREATE ->
  (forall vp, versionProperty meta = Some vp ->
     forall h n pk fields ctx', exists found,
       findOne (driver this) h n pk fields ctx' = inr (Some found)) ->
  (processOptimisticLock this (Some meta) c res ctx s).1 = inr tt.
Proof.
  intros cs Hrows Hfind. subst cs. unfold processOptimisticLock. mrun.
  destruct (versionProperty meta) as [vp|] eqn:Hvp; mrun; [|done].
  destruct (cs_type (changeSets s c)) eqn:Hty; mrun.
  2: { destruct Hrows as [Hrows | [Hrows | Hrows]]; try done.
       destruct (Hrows eq_refl) as (r & -> & ->). cbn.
       match goal with
       | |- context [findOne ?d ?h ?n ?pk ?f ?x] =>
           destruct (Hfind vp eq_refl h n pk f x) as [found ->]
       end.
       done. }
  all: match goal with
       | |- context [findOne ?d ?h ?n ?pk ?f ?x] =>
           destruct (Hfind vp eq_refl h n pk f x) as [found ->]
       end; done.
Qed.

Lemma persistNewEntity_returns this meta c ctx s :
  let cs := changeSets s c in
  let e := entities s (entity cs) in
  metadata this (cs_name cs) = Some meta ->
  cs_type cs = CREATE ->
  is_Some (meta_prop meta (first_key (primaryKeys meta))) ->
  is_Some (identifierMap this !! __uuid e) ->
  (forall h n p ctx', exists r, nativeInsert (driver this) h n p ctx' = inr r) ->
  (forall vp, versionProperty meta = Some vp ->
     forall h n pk fields ctx', exists found,
       findOne (driver this) h n pk fields ctx' = inr (Some found)) ->
  (persistNewEntity this c ctx s).1 = inr tt.
Proof.
  intros cs e Hmeta Hty Hprop Hcell Hinsert Hfind. subst e cs.
  unfold persistNewEntity. mrun. rewrite Hmeta.
  match goal with
  | |- context [nativeInsert ?d ?h ?n ?p ?x] => destruct (Hinsert h n p x) as [res ->]
  end.
  mrun. set (a := entity (changeSets s c)) in *. set (s1 := log _ s).
  assert (H2 : effect true c a (fun _ => True) (fun _ => True) s
                 (mapReturnedValues this a res (Some meta) s1).2).
  { eapply effect_trans; [apply effect_log|]. by apply mapReturnedValues_effect. }
  pose proof (mapReturnedValues_changeSets this a res (Some meta) s1) as C2.
  destruct (mapReturnedValues this a res (Some meta) s1) as [[err|[]] s2] eqn:E2.
  { by rewrite mapReturnedValues_run in E2. }
  cbn [snd] in *. change (changeSets s1) with (changeSets s) in C2.
  match goal with
  | |- context [let (_, _) := ?m in _] => destruct m as [r3 s3] eqn:E3
  end.
  assert (H3 : r3 = inr tt /\ changeSets s3 = changeSets s).
  { destruct (isDefined _ _); [by injection E3 as <- <-|].
    pose proof (mapPrimaryKey_returns this meta (insertId res) c s2 Hprop) as Hok.
    pose proof (mapPrimaryKey_changeSets this (Some meta) (insertId res) c s2) as Hcs.
    rewrite E3 in Hok, Hcs. cbn in Hok, Hcs. split; [|congruence]. apply Hok.
    rewrite C2. fold a. by rewrite (effect_uuid _ _ _ _ _ _ _ _ H2). }
  destruct H3 as [-> C3]. clear E3.
  pose proof (markAsPopulated_returns c meta s3) as Hok4.
  pose proof (markAsPopulated_changeSets c (Some meta) s3) as C4.
  destruct (markAsPopulated c (Some meta) s3) as [[err|[]] s4]; cbn in *; [done|].
  set (s5 := upd_entity _ _ s4).
  pose proof (processOptimisticLock_returns this meta c (Some res) ctx s5) as Hok6.
  cbn zeta in Hok6. change (changeSets s5) with (changeSets s4) in Hok6.
  rewrite C4, C3 in Hok6. specialize (Hok6 ltac:(auto) Hfind).
  by destruct (processOptimisticLock this (Some meta) c (Some res) ctx s5) as [[err|[]] s6].
Qed.

Lemma persistManagedEntity_returns this meta c ctx s :
  metadata this (cs_name (changeSets s c)) = Some meta ->
  (forall h n cond p ctx', exists r,
     nativeUpdate (driver this) h n cond p ctx' = inr r /\
     (is_Some (versionProperty meta) -> truthy (affectedRows r) = true)) ->
  (forall vp, versionProperty meta = Some vp ->
     forall h n pk fields ctx', exists found,
       findOne (driver this) h n pk fields ctx' = inr (Some found)) ->
  (persistManagedEntity this c ctx s).1 = inr tt.
Proof.
  intros Hmeta Hupdate Hfind. unfold persistManagedEntity, updateEntity. mrun.
  rewrite Hmeta. mrun.
  match goal with
  | |- context [nativeUpdate ?d ?h ?n ?cond ?p ?x] =>
      destruct (Hupdate h n cond p x) as (res & -> & Hrows)
  end.
  mrun. rewrite mapReturnedValues_run. cbn.
  match goal with
  | |- context [processOptimisticLock ?t ?m ?c' ?r ?x ?s0] =>
      pose proof (processOptimisticLock_returns t meta c' r x s0) as Hok;
      destruct (processOptimisticLock t m c' r x s0) as [[err|[]] s3]
  end; [|done].
  cbn in Hok. exfalso. enough (inl err = inr tt :> Exception + unit) by done.
  apply Hok; [|done].
  destruct (versionProperty meta) as [vp|] eqn:Hvp; [|auto].
  left. intros _. exists res. split; [done|]. by apply Hrows.
Qed.

(** X3: an UPDATE batch of one known type returns, with every change set
    persisted, whenever the driver answers every update and, for a
    versioned type, every update reports affected rows and every lookup of
    the version finds a row.  For a type without a version property the
    affected-row count plays no part: an update that affects no row is
    accepted. *)
Theorem executeUpdates_returns :
  forall this meta css ctx s,
    let out := executeUpdates this css ctx s in
    (forall c, c ∈ css ->
       metadata this (cs_name (changeSets s c)) = Some meta /\
       cs_type (changeSets s c) = UPDATE) ->
    (forall h n cond p ctx', exists r,
       nativeUpdate (driver this) h n cond p ctx' = inr r /\
       (is_Some (versionProperty meta) -> truthy (affectedRows r) = true)) ->
    (forall vp, versionProperty meta = Some vp ->
       forall h n pk fields ctx', exists found,
         findOne (driver this) h n pk fields ctx' = inr (Some found)) ->
    out.1 = inr tt /\ forall c, c ∈ css -> persisted (changeSets out.2 c) = true.
Proof.
  intros this meta css ctx s out Hbatch Hupdate Hfind.
  assert (Hlater : forall t c, same_identity s t -> c ∈ css ->
            metadata this (cs_name (changeSets t c)) = Some meta /\
            cs_type (changeSets t c) = UPDATE).
  { intros t c [Hcs _] Hc. destruct (Hcs c) as (-> & -> & _). by apply Hbatch. }
  assert (Hres : (forEach (processProperties this) css s).1 = inr tt).
  { apply (forEach_returns (same_identity s)); [apply same_identity_refl|].
    intros c t Hc Ht. destruct (Hlater t c Ht Hc) as [Hm Hty]. split.
    - eapply same_identity_trans; [exact Ht|]. apply (processProperties_frame this c t).
    - unfold processProperties. mrun. rewrite Hm. mrun.
      apply (forEach_returns (fun t' => cs_type (changeSets t' c) = UPDATE)); [done|].
      intros prop t1 _ H1. split.
      + rewrite <- H1.
        apply (processProperty_effect this false c (entity (changeSets t1 c))
                 (fun _ => True) (fun _ => True)); [done | | done].
        intros Hcreate. congruence.
      + unfold processProperty. mrun. rewrite H1.
        destruct (get _ _); mrun; destruct (onCreate prop), (onUpdate prop); reflexivity. }
  pose proof (resolution_identity this css s) as Hid.
  subst out. unfold executeUpdates, bind.
  destruct (forEach (processProperties this) css s) as [[e|[]] s1]; cbn in *; [done|].
  assert (Hloop : (forEach (fun c => persistManagedEntity this c ctx) css s1).1 = inr tt).
  { apply (forEach_returns (same_identity s)); [exact Hid|].
    intros c t Hc Ht. destruct (Hlater t c Ht Hc) as [Hm Hty]. split.
    - eapply same_identity_trans; [exact Ht|]. apply (persistManagedEntity_frame this c ctx t).
    - by eapply persistManagedEntity_returns. }
  destruct (forEach (fun c => persistManagedEntity this c ctx) css s1) as [[e|[]] s2] eqn:E;
    cbn in *; [done|].
  split; [done|].
  apply (persist_loop_done (fun c => persistManagedEntity this c ctx) css s1 s2);
    [ | | exact E].
  - intros c t. apply persistManagedEntity_frame.
  - intros c t t'. apply persistManagedEntity_persisted.
Qed.

(** Two [Article]s are updated and the driver reports that no row was
    affected: the call returns and both change sets are persisted. *)
Lemma executeUpdates_returns_witness :
  let s := Sample.world Sample.Article UPDATE {[ "id"%string := VNum 1 ]}
             {[ "id"%string := VNum 2 ]} ∅ ∅ in
  let this := Sample.persister (Sample.constDriver (Sample.result 0 VUndefined None) None)
                Sample.Article in
  let out := executeUpdates this [0; 1]%nat None s in
  out.1 = inr tt /\ forall c, c ∈ [0; 1]%nat -> persisted (changeSets out.2 c) = true.
Proof.
  intros s this out.
  apply (executeUpdates_returns this Sample.Article [0; 1]%nat None s).
  - intros c Hc. apply elem_of_cons in Hc as [-> | Hc]; [by split|].
    apply list_elem_of_singleton in Hc as ->. by split.
  - intros h n cond d ctx'. exists (Sample.result 0 VUndefined None).
    split; [reflexivity|]. intros [vp Hvp]. discriminate Hvp.
  - intros vp Hvp. discriminate Hvp.
Defined.

(** X4: a CREATE batch of one known type returns whenever the type has
    its key property, every entity of the batch has an identifier under its
    uuid, the driver answers every insert and, for a versioned type, every
    lookup of the version finds a row. *)
Theorem executeInserts_returns :
  forall this meta css ctx s,
    batch_of this meta css s ->
    (forall c, c ∈ css ->
       cs_type (changeSets s c) = CREATE /\
       is_Some (identifierMap this !! __uuid (entities s (entity (changeSets s c))))) ->
    is_Some (meta_prop meta (first_key (primaryKeys meta))) ->
    (forall h n p ctx', exists r, nativeInsert (driver this) h n p ctx' = inr r) ->
    (forall vp, versionProperty meta = Some vp ->
       forall h n pk fields ctx', exists found,
         findOne (driver this) h n pk fields ctx' = inr (Some found)) ->
    (executeInserts this css ctx s).1 = inr tt.
Proof.
  intros this meta css ctx s Hbatch Hcss Hprop Hinsert Hfind.
  assert (Hlater : forall t c, same_identity s t -> c ∈ css ->
            let e := entities t (entity (changeSets t c)) in
            metadata this (cs_name (changeSets t c)) = Some meta /\
            cs_type (changeSets t c) = CREATE /\
            __meta e = meta /\
            is_Some (identifierMap this !! __uuid e)).
  { intros t c [Hcs Hes] Hc e. subst e. destruct (Hcs c) as (-> & -> & ->).
    destruct (Hes (entity (changeSets s c))) as [-> ->].
    destruct (Hbatch c Hc) as [Hm He]. destruct (Hcss c Hc) as [Hty Hcell]. done. }
  assert (Hres : (forEach (processProperties this) css s).1 = inr tt).
  { apply (forEach_returns (same_identity s)); [apply same_identity_refl|].
    intros c t Hc Ht. destruct (Hlater t c Ht Hc) as (Hm & Hty & He & Hcell). split.
    - eapply same_identity_trans; [exact Ht|]. apply (processProperties_frame this c t).
    - apply (processProperties_returns this meta); [done | by rewrite He | done]. }
  pose proof (resolution_identity this css s) as Hid.
  unfold executeInserts, bind.
  destruct (forEach (processProperties this) css s) as [[e|[]] s1]; cbn in *; [done|].
  apply (forEach_returns (same_identity s)); [exact Hid|].
  intros c t Hc Ht. destruct (Hlater t c Ht Hc) as (Hm & Hty & He & Hcell). split.
  - eapply same_identity_trans; [exact Ht|]. apply (persistNewEntity_frame this c ctx t).
  - by apply (persistNewEntity_returns this meta).
Qed.

(** Two [User]s, one of them without id, are inserted by a driver that
    answers every insert and finds every version. *)
Lemma executeInserts_returns_witness :
  let s := Sample.world Sample.User CREATE ∅ {[ "id"%string := VNum 7 ]} ∅ ∅ in
  let this := Sample.persister
                (Sample.constDriver (Sample.result 1 (VNum 42) None)
                   (Some {[ "version"%string := VNum 1 ]}))
                Sample.User in
  (executeInserts this [0; 1]%nat None s).1 = inr tt.
Proof.
  intros s this.
  apply (executeInserts_returns this Sample.User [0; 1]%nat None s).
  - intros c Hc. apply elem_of_cons in Hc as [-> | Hc]; [by split|].
    apply list_elem_of_singleton in Hc as ->. by split.
  - intros c Hc. apply elem_of_cons in Hc as [-> | Hc]; [split; [reflexivity | by eexists]|].
    apply list_elem_of_singleton in Hc as ->. split; [reflexivity | by eexists].
  - by eexists.
  - intros h n p ctx'. by eexists.
  - intros vp _ h n pk fields ctx'. by eexists.
Defined.

(** ** The calls of a batch *)

Lemma mapReturnedValues_calls this a res meta s :
  calls (mapReturnedValues this a res meta s).2 = calls s.
Proof.
  unfold mapReturnedValues. destruct (row res) as [r|]; [|done].
  destruct (0 <? size r)%nat; [|done]. by destruct meta.
Qed.

Lemma markAsPopulated_calls c meta s :
  calls (markAsPopulated c meta s).2 = calls s.
Proof.
  unfold markAsPopulated. mrun. destruct meta as [meta|]; mrun; [|done].
  apply (forEach_invariant (fun s' => calls s' = calls s)); [done|].
  intros prop s1 _ <-. mrun. by destruct (get _ _).
Qed.

(** The lookup of the version is made on the key the entity has in the
    end. *)
Lemma processOptimisticLock_calls this meta c res ctx s s' :
  let a := entity (changeSets s c) in
  processOptimisticLock this (Some meta) c res ctx s = (inr tt, s') ->
  __meta (entities s' a) = meta ->
  (forall vp, versionProperty meta = Some vp -> vp ∉ keyNames meta) ->
  calls s' = calls s ++ versionLookup meta ctx (get__primaryKey (entities s' a)).
Proof.
  intros a Hrun Hmeta Hvers. unfold versionLookup.
  destruct (versionProperty meta) as [vp|] eqn:Hvp.
  - destruct (processOptimisticLock_success this meta vp c res ctx s s' Hrun Hvp)
      as (found & _ & ->).
    fold a in Hmeta |- *. cbn in Hmeta |- *. rewrite fn_lookup_insert in Hmeta |- *.
    cbn in Hmeta. do 3 f_equal. symmetry. apply get__primaryKey_ext; [done|].
    intros k Hk. cbn. apply lookup_insert_ne. intros <-. apply (Hvers vp eq_refl).
    by rewrite <- Hmeta.
  - revert Hrun. unfold processOptimisticLock. mrun. rewrite Hvp. mrun.
    intros [= <-]. by rewrite app_nil_r.
Qed.

Lemma persistNewEntity_calls this meta c ctx s s' :
  let cs := changeSets s c in
  let a := entity cs in
  persistNewEntity this c ctx s = (inr tt, s') ->
  metadata this (cs_name cs) = Some meta ->
  __meta (entities s a) = meta ->
  (forall vp, versionProperty meta = Some vp -> vp ∉ keyNames meta) ->
  calls s' = calls s ++ NativeInsert (cs_name cs) (payload cs) ctx
                          :: versionLookup meta ctx (get__primaryKey (entities s' a)).
Proof.
  intros cs a Hrun Hmeta Hemeta Hvers.
  assert (Hmeta' : __meta (entities s' a) = meta).
  { pose proof (persistNewEntity_frame this c ctx s) as Heff. rewrite Hrun in Heff.
    by rewrite (effect_meta _ _ _ _ _ _ _ _ Heff). }
  revert Hrun. unfold persistNewEntity. mrun. fold cs a. rewrite Hmeta.
  destruct (nativeInsert _ _ _ _ _) as [e|res]; mrun; [done|].
  set (call := NativeInsert _ _ _). set (s1 := log call s).
  assert (H1 : calls s1 = calls s ++ [call] /\ changeSets s1 = changeSets s) by done.
  clearbody s1.
  pose proof (mapReturnedValues_calls this a res (Some meta) s1) as H2.
  pose proof (mapReturnedValues_changeSets this a res (Some meta) s1) as C2.
  destruct (mapReturnedValues this a res (Some meta) s1) as [[e|[]] s2];
    cbn in *; [done|].
  match goal with
  | |- (let (_, _) := ?m in _) = _ -> _ => destruct m as [r3 s3] eqn:E3
  end.
  assert (H3 : calls s3 = calls s2 /\ changeSets s3 = changeSets s2).
  { destruct (isDefined _ _); [by injection E3 as _ <-|].
    destruct (mapPrimaryKey_in_memory this (Some meta) (insertId res) c s2) as [Hc _].
    pose proof (mapPrimaryKey_changeSets this (Some meta) (insertId res) c s2) as Hcs.
    by rewrite E3 in Hc, Hcs. }
  clear E3. destruct r3 as [e|[]]; [done|].
  pose proof (markAsPopulated_calls c (Some meta) s3) as H4.
  pose proof (markAsPopulated_changeSets c (Some meta) s3) as C4.
  destruct (markAsPopulated c (Some meta) s3) as [[e|[]] s4]; cbn in *; [done|].
  set (s5 := upd_entity _ _ s4).
  assert (H5 : calls s5 = calls s4 /\ changeSets s5 = changeSets s4) by done. clearbody s5.
  destruct (processOptimisticLock this (Some meta) c (Some res) ctx s5)
    as [[e|[]] s6] eqn:E6; [done|].
  intros [= <-]. cbn in Hmeta' |- *.
  destruct H1 as [H1 K1], H3 as [H3 K3], H5 as [H5 K5].
  assert (Ha5 : entity (changeSets s5 c) = a) by (by rewrite K5, C4, K3, C2, K1).
  rewrite (processOptimisticLock_calls this meta c (Some res) ctx s5 s6 E6);
    rewrite ?Ha5; [|done..].
  rewrite H5, H4, H3, H2, H1. by rewrite <- app_assoc.
Qed.

Lemma persistManagedEntity_calls this meta c ctx s s' :
  let cs := changeSets s c in
  let a := entity cs in
  persistManagedEntity this c ctx s = (inr tt, s') ->
  metadata this (cs_name cs) = Some meta ->
  __meta (entities s a) = meta ->
  (forall vp, versionProperty meta = Some vp -> vp ∉ keyNames meta) ->
  calls s' = calls s ++ NativeUpdate (cs_name cs) (updateCond meta (entities s a))
                          (payload cs) ctx
                          :: versionLookup meta ctx (get__primaryKey (entities s' a)).
Proof.
  intros cs a Hrun Hmeta Hemeta Hvers.
  assert (Hmeta' : __meta (entities s' a) = meta).
  { pose proof (persistManagedEntity_frame this c ctx s) as Heff. rewrite Hrun in Heff.
    by rewrite (effect_meta _ _ _ _ _ _ _ _ Heff). }
  revert Hrun. unfold persistManagedEntity, updateEntity. mrun. fold cs a.
  rewrite Hmeta. mrun.
  destruct (nativeUpdate _ _ _ _ _ _) as [e|res]; mrun; [done|].
  set (call := NativeUpdate _ _ _ _). set (s1 := log call s).
  assert (H1 : calls s1 = calls s ++ [call] /\ changeSets s1 = changeSets s) by done.
  clearbody s1.
  pose proof (mapReturnedValues_calls this a res (Some meta) s1) as H2.
  pose proof (mapReturnedValues_changeSets this a res (Some meta) s1) as C2.
  destruct (mapReturnedValues this a res (Some meta) s1) as [[e|[]] s2];
    cbn in *; [done|].
  destruct (processOptimisticLock this (Some meta) c (Some res) ctx s2)
    as [[e|[]] s3] eqn:E3; [done|].
  intros [= <-]. cbn in Hmeta' |- *.
  destruct H1 as [H1 K1].
  assert (Ha2 : entity (changeSets s2 c) = a) by (by rewrite C2, K1).
  rewrite (processOptimisticLock_calls this meta c (Some res) ctx s2 s3 E3);
    rewrite ?Ha2; [|done..].
  rewrite H2, H1. by rewrite <- app_assoc.
Qed.

Lemma updateCond_ext meta e e' :
  __meta e' = __meta e -> data e' = data e -> updateCond meta e' = updateCond meta e.
Proof.
  intros Hm Hd. unfold updateCond. rewrite Hd.
  rewrite (get__primaryKey_ext e e'); [done..|]. intros k _. by rewrite Hd.
Qed.

Section BatchCalls.

Variables (this : ChangeSetPersister) (meta : EntityMetadata) (ctx : option Transaction).

(** The persisting step of a loop and the write it sends. *)
Variable f : nat -> M unit.
Variable write : nat -> State -> DriverCall.

Hypothesis f_frame :
  forall c t, effect true c (entity (changeSets t c)) (fun _ => True) (fun _ => True) t
                (f c t).2.
Hypothesis f_changeSets :
  forall c t, changeSets (f c t).2 = changeSets t \/
              changeSets (f c t).2 = <[c := set_persisted true (changeSets t c)]> (changeSets t).
Hypothesis f_calls :
  forall c t t',
    f c t = (inr tt, t') ->
    metadata this (cs_name (changeSets t c)) = Some meta ->
    __meta (entities t (entity (changeSets t c))) = meta ->
    calls t' = calls t ++ write c t
                 :: versionLookup meta ctx
                      (get__primaryKey (entities t' (entity (changeSets t c)))).
Hypothesis write_ext :
  forall c t t',
    cs_name (changeSets t' c) = cs_name (changeSets t c) ->
    payload (changeSets t' c) = payload (changeSets t c) ->
    entity (changeSets t' c) = entity (changeSets t c) ->
    __meta (entities t' (entity (changeSets t c))) = __meta (entities t (entity (changeSets t c))) ->
    data (entities t' (entity (changeSets t c))) = data (entities t (entity (changeSets t c))) ->
    write c t' = write c t.

Variable s1 : State.

Lemma persist_loop_calls : forall css t out,
  same_identity s1 t ->
  (forall c, payload (changeSets t c) = payload (changeSets s1 c)) ->
  (forall c, c ∈ css ->
     data (entities t (entity (changeSets s1 c)))
     = data (entities s1 (entity (changeSets s1 c)))) ->
  batch_of this meta css s1 ->
  NoDup (map (fun c => entity (changeSets s1 c)) css) ->
  forEach f css t = (inr tt, out) ->
  calls out =
    calls t ++
    concat (map (fun c => write c s1
                            :: versionLookup meta ctx
                                 (get__primaryKey (entities out (entity (changeSets s1 c)))))
              css).
Proof.
  induction css as [|c0 cs0 IH]; intros t out Hid Hpay Hdata Hbatch Hnd Hrun.
  { injection Hrun as <-. cbn. by rewrite app_nil_r. }
  cbn in Hnd. apply list.NoDup_cons in Hnd as [Hc0 Hnd].
  cbn in Hrun. unfold bind in Hrun. destruct (f c0 t) as [[e|[]] t1] eqn:Estep; [done|].
  pose proof (f_frame c0 t) as Heff. rewrite Estep in Heff. cbn [snd] in Heff.
  destruct Hid as [Hcs Hes]. destruct (Hcs c0) as (Hname0 & _ & Hent0).
  destruct (Hbatch c0 ltac:(by left)) as [Hm0 He0].
  rewrite Hent0 in Heff.
  set (a0 := entity (changeSets s1 c0)) in *.
  (* the round of the first change set *)
  pose proof (f_calls c0 t t1 Estep) as Hcalls. rewrite Hname0, Hent0 in Hcalls.
  fold a0 in Hcalls. destruct (Hes a0) as [Hma0 _].
  assert (Hmt : __meta (entities t a0) = meta) by (by rewrite Hma0).
  specialize (Hcalls Hm0 Hmt).
  rewrite (write_ext c0 s1 t) in Hcalls;
    [| done | done | done | exact Hma0 | by apply Hdata; left].
  (* the rounds of the others *)
  assert (Hid1 : same_identity s1 t1).
  { eapply same_identity_trans; [split; [exact Hcs | exact Hes] | apply Heff]. }
  assert (Hpay1 : forall c, payload (changeSets t1 c) = payload (changeSets s1 c)).
  { intros c. rewrite <- Hpay. pose proof (f_changeSets c0 t) as Hc. rewrite Estep in Hc.
    cbn [snd] in Hc. destruct Hc as [-> | ->]; [done|].
    destruct (decide (c0 = c)) as [->|Hne];
      [by rewrite fn_lookup_insert | by rewrite fn_lookup_insert_ne]. }
  assert (Hother : forall c, c ∈ cs0 -> entity (changeSets s1 c) <> a0).
  { intros c Hc Heq. apply Hc0. rewrite <- Heq.
    exact (list_elem_of_fmap_2 (fun c => entity (changeSets s1 c)) cs0 c Hc). }
  assert (Hdata1 : forall c, c ∈ cs0 ->
            data (entities t1 (entity (changeSets s1 c)))
            = data (entities s1 (entity (changeSets s1 c)))).
  { intros c Hc. rewrite <- (Hdata c) by (by right).
    by apply (effect_other_entity _ _ _ _ _ _ _ _ Heff), Hother. }
  rewrite (IH t1 out Hid1 Hpay1 Hdata1); [| |done|done].
  2: { intros c Hc. apply Hbatch. by right. }
  (* which leave the entity of the first as it is *)
  assert (Hframe : batch_frame cs0 t1 out).
  { replace out with (forEach f cs0 t1).2 by (by rewrite Hrun).
    apply forEach_invariant; [apply batch_frame_refl|].
    intros c t2 Hc Ht2. eapply batch_frame_step; [exact Ht2 | exact Hc | apply f_frame]. }
  destruct Hframe as ([_ Hes'] & _ & Hdata' & _).
  assert (Hkey : get__primaryKey (entities out a0) = get__primaryKey (entities t1 a0)).
  { apply get__primaryKey_ext; [apply Hes'|]. intros k _.
    destruct (Hdata' a0) as [-> _]; [|done].
    intros Hin. apply list_elem_of_fmap in Hin as (c & Heq & Hc).
    destruct Hid1 as [Hcs1 _]. destruct (Hcs1 c) as (_ & _ & Hent). rewrite Hent in Heq.
    by apply (Hother c Hc). }
  cbn [map concat]. fold a0. rewrite Hcalls, Hkey. by rewrite <- app_assoc.
Qed.

End BatchCalls.

Lemma batch_of_identity this meta css s t :
  same_identity s t -> batch_of this meta css s -> batch_of this meta css t.
Proof.
  intros [Hcs He] Hbatch c Hc. destruct (Hcs c) as (-> & _ & ->).
  destruct (He (entity (changeSets s c))) as [-> _]. by apply Hbatch.
Qed.

(** X5: a batch of inserts on distinct entities of one type (whose
    version property is not a key property) that has returned has sent, for
    each change set in the order of the batch, one [nativeInsert] under the
    change set's name with the payload as property resolution left it,
    followed for a versioned type by one [findOne] on the entity's key
    restricted to the version property; and nothing else. *)
Theorem executeInserts_calls :
  forall this meta css ctx s,
    let s1 := (forEach (processProperties this) css s).2 in
    let out := executeInserts this css ctx s in
    batch_of this meta css s ->
    (forall vp, versionProperty meta = Some vp -> vp ∉ keyNames meta) ->
    NoDup (map (fun c => entity (changeSets s c)) css) ->
    out.1 = inr tt ->
    calls out.2 =
      calls s ++
      concat (map (fun c =>
                NativeInsert (cs_name (changeSets s c)) (payload (changeSets s1 c)) ctx
                  :: versionLookup meta ctx
                       (get__primaryKey (entities out.2 (entity (changeSets s c)))))
                css).
Proof.
  intros this meta css ctx s s1 out Hbatch Hvers Hnd Hok.
  destruct (resolution_in_memory this css s) as [Hcalls _].
  pose proof (resolution_identity this css s) as Hid.
  fold s1 in Hcalls, Hid.
  assert (Hloop : forEach (fun c => persistNewEntity this c ctx) css s1 = (inr tt, out.2)).
  { subst out s1. revert Hok. unfold executeInserts, bind.
    destruct (forEach (processProperties this) css s) as [[e|[]] t1]; [done|]. cbn.
    destruct (forEach _ css t1) as [[e|[]] t2]; done. }
  clearbody out s1. rewrite <- Hcalls.
  assert (Hents : forall c, entity (changeSets s1 c) = entity (changeSets s c)).
  { intros c. by destruct Hid as [Hcs _]; destruct (Hcs c) as (_ & _ & ->). }
  assert (Hnames : forall c, cs_name (changeSets s1 c) = cs_name (changeSets s c)).
  { intros c. by destruct Hid as [Hcs _]; destruct (Hcs c) as (-> & _). }
  set (f := fun c => persistNewEntity this c ctx).
  set (write := fun c t =>
                  NativeInsert (cs_name (changeSets t c)) (payload (changeSets t c)) ctx).
  assert (Hframe : forall c t, effect true c (entity (changeSets t c)) (fun _ => True)
                                 (fun _ => True) t (f c t).2).
  { intros c t. apply persistNewEntity_frame. }
  assert (Hsets : forall c t,
            changeSets (f c t).2 = changeSets t \/
            changeSets (f c t).2
            = <[c := set_persisted true (changeSets t c)]> (changeSets t)).
  { intros c t. subst f. cbn beta. rewrite persistNewEntity_changeSets.
    destruct (persistNewEntity _ _ _ _).1; auto. }
  assert (Hstep : forall c t t',
            f c t = (inr tt, t') ->
            metadata this (cs_name (changeSets t c)) = Some meta ->
            __meta (entities t (entity (changeSets t c))) = meta ->
            calls t' = calls t ++ write c t
                         :: versionLookup meta ctx
                              (get__primaryKey (entities t' (entity (changeSets t c))))).
  { intros c t t' Hrun Hm He. by apply (persistNewEntity_calls this meta c ctx t t'). }
  assert (Hext : forall c t t',
            cs_name (changeSets t' c) = cs_name (changeSets t c) ->
            payload (changeSets t' c) = payload (changeSets t c) ->
            entity (changeSets t' c) = entity (changeSets t c) ->
            __meta (entities t' (entity (changeSets t c)))
            = __meta (entities t (entity (changeSets t c))) ->
            data (entities t' (entity (changeSets t c)))
            = data (entities t (entity (changeSets t c))) ->
            write c t' = write c t).
  { intros c t t' Hn Hp _ _ _. subst write. cbn beta. by rewrite Hn, Hp. }
  rewrite (persist_loop_calls this meta ctx f write Hframe Hsets Hstep Hext s1 css s1 out.2);
    [ | apply same_identity_refl | done | done | by eapply batch_of_identity
      | | exact Hloop].
  - f_equal. f_equal. apply map_ext. intros c. subst write. cbn beta.
    by rewrite Hents, Hnames.
  - erewrite map_ext; [exact Hnd|]. intros c. apply Hents.
Qed.

(** A [User] without id and [User{id:7}] are inserted: the log is insert,
    lookup of the generated key 42, insert, lookup of the key 7. *)
Lemma executeInserts_calls_witness :
  let s := Sample.world Sample.User CREATE ∅ {[ "id"%string := VNum 7 ]} ∅
             {[ "id"%string := VNum 7 ]} in
  let this := Sample.persister
                (Sample.constDriver (Sample.result 1 (VNum 42) None)
                   (Some {[ "version"%string := VNum 1 ]}))
                Sample.User in
  calls (executeInserts this [0; 1]%nat None s).2 =
    [NativeInsert "User" ∅ None;
     FindOne "User" (VNum 42) ["version"%string] None;
     NativeInsert "User" {[ "id"%string := VNum 7 ]} None;
     FindOne "User" (VNum 7) ["version"%string] None].
Proof.
  intros s this.
  rewrite (executeInserts_calls this Sample.User [0; 1]%nat None s).
  - reflexivity.
  - intros c Hc. apply elem_of_cons in Hc as [-> | Hc]; [by split|].
    apply list_elem_of_singleton in Hc as ->. by split.
  - intros vp [= <-] Hin. apply list_elem_of_singleton in Hin. discriminate Hin.
  - apply (bool_decide_unpack _). vm_compute. reflexivity.
  - reflexivity.
Defined.

(** X6: a batch of updates on distinct entities of one type (whose
    version property is not a key property) that has returned has sent, for
    each change set in the order of the batch, one [nativeUpdate] under the
    change set's name, with the predicate computed from the entity and the
    payload as property resolution left them, followed for a versioned type
    by one [findOne] on the entity's key restricted to the version
    property; and nothing else. *)
Theorem executeUpdates_calls :
  forall this meta css ctx s,
    let s1 := (forEach (processProperties this) css s).2 in
    let out := executeUpdates this css ctx s in
    batch_of this meta css s ->
    (forall vp, versionProperty meta = Some vp -> vp ∉ keyNames meta) ->
    NoDup (map (fun c => entity (changeSets s c)) css) ->
    out.1 = inr tt ->
    calls out.2 =
      calls s ++
      concat (map (fun c =>
                NativeUpdate (cs_name (changeSets s c))
                  (updateCond meta (entities s1 (entity (changeSets s c))))
                  (payload (changeSets s1 c)) ctx
                  :: versionLookup meta ctx
                       (get__primaryKey (entities out.2 (entity (changeSets s c)))))
                css).
Proof.
  intros this meta css ctx s s1 out Hbatch Hvers Hnd Hok.
  destruct (resolution_in_memory this css s) as [Hcalls _].
  pose proof (resolution_identity this css s) as Hid.
  fold s1 in Hcalls, Hid.
  assert (Hloop : forEach (fun c => persistManagedEntity this c ctx) css s1
                  = (inr tt, out.2)).
  { subst out s1. revert Hok. unfold executeUpdates, bind.
    destruct (forEach (processProperties this) css s) as [[e|[]] t1]; [done|]. cbn.
    destruct (forEach _ css t1) as [[e|[]] t2]; done. }
  clearbody out s1. rewrite <- Hcalls.
  assert (Hents : forall c, entity (changeSets s1 c) = entity (changeSets s c)).
  { intros c. by destruct Hid as [Hcs _]; destruct (Hcs c) as (_ & _ & ->). }
  assert (Hnames : forall c, cs_name (changeSets s1 c) = cs_name (changeSets s c)).
  { intros c. by destruct Hid as [Hcs _]; destruct (Hcs c) as (-> & _). }
  set (f := fun c => persistManagedEntity this c ctx).
  set (write := fun c t =>
                  NativeUpdate (cs_name (changeSets t c))
                    (updateCond meta (entities t (entity (changeSets t c))))
                    (payload (changeSets t c)) ctx).
  assert (Hframe : forall c t, effect true c (entity (changeSets t c)) (fun _ => True)
                                 (fun _ => True) t (f c t).2).
  { intros c t. apply persistManagedEntity_frame. }
  assert (Hsets : forall c t,
            changeSets (f c t).2 = changeSets t \/
            changeSets (f c t).2
            = <[c := set_persisted true (changeSets t c)]> (changeSets t)).
  { intros c t. subst f. cbn beta. rewrite persistManagedEntity_changeSets.
    destruct (persistManagedEntity _ _ _ _).1; auto. }
  assert (Hstep : forall c t t',
            f c t = (inr tt, t') ->
            metadata this (cs_name (changeSets t c)) = Some meta ->
            __meta (entities t (entity (changeSets t c))) = meta ->
            calls t' = calls t ++ write c t
                         :: versionLookup meta ctx
                              (get__primaryKey (entities t' (entity (changeSets t c))))).
  { intros c t t' Hrun Hm He. by apply (persistManagedEntity_calls this meta c ctx t t'). }
  assert (Hext : forall c t t',
            cs_name (changeSets t' c) = cs_name (changeSets t c) ->
            payload (changeSets t' c) = payload (changeSets t c) ->
            entity (changeSets t' c) = entity (changeSets t c) ->
            __meta (entities t' (entity (changeSets t c)))
            = __meta (entities t (entity (changeSets t c))) ->
            data (entities t' (entity (changeSets t c)))
            = data (entities t (entity (changeSets t c))) ->
            write c t' = write c t).
  { intros c t t' Hn Hp He Hm Hd. subst write. cbn beta.
    by rewrite Hn, Hp, He, (updateCond_ext _ _ _ Hm Hd). }
  rewrite (persist_loop_calls this meta ctx f write Hframe Hsets Hstep Hext s1 css s1 out.2);
    [ | apply same_identity_refl | done | done | by eapply batch_of_identity
      | | exact Hloop].
  - f_equal. f_equal. apply map_ext. intros c. subst write. cbn beta.
    by rewrite Hents, Hnames.
  - erewrite map_ext; [exact Hnd|]. intros c. apply Hents.
Qed.

(** [User{id:42, version:1}] and [User{id:43}] are updated: the first
    update is sent with the version in its predicate, the second with the
    bare key, and each is followed by the lookup of the version. *)
Lemma executeUpdates_calls_witness :
  let s := Sample.world Sample.User UPDATE
             {[ "id"%string := VNum 42; "version"%string := VNum 1 ]}
             {[ "id"%string := VNum 43 ]} ∅ ∅ in
  let this := Sample.persister
                (Sample.constDriver (Sample.result 1 VUndefined None)
                   (Some {[ "version"%string := VNum 2 ]}))
                Sample.User in
  calls (executeUpdates this [0; 1]%nat None s).2 =
    [NativeUpdate "User"
       (updateCond Sample.User
          (Sample.newEntity Sample.User "u0"
             {[ "id"%string := VNum 42; "version"%string := VNum 1 ]})) ∅ None;
     FindOne "User" (VNum 42) ["version"%string] None;
     NativeUpdate "User" (VNum 43) ∅ None;
     FindOne "User" (VNum 43) ["version"%string] None].
Proof.
  intros s this.
  rewrite (executeUpdates_calls this Sample.User [0; 1]%nat None s).
  - reflexivity.
  - intros c Hc. apply elem_of_cons in Hc as [-> | Hc]; [by split|].
    apply list_elem_of_singleton in Hc as ->. by split.
  - intros vp [= <-] Hin. apply list_elem_of_singleton in Hin. discriminate Hin.
  - apply (bool_decide_unpack _). vm_compute. reflexivity.
  - reflexivity.
Defined.

(** ** The update flow *)

Lemma persistManagedEntity_success this meta c ctx s s' before :
  let a := entity (changeSets s c) in
  persistManagedEntity this c ctx s = (inr tt, s') ->
  metadata this (cs_name (changeSets s c)) = Some meta ->
  __meta (entities s a) = meta ->
  (forall vp, versionProperty meta = Some vp -> vp ∉ keyNames meta) ->
  (exists l, calls s = before ++ l) ->
  persisted (changeSets s' c) = true /\
  forall vp, versionProperty meta = Some vp ->
    looked_up this meta vp ctx before (calls s') (get__primaryKey (entities s' a))
      (get (data (entities s' a)) vp).
Proof.
  intros a Hrun Hmeta Hemeta Hvers [l0 Hcalls].
  split; [by eapply persistManagedEntity_persisted|]. intros vp Hvp.
  revert Hrun. unfold persistManagedEntity, updateEntity. mrun. fold a. rewrite Hmeta. mrun.
  destruct (nativeUpdate _ _ _ _ _ _) as [e|res]; mrun; [done|].
  set (call := NativeUpdate _ _ _ _). set (s1 := log call s).
  assert (H1 : effect true c a (fun _ => True) (fun _ => True) s s1) by apply effect_log.
  assert (Hc1 : calls s1 = calls s ++ [call]) by done. clearbody s1.
  pose proof (mapReturnedValues_calls this a res (Some meta) s1) as Hc2.
  assert (H2 : effect true c a (fun _ => True) (fun _ => True) s
                 (mapReturnedValues this a res (Some meta) s1).2).
  { eapply effect_trans; [exact H1|]. by apply mapReturnedValues_effect. }
  destruct (mapReturnedValues this a res (Some meta) s1) as [[e|[]] s2]; [done|].
  cbn [snd] in *.
  assert (Ha2 : entity (changeSets s2 c) = a) by (by rewrite (effect_entity _ _ _ _ _ _ _ H2)).
  destruct (processOptimisticLock this (Some meta) c (Some res) ctx s2)
    as [[e|[]] s3] eqn:E3; [done|].
  destruct (processOptimisticLock_success this meta vp c (Some res) ctx s2 s3 E3 Hvp)
    as (found & Hfind & Hs3).
  rewrite Ha2 in Hfind, Hs3. intros [= <-]. cbn.
  assert (Hpk : get__primaryKey (entities s3 a) = get__primaryKey (entities s2 a)).
  { apply get__primaryKey_ext.
    - rewrite Hs3. cbn. by rewrite fn_lookup_insert.
    - intros k Hk. rewrite Hs3. cbn. rewrite fn_lookup_insert. cbn.
      apply lookup_insert_ne. intros <-. apply (Hvers vp Hvp).
      revert Hk. rewrite (effect_meta _ _ _ _ _ _ _ _ H2). by rewrite Hemeta. }
  exists (l0 ++ [call]), [], found. rewrite Hpk. split; [|split].
  - rewrite Hs3. cbn. rewrite Hc2, Hc1, Hcalls. by rewrite <- !app_assoc.
  - rewrite app_assoc, <- Hcalls, <- Hc1, <- Hc2. exact Hfind.
  - rewrite Hs3. cbn. rewrite fn_lookup_insert. cbn. unfold get.
    by rewrite lookup_insert_eq.
Qed.

(** X7: after [executeUpdates] has returned on a batch of one type whose
    version property is not a key property, every change set is persisted
    and the version of every entity of a versioned type is the one found by
    a lookup on its key that the call issued. *)
Theorem executeUpdates_postcondition :
  forall this meta css ctx s,
    let out := executeUpdates this css ctx s in
    batch_of this meta css s ->
    (forall vp, versionProperty meta = Some vp -> vp ∉ keyNames meta) ->
    out.1 = inr tt ->
    forall c, c ∈ css ->
      let e := entities out.2 (entity (changeSets out.2 c)) in
      persisted (changeSets out.2 c) = true /\
      forall vp, versionProperty meta = Some vp ->
        looked_up this meta vp ctx (calls s) (calls out.2) (get__primaryKey e)
          (get (data e) vp).
Proof.
  intros this meta css ctx s out Hbatch Hvers Hok.
  set (s1 := (forEach (processProperties this) css s).2).
  assert (Hloop : forEach (fun c => persistManagedEntity this c ctx) css s1 = (inr tt, out.2)).
  { subst out s1. revert Hok. unfold executeUpdates, bind.
    destruct (forEach (processProperties this) css s) as [[e|[]] t1]; [done|]. cbn.
    destruct (forEach _ css t1) as [[e|[]] t2]; done. }
  clearbody out.
  set (I := fun t => same_identity s t /\ exists l, calls t = calls s ++ l).
  set (Q := fun c t =>
              let e := entities t (entity (changeSets t c)) in
              persisted (changeSets t c) = true /\
              forall vp, versionProperty meta = Some vp ->
                looked_up this meta vp ctx (calls s) (calls t) (get__primaryKey e)
                  (get (data e) vp)).
  assert (Hround : forall x y t1 t2, x ∈ css -> y ∈ css -> I t1 ->
            persistManagedEntity this y ctx t1 = (inr tt, t2) ->
            I t2 /\ Q y t2 /\ (Q x t1 -> Q x t2)).
  { intros x y t1 t2 Hx Hy [Hid Hcalls] Hstep.
    assert (Hwf : metadata this (cs_name (changeSets t1 y)) = Some meta /\
                  __meta (entities t1 (entity (changeSets t1 y))) = meta).
    { destruct Hid as [Hcs He]. destruct (Hcs y) as (-> & _ & ->).
      destruct (He (entity (changeSets s y))) as [-> _]. by apply Hbatch. }
    destruct Hwf as [Hm He].
    destruct (persistManagedEntity_success this meta y ctx t1 t2 (calls s) Hstep Hm He
                Hvers Hcalls) as [Hpers Hver].
    pose proof (persistManagedEntity_frame this y ctx t1) as Heff.
    rewrite Hstep in Heff. cbn [snd] in Heff.
    destruct (eff_identity _ _ _ _ _ _ _ Heff) as [Hcs _].
    destruct (Hcs y) as (_ & _ & Henty).
    assert (Hqy : Q y t2) by (unfold Q; cbn zeta; by rewrite Henty).
    split; [|split; [exact Hqy|]].
    - split.
      + eapply same_identity_trans; [exact Hid | apply Heff].
      + destruct Hcalls as [l1 H1]. destruct (eff_calls _ _ _ _ _ _ _ Heff) as [l2 H2].
        exists (l1 ++ l2). by rewrite H2, H1, app_assoc.
    - intros [Hperx Hverx]. destruct (Hcs x) as (_ & _ & Hentx).
      unfold Q. cbn zeta. rewrite Hentx. split.
      + destruct (eff_persisted _ _ _ _ _ _ _ Heff x) as [-> | [_ ->]]; done.
      + intros vp Hvp.
        destruct (decide (entity (changeSets t1 x) = entity (changeSets t1 y))) as [Heq|Hne].
        * rewrite Heq. by apply Hver.
        * destruct (effect_other_entity _ _ _ _ _ _ _ _ Heff Hne) as (-> & -> & _).
          destruct (Hverx vp Hvp) as (h & l & found & Hlog & Hfind & Hv).
          destruct (eff_calls _ _ _ _ _ _ _ Heff) as [l2 H2].
          exists h, (l ++ l2), found. split; [|done].
          rewrite H2, Hlog. by rewrite <- !app_assoc. }
  apply (forEach_post I Q (fun c => persistManagedEntity this c ctx) css s1 out.2);
    [exact Hloop | | | ].
  - split; [apply resolution_identity | apply resolution_calls].
  - intros x t1 t2 Hx Ht1 Hstep. destruct (Hround x x t1 t2 Hx Hx Ht1 Hstep) as (? & ? & _).
    done.
  - intros x y t1 t2 Hx Hy Ht1 Hq Hstep.
    destruct (Hround x y t1 t2 Hx Hy Ht1 Hstep) as (_ & _ & Hkeep). by apply Hkeep.
Qed.

(** [User{id:42, version:1}] and [User{id:43, version:1}] are updated and
    the lookups find version 2: both change sets are persisted and both
    entities hold the version found. *)
Lemma executeUpdates_postcondition_witness :
  let s := Sample.world Sample.User UPDATE
             {[ "id"%string := VNum 42; "version"%string := VNum 1 ]}
             {[ "id"%string := VNum 43; "version"%string := VNum 1 ]} ∅ ∅ in
  let this := Sample.persister
                (Sample.constDriver (Sample.result 1 VUndefined None)
                   (Some {[ "version"%string := VNum 2 ]}))
                Sample.User in
  let out := executeUpdates this [0; 1]%nat None s in
  let done c :=
    let e := entities out.2 (entity (changeSets out.2 c)) in
    persisted (changeSets out.2 c) = true /\
    looked_up this Sample.User "version" None (calls s) (calls out.2) (get__primaryKey e)
      (get (data e) "version") in
  done 0%nat /\ done 1%nat.
Proof.
  intros s this out done.
  assert (Hall : forall c, c ∈ [0; 1]%nat ->
            let e := entities out.2 (entity (changeSets out.2 c)) in
            persisted (changeSets out.2 c) = true /\
            forall vp, versionProperty Sample.User = Some vp ->
              looked_up this Sample.User vp None (calls s) (calls out.2) (get__primaryKey e)
                (get (data e) vp)).
  { apply (executeUpdates_postcondition this Sample.User [0; 1]%nat None s).
    - intros c Hc. apply elem_of_cons in Hc as [-> | Hc]; [by split|].
      apply list_elem_of_singleton in Hc as ->. by split.
    - intros vp [= <-] Hin. apply list_elem_of_singleton in Hin. discriminate Hin.
    - reflexivity. }
  split.
  - destruct (Hall 0%nat ltac:(by left)) as [Hp Hv]. split; [exact Hp|]. exact (Hv _ eq_refl).
  - destruct (Hall 1%nat ltac:(by right; left)) as [Hp Hv]. split; [exact Hp|].
    exact (Hv _ eq_refl).
Defined.

Lemma mapReturnedValues_flags this a res meta s :
  same_flags s (mapReturnedValues this a res meta s).2.
Proof.
  unfold mapReturnedValues. destruct (row res) as [r|]; [|apply same_flags_refl].
  destruct (0 <? size r)%nat; [|apply same_flags_refl].
  destruct meta as [meta|]; mrun; [|apply same_flags_refl].
  apply same_flags_upd_entity. intros e.
  by destruct (hydrate_fields (hydrator this) e meta
                 (returnedData (data (entities s a)) r meta) false true) as (_ & _ & -> & ->).
Qed.

Lemma processOptimisticLock_flags this meta c res ctx s :
  same_flags s (processOptimisticLock this meta c res ctx s).2.
Proof.
  unfold processOptimisticLock. destruct meta as [meta|]; mrun; [|apply same_flags_refl].
  destruct (versionProperty meta) as [vp|]; mrun; [|apply same_flags_refl].
  destruct (match cs_type _ with UPDATE => _ | _ => _ end); mrun; [apply same_flags_refl|].
  destruct (findOne _ _ _ _ _ _) as [e|[found|]]; mrun; try (by split).
  match goal with
  | |- same_flags _ (upd_entity _ _ ?t) => apply (same_flags_trans _ t)
  end; [by split | apply same_flags_write].
Qed.

Lemma persistManagedEntity_flags this c ctx s :
  same_flags s (persistManagedEntity this c ctx s).2.
Proof.
  unfold persistManagedEntity. mrun.
  set (meta := metadata this _). set (a := entity _).
  assert (H1 : same_flags s (updateEntity this meta c ctx s).2).
  { unfold updateEntity. destruct meta as [m|]; mrun; [|apply same_flags_refl].
    by destruct (nativeUpdate _ _ _ _ _ _). }
  destruct (updateEntity this meta c ctx s) as [[e|res] s1]; cbn in *; [done|].
  pose proof (mapReturnedValues_flags this a res meta s1) as H2.
  destruct (mapReturnedValues this a res meta s1) as [[e|[]] s2]; cbn in *;
    [by eapply same_flags_trans|].
  pose proof (processOptimisticLock_flags this meta c (Some res) ctx s2) as H3.
  destruct (processOptimisticLock _ _ _ _ _ s2) as [[e|[]] s3]; cbn in *.
  - eapply same_flags_trans; [|exact H3]. by eapply same_flags_trans.
  - apply (same_flags_trans _ s3); [|by split].
    eapply same_flags_trans; [|exact H3]. by eapply same_flags_trans.
Qed.

(** X8: an update batch works on data only: whatever its outcome, an UPDATE
    batch sets no identifier and moves no initialized or populated flag of
    any entity or collection. *)
Theorem executeUpdates_keeps_flags_and_identifiers :
  forall this css ctx s,
    let out := (executeUpdates this css ctx s).2 in
    (forall c, c ∈ css -> cs_type (changeSets s c) = UPDATE) ->
    (forall cell, identifiers out cell = identifiers s cell) /\
    collections out = collections s /\
    forall a, __initialized (entities out a) = __initialized (entities s a) /\
              __populated (entities out a) = __populated (entities s a).
Proof.
  intros this css ctx s out Hty.
  set (I := fun t => same_identity s t /\
                     (forall cell, identifiers t cell = identifiers s cell) /\
                     same_flags s t).
  assert (Hres : forall c t, c ∈ css -> I t -> I (processProperties this c t).2).
  { intros c t Hc (Hid & Hcells & Hflags).
    assert (Heff : effect false c (entity (changeSets t c)) (fun _ => True) (fun _ => False)
                     t (processProperties this c t).2).
    { apply processProperties_effect; [done|]. intros meta prop _ _.
      destruct Hid as [Hcs _]. destruct (Hcs c) as (_ & -> & _). rewrite (Hty c Hc).
      split; [done|]. by intros _ _. }
    split; [|split].
    - eapply same_identity_trans; [exact Hid | apply Heff].
    - intros cell. rewrite <- Hcells. apply Heff. by intros [].
    - eapply same_flags_trans; [exact Hflags|]. apply processProperties_in_memory. }
  assert (Hstep : forall c t, c ∈ css -> I t -> I (persistManagedEntity this c ctx t).2).
  { intros c t Hc (Hid & Hcells & Hflags).
    assert (Heff : effect true c (entity (changeSets t c)) (fun _ => True) (fun _ => False)
                     t (persistManagedEntity this c ctx t).2).
    { by apply persistManagedEntity_effect. }
    split; [|split].
    - eapply same_identity_trans; [exact Hid | apply Heff].
    - intros cell. rewrite <- Hcells. apply Heff. by intros [].
    - eapply same_flags_trans; [exact Hflags|]. apply persistManagedEntity_flags. }
  assert (Hout : I out).
  { subst out. unfold executeUpdates. apply bind_invariant.
    - apply forEach_invariant; [|by auto].
      split; [apply same_identity_refl|]. split; [done | apply same_flags_refl].
    - intros _ _. apply forEach_invariant; [|by auto].
      apply forEach_invariant; [|by auto].
      split; [apply same_identity_refl|]. split; [done | apply same_flags_refl]. }
  destruct Hout as (_ & Hcells & Hcoll & Hent). done.
Qed.

(** Two versioned [User]s are updated: identifiers and flags are as
    before. *)
Lemma executeUpdates_keeps_flags_and_identifiers_witness :
  let s := Sample.world Sample.User UPDATE
             {[ "id"%string := VNum 42; "version"%string := VNum 1 ]}
             {[ "id"%string := VNum 43; "version"%string := VNum 1 ]} ∅ ∅ in
  let this := Sample.persister
                (Sample.constDriver (Sample.result 1 VUndefined None)
                   (Some {[ "version"%string := VNum 2 ]}))
                Sample.User in
  let out := (executeUpdates this [0; 1]%nat None s).2 in
  (forall cell, identifiers out cell = identifiers s cell) /\
  collections out = collections s /\
  forall a, __initialized (entities out a) = __initialized (entities s a) /\
            __populated (entities out a) = __populated (entities s a).
Proof.
  intros s this out.
  apply (executeUpdates_keeps_flags_and_identifiers this [0; 1]%nat None s).
  intros c Hc. apply elem_of_cons in Hc as [-> | Hc]; [reflexivity|].
  apply list_elem_of_singleton in Hc as ->. reflexivity.
Defined.

(** ** What a batch leaves alone *)

Lemma resolution_frame this css s :
  batch_frame css s (forEach (processProperties this) css s).2.
Proof.
  apply forEach_invariant; [apply batch_frame_refl|].
  intros c t Hc Ht. eapply batch_frame_step; [exact Ht | exact Hc |].
  apply processProperties_frame.
Qed.

(** X9: whatever their outcome, [executeInserts] and [executeUpdates] work on
    their batch only: a change set outside the batch is left as it is, and
    so are the properties and the initialized flag of every entity that is
    not the entity of a change set of the batch.  Names, types, entity
    references, metadata and uuids are never changed, a persisted change set
    stays persisted, and the call log only grows. *)
Theorem batch_operations_frame :
  forall this css ctx s,
    batch_frame css s (executeInserts this css ctx s).2 /\
    batch_frame css s (executeUpdates this css ctx s).2.
Proof.
  intros this css ctx s. split.
  - unfold executeInserts. apply bind_invariant; [apply resolution_frame|].
    intros _ _. apply forEach_invariant; [apply resolution_frame|].
    intros c t Hc Ht. eapply batch_frame_step; [exact Ht | exact Hc |].
    apply persistNewEntity_frame.
  - unfold executeUpdates. apply bind_invariant; [apply resolution_frame|].
    intros _ _. apply forEach_invariant; [apply resolution_frame|].
    intros c t Hc Ht. eapply batch_frame_step; [exact Ht | exact Hc |].
    apply persistManagedEntity_frame.
Qed.

(** X10: a persisting step touches no payload and no other change set: the
    change sets it leaves are the ones it found, with the persisted flag of
    its own change set raised when it has returned, and only then. *)
Theorem persisted_only_on_success :
  forall this c ctx s,
    let persistedAt (out : (Exception + unit) * State) :=
      changeSets out.2 =
        match out.1 with
        | inr _ => <[c := set_persisted true (changeSets s c)]> (changeSets s)
        | inl _ => changeSets s
        end in
    persistedAt (persistNewEntity this c ctx s) /\
    persistedAt (persistManagedEntity this c ctx s).
Proof.
  intros this c ctx s persistedAt. split.
  - apply persistNewEntity_changeSets.
  - apply persistManagedEntity_changeSets.
Qed.

(** X11: an entity that has its key when the insert answers keeps the
    identifiers as they are: [persistNewEntity] sets no identifier for
    it. *)
Theorem persistNewEntity_keyed_keeps_identifiers :
  forall this c ctx s cell,
    isDefined (get__primaryKey (entities s (entity (changeSets s c)))) true = true ->
    identifiers (persistNewEntity this c ctx s).2 cell = identifiers s cell.
Proof.
  intros this c ctx s cell Hdef.
  apply (persistNewEntity_effect this true c (entity (changeSets s c))
           (fun _ => True) (fun _ => False) ctx s); try done.
  - congruence.
  - by intros [].
Qed.

(** [User{id:7}] is inserted: its identifier is left unset. *)
Lemma persistNewEntity_keyed_keeps_identifiers_witness :
  let s := Sample.world Sample.User CREATE {[ "id"%string := VNum 7 ]} ∅ ∅ ∅ in
  let this := Sample.persister
                (Sample.constDriver (Sample.result 1 (VNum 42) None)
                   (Some {[ "version"%string := VNum 1 ]}))
                Sample.User in
  identifiers (persistNewEntity this 0 None s).2 0%nat = VUndefined.
Proof.
  intros s this.
  apply (persistNewEntity_keyed_keeps_identifiers this 0%nat None s 0%nat).
  reflexivity.
Defined.

(** ** Marking as populated *)

(** X12: [markAsPopulated] returns, and afterwards the entity of the change set
    is populated and so is every entity and every collection that one of
    its properties refers to; no property, no initialized flag, no change
    set and no identifier is changed, and the driver is not called. *)
Theorem markAsPopulated_populates_references :
  forall c meta s,
    let a := entity (changeSets s c) in
    let out := markAsPopulated c (Some meta) s in
    out.1 = inr tt /\
    __populated (entities out.2 a) = true /\
    (forall prop, prop ∈ properties meta ->
       match get (data (entities s a)) (prop_name prop) with
       | VEntity a' => __populated (entities out.2 a') = true
       | VCollection k => collections out.2 k = true
       | _ => True
       end) /\
    (forall a', data (entities out.2 a') = data (entities s a') /\
                __initialized (entities out.2 a') = __initialized (entities s a')) /\
    changeSets out.2 = changeSets s /\
    identifiers out.2 = identifiers s /\
    calls out.2 = calls s.
Proof.
  intros c meta s a out. subst out. unfold markAsPopulated. mrun. fold a.
  set (s1 := upd_entity a populated s).
  set (body := fun prop : EntityProperty => _).
  set (I := fun t : State =>
              (forall a', data (entities t a') = data (entities s a') /\
                          __initialized (entities t a') = __initialized (entities s a')) /\
              changeSets t = changeSets s /\ identifiers t = identifiers s /\
              calls t = calls s /\ __populated (entities t a) = true).
  set (Q := fun (prop : EntityProperty) (t : State) =>
              match get (data (entities s a)) (prop_name prop) with
              | VEntity a' => __populated (entities t a') = true
              | VCollection k => collections t k = true
              | _ => True
              end).
  assert (Hmono : forall t a', __populated (entities t a') = true ->
                    forall prop, __populated (entities (body prop t).2 a') = true).
  { intros t a' Hp prop. subst body. mrun. destruct (get _ _); mrun; try done.
    destruct (decide (addr = a')) as [->|Hne].
    - by rewrite fn_lookup_insert.
    - by rewrite fn_lookup_insert_ne. }
  assert (Hcoll : forall t k, collections t k = true ->
                    forall prop, collections (body prop t).2 k = true).
  { intros t k Hk prop. subst body. mrun. destruct (get _ _); mrun; try done.
    destruct (decide (addr = k)) as [->|Hne].
    - by rewrite fn_lookup_insert.
    - by rewrite fn_lookup_insert_ne. }
  assert (Hstep : forall prop t, I t ->
                    (body prop t).1 = inr tt /\ I (body prop t).2 /\ Q prop (body prop t).2).
  { intros prop t (Hdata & Hcs & Hids & Hcalls & Hpop).
    pose proof (Hmono t a Hpop prop) as Hpop'.
    revert Hpop'. subst body Q. mrun. destruct (Hdata a) as [-> _].
    destruct (get _ _) eqn:Hv; mrun; intros Hpop'; repeat split; try done;
      try apply Hdata; try (by rewrite fn_lookup_insert).
    all: cbn; destruct (decide (addr = a')) as [->|Hne];
      [rewrite fn_lookup_insert | rewrite fn_lookup_insert_ne by done]; cbn; apply Hdata. }
  assert (Hs1 : I s1).
  { subst s1 I. cbn. repeat split; try done.
    - destruct (decide (a = a')) as [<-|Hne];
        [by rewrite fn_lookup_insert | by rewrite fn_lookup_insert_ne].
    - destruct (decide (a = a')) as [<-|Hne];
        [by rewrite fn_lookup_insert | by rewrite fn_lookup_insert_ne].
    - by rewrite fn_lookup_insert. }
  clearbody s1.
  assert (Hok : (forEach body (properties meta) s1).1 = inr tt).
  { apply (forEach_returns I); [done|]. intros prop t _ Ht.
    destruct (Hstep prop t Ht) as (? & ? & _). done. }
  destruct (forEach body (properties meta) s1) as [[e|[]] s2] eqn:Hrun; [done|].
  destruct (forEach_post I Q body (properties meta) s1 s2 Hrun Hs1) as [Hs2 Hall].
  - intros prop t t' _ Ht Hb. destruct (Hstep prop t Ht) as (_ & Hi & Hq).
    rewrite Hb in Hi, Hq. done.
  - intros x y t t' _ _ Ht Hq Hb. unfold Q in *.
    destruct (get (data (entities s a)) (prop_name x)); try done.
    + replace t' with (body y t).2 by (by rewrite Hb). by apply Hmono.
    + replace t' with (body y t).2 by (by rewrite Hb). by apply Hcoll.
  - cbn. destruct Hs2 as (Hdata & Hcs & Hids & Hcalls & Hpop). done.
Qed.

(** ** What reconciliation writes *)

Lemma assign_changed (w : EntityProperty -> option value) props k : forall acc,
  fold_left (assign w) props acc !! k <> acc !! k ->
  exists p, p ∈ props /\ prop_name p = k /\ is_Some (w p).
Proof.
  induction props as [|p ps IH]; intros acc H; cbn in H; [done|].
  destruct (decide (prop_name p = k)) as [Heq|Hne].
  - destruct (w p) as [v|] eqn:Hw.
    + exists p. split; [by left|]. split; [done|]. by rewrite Hw.
    + destruct (IH (assign w acc p)) as (q & Hq & Hk & Hs).
      * intros Hsame. apply H. rewrite Hsame. unfold assign. by rewrite Hw.
      * exists q. split; [by right | done].
  - destruct (IH (assign w acc p)) as (q & Hq & Hk & Hs).
    + intros Hsame. apply H. rewrite Hsame. unfold assign.
      destruct (w p); [by rewrite lookup_insert_ne | done].
    + exists q. split; [by right | done].
Qed.

(** X13: [mapReturnedValues] changes a property of an entity only when it is the
    entity of the call, the entity holds no explicit value for the property,
    and the property is one of the type that has a column name under which
    the returned row holds a truthy value: it writes nothing else, and in
    particular no column that is 0, false, empty or null, and no column that
    matches no property. *)
Theorem mapReturnedValues_only_writes :
  forall this a res meta s a' k,
    let out := (mapReturnedValues this a res (Some meta) s).2 in
    data (entities out a') !! k <> data (entities s a') !! k ->
    a' = a /\
    isDefined (get (data (entities s a)) k) true = false /\
    exists r prop fns,
      row res = Some r /\ prop ∈ properties meta /\ prop_name prop = k /\
      fieldNames prop = Some fns /\ truthy (get r (first_key fns)) = true.
Proof.
  intros this a res meta s a' k out Hchanged. subst out.
  rewrite mapReturnedValues_run in Hchanged. cbn [snd] in Hchanged.
  destruct (row res) as [r|]; [|done]. destruct (0 <? size r)%nat; [|done].
  cbn in Hchanged. destruct (decide (a = a')) as [<-|Hne].
  2: { by rewrite fn_lookup_insert_ne in Hchanged. }
  split; [done|]. rewrite fn_lookup_insert, hydrate_data in Hchanged.
  apply assign_changed in Hchanged as (p & _ & Hk & [v Hv]).
  destruct (returnedData _ _ _ !! prop_name p) as [v0|] eqn:Hd; [|done].
  rewrite Hk in Hd. pose proof (returnedData_unset _ _ _ _ _ Hd) as [Hunset _].
  split; [done|].
  rewrite returnedData_assign in Hd.
  apply assign_written in Hd as [Hd | (q & Hq & Hqk & Hw)]; [by rewrite lookup_empty in Hd|].
  unfold returned in Hw. destruct (fieldNames q) as [fns|] eqn:Hfns; [|done].
  destruct (truthy (get r (first_key fns))) eqn:Ht; [|done].
  by exists r, q, fns.
Qed.

(** The driver returns the generated id 7 of a [User] that had none: the
    id that is written is a truthy column of a property without value. *)
Lemma mapReturnedValues_only_writes_witness :
  let s := Sample.world Sample.User CREATE ∅ ∅ ∅ ∅ in
  let this := Sample.persister (Sample.constDriver (Sample.result 1 (VNum 7) None) None)
                Sample.User in
  let res := Sample.result 1 (VNum 7)
               (Some {[ "id"%string := VNum 7; "version"%string := VNum 0 ]}) in
  isDefined (get (data (entities s 0%nat)) "id") true = false /\
  exists r prop fns,
    row res = Some r /\ prop ∈ properties Sample.User /\ prop_name prop = "id"%string /\
    fieldNames prop = Some fns /\ truthy (get r (first_key fns)) = true.
Proof.
  intros s this res.
  destruct (mapReturnedValues_only_writes this 0%nat res Sample.User s 0%nat "id"%string)
    as (_ & Hunset & Hprop).
  - vm_compute. discriminate.
  - split; [exact Hunset | exact Hprop].
Defined.

(** ** Inserts that fail after the write *)

(** X14: an entity without key whose uuid has no identifier in the identifier
    map cannot take its generated key: once the driver has answered the
    insert, [persistNewEntity] throws a TypeError.  The insert is the one
    call that was sent, the change set is not marked persisted, and no
    flag of an entity or collection has moved. *)
Theorem persistNewEntity_without_identifier :
  forall this meta c ctx s res,
    let cs := changeSets s c in
    let e := entities s (entity cs) in
    let out := persistNewEntity this c ctx s in
    metadata this (cs_name cs) = Some meta ->
    nativeInsert (driver this) (calls s) (cs_name cs) (payload cs) ctx = inr res ->
    isDefined (get__primaryKey e) true = false ->
    identifierMap this !! __uuid e = None ->
    out.1 = inl TypeError /\
    calls out.2 = calls s ++ [NativeInsert (cs_name cs) (payload cs) ctx] /\
    changeSets out.2 = changeSets s /\
    same_flags s out.2.
Proof.
  intros this meta c ctx s res cs e out Hmeta Hins Hkey Hcell.
  pose proof (persistNewEntity_changeSets this c ctx s) as Hcs. fold out in Hcs.
  subst out. revert Hcs. unfold persistNewEntity. mrun. fold cs. rewrite Hmeta, Hins. mrun.
  fold e. rewrite Hkey.
  set (call := NativeInsert _ _ _). set (s1 := log call s).
  pose proof (mapReturnedValues_calls this (entity cs) res (Some meta) s1) as Hc2.
  pose proof (mapReturnedValues_flags this (entity cs) res (Some meta) s1) as Hf2.
  pose proof (mapReturnedValues_changeSets this (entity cs) res (Some meta) s1) as Hs2.
  assert (Hu2 : __uuid (entities (mapReturnedValues this (entity cs) res (Some meta) s1).2
                          (entity cs)) = __uuid e).
  { apply (mapReturnedValues_effect this true c (entity cs) (fun _ => True) (fun _ => True)
             res (Some meta) s1). done. }
  destruct (mapReturnedValues this (entity cs) res (Some meta) s1) as [[err|[]] s2] eqn:E2.
  { by rewrite mapReturnedValues_run in E2. }
  cbn [snd] in *.
  destruct (mapPrimaryKey_in_memory this (Some meta) (insertId res) c s2) as [Hc3 Hf3].
  assert (Hfail : (mapPrimaryKey this (Some meta) (insertId res) c s2).1 = inl TypeError).
  { unfold mapPrimaryKey. mrun.
    destruct (meta_prop _ _) as [prop|]; mrun; [|done].
    change (changeSets s1) with (changeSets s) in Hs2. rewrite Hs2. fold cs.
    by rewrite Hu2, Hcell. }
  destruct (mapPrimaryKey this (Some meta) (insertId res) c s2) as [[err|[]] s3];
    cbn in *; [|done].
  injection Hfail as ->. intros Hcs. split; [done|]. split; [|split; [done|]].
  - by rewrite Hc3, Hc2.
  - eapply same_flags_trans; [|exact Hf3]. eapply same_flags_trans; [|exact Hf2]. by split.
Qed.

(** A [User] without id is inserted by a persister that holds no
    identifier for it: the insert is sent, then the call fails. *)
Lemma persistNewEntity_without_identifier_witness :
  let s := Sample.world Sample.User CREATE ∅ ∅ ∅ ∅ in
  let this := {| driver := Sample.constDriver (Sample.result 1 (VNum 42) None) None;
                 identifierMap := ∅;
                 metadata := Sample.registry Sample.User;
                 hydrator := Sample.plain |} in
  let out := persistNewEntity this 0 None s in
  out.1 = inl TypeError /\
  calls out.2 = [NativeInsert "User" ∅ None] /\
  changeSets out.2 = changeSets s /\
  same_flags s out.2.
Proof.
  intros s this out.
  apply (persistNewEntity_without_identifier this Sample.User 0%nat None s
           (Sample.result 1 (VNum 42) None)); reflexivity.
Defined.

(** X15: when the version lookup that follows an insert finds no row,
    [persistNewEntity] throws a TypeError: the change set is not marked
    persisted although its row has been inserted, while its entity is
    already marked populated and initialized. *)
Theorem persistNewEntity_lookup_misses :
  forall this meta vp c ctx s res,
    let cs := changeSets s c in
    let a := entity cs in
    let out := persistNewEntity this c ctx s in
    metadata this (cs_name cs) = Some meta ->
    cs_type cs = CREATE ->
    versionProperty meta = Some vp ->
    nativeInsert (driver this) (calls s) (cs_name cs) (payload cs) ctx = inr res ->
    (isDefined (get__primaryKey (entities s a)) true = false ->
     is_Some (meta_prop meta (first_key (primaryKeys meta))) /\
     is_Some (identifierMap this !! __uuid (entities s a))) ->
    (forall h n pk fields ctx', findOne (driver this) h n pk fields ctx' = inr None) ->
    out.1 = inl TypeError /\
    changeSets out.2 = changeSets s /\
    __populated (entities out.2 a) = true /\
    __initialized (entities out.2 a) = true.
Proof.
  intros this meta vp c ctx s res cs a out Hmeta Hty Hvp Hins Hkey Hfind.
  pose proof (persistNewEntity_changeSets this c ctx s) as Hcs. fold out in Hcs.
  subst out. revert Hcs. unfold persistNewEntity. mrun. fold cs a. rewrite Hmeta, Hins. mrun.
  set (call := NativeInsert _ _ _). set (s1 := log call s).
  assert (H2 : effect true c a (fun _ => True) (fun _ => True) s
                 (mapReturnedValues this a res (Some meta) s1).2).
  { eapply effect_trans; [apply effect_log|]. by apply mapReturnedValues_effect. }
  destruct (mapReturnedValues this a res (Some meta) s1) as [[err|[]] s2] eqn:E2.
  { by rewrite mapReturnedValues_run in E2. }
  cbn [snd] in *.
  assert (Ha2 : entity (changeSets s2 c) = a) by (by rewrite (effect_entity _ _ _ _ _ _ _ H2)).
  match goal with
  | |- context [let (_, _) := ?m in _] => destruct m as [r3 s3] eqn:E3
  end.
  assert (H3 : r3 = inr tt /\ changeSets s3 = changeSets s2).
  { destruct (isDefined (get__primaryKey (entities s a)) true) eqn:Hdef.
    - by injection E3 as <- <-.
    - destruct Hkey as [[prop Hprop] [cell Hcell]]; [done|].
      rewrite (mapPrimaryKey_run this meta prop cell) in E3; [|done|].
      + injection E3 as <- <-. done.
      + by rewrite Ha2, (effect_uuid _ _ _ _ _ _ _ _ H2). }
  destruct H3 as [-> Hcs3]. clear E3.
  assert (Hcs2 : changeSets s2 = changeSets s).
  { replace s2 with (mapReturnedValues this a res (Some meta) s1).2 by (by rewrite E2).
    by rewrite mapReturnedValues_changeSets. }
  assert (Ha3 : entity (changeSets s3 c) = a) by (by rewrite Hcs3, Hcs2).
  pose proof (markAsPopulated_returns c meta s3) as Hok4.
  pose proof (markAsPopulated_populates c (Some meta) s3) as Hpop. rewrite Ha3 in Hpop.
  pose proof (markAsPopulated_changeSets c (Some meta) s3) as Hcs4.
  destruct (markAsPopulated c (Some meta) s3) as [[err|[]] s4]; cbn in *; [done|].
  unfold processOptimisticLock. mrun. rewrite Hvp. mrun. rewrite Hcs4, Hcs3, Hcs2.
  fold cs a. rewrite Hty. mrun. rewrite Hfind. mrun. intros Hcs.
  repeat split; try done; by rewrite fn_lookup_insert.
Qed.

(** A [User] is inserted and the lookup of its version finds nothing. *)
Lemma persistNewEntity_lookup_misses_witness :
  let s := Sample.world Sample.User CREATE ∅ ∅ ∅ ∅ in
  let this := Sample.persister (Sample.constDriver (Sample.result 1 (VNum 42) None) None)
                Sample.User in
  let out := persistNewEntity this 0 None s in
  out.1 = inl TypeError /\
  changeSets out.2 = changeSets s /\
  __populated (entities out.2 0%nat) = true /\
  __initialized (entities out.2 0%nat) = true.
Proof.
  intros s this out.
  apply (persistNewEntity_lookup_misses this Sample.User "version" 0%nat None s
           (Sample.result 1 (VNum 42) None)); try reflexivity.
  intros _. split; eexists; reflexivity.
Defined.

(** ** Property resolution *)

(** One property, when resolving it does not assign the key. *)
Lemma processProperty_step this c prop t :
  let cs := changeSets t c in
  let e := entities t (entity cs) in
  let n := prop_name prop in
  let out := processProperty this c prop t in
  (cs_type cs = CREATE -> primary prop = true -> onCreate prop = None) ->
  out.1 = inr tt /\
  identifiers out.2 = identifiers t /\
  (forall k, k <> n ->
     payload (changeSets out.2 c) !! k = payload cs !! k /\
     data (entities out.2 (entity cs)) !! k = data e !! k) /\
  match appliedRule (cs_type cs) prop with
  | Some rule =>
      payload (changeSets out.2 c) !! n = Some (rule (data e)) /\
      data (entities out.2 (entity cs)) !! n = Some (rule (data e))
  | None =>
      payload (changeSets out.2 c) !! n = resolved (identifiers t) <$> payload cs !! n /\
      data (entities out.2 (entity cs)) !! n = data e !! n
  end.
Proof.
  intros cs e n out Hkey. subst out. unfold processProperty. mrun. fold cs.
  unfold get. fold n.
  assert (Hpay : forall v k, k <> n -> <[n := v]> (payload cs) !! k = payload cs !! k).
  { intros v k Hk. by apply lookup_insert_ne. }
  destruct (cs_type cs) eqn:Hty; cbn [appliedRule];
    destruct (onCreate prop) as [create|] eqn:Hcreate;
    destruct (onUpdate prop) as [update|] eqn:Hupdate;
    destruct (primary prop) eqn:Hprim;
    try (by specialize (Hkey eq_refl eq_refl));
    destruct (payload cs !! n) as [[]|] eqn:Hv;
    mrun; fold cs e n; rewrite ?fn_lookup_insert; cbn; rewrite ?fn_lookup_insert; cbn;
    (split; [done|]); (split; [done|]);
    (split; [intros k Hk; by rewrite ?lookup_insert_ne by done
            | rewrite ?lookup_insert_eq, ?Hv; done]).
Qed.

(** All the properties of one change set. *)
Lemma resolution_loop this c (plain : string -> Prop) props : forall t,
  let cs := changeSets t c in
  let a := entity cs in
  let out := forEach (processProperty this c) props t in
  NoDup (map prop_name props) ->
  (forall prop, prop ∈ props ->
     cs_type cs = CREATE -> primary prop = true -> onCreate prop = None) ->
  (forall prop, prop ∈ props ->
     plain (prop_name prop) -> appliedRule (cs_type cs) prop = None) ->
  out.1 = inr tt /\
  identifiers out.2 = identifiers t /\
  (forall k, k ∉ map prop_name props ->
     payload (changeSets out.2 c) !! k = payload cs !! k /\
     data (entities out.2 a) !! k = data (entities t a) !! k) /\
  forall prop, prop ∈ props ->
    match appliedRule (cs_type cs) prop with
    | Some rule => exists d,
        payload (changeSets out.2 c) !! prop_name prop = Some (rule d) /\
        data (entities out.2 a) !! prop_name prop = Some (rule d) /\
        forall k, plain k -> d !! k = data (entities t a) !! k
    | None =>
        payload (changeSets out.2 c) !! prop_name prop
          = resolved (identifiers t) <$> payload cs !! prop_name prop /\
        data (entities out.2 a) !! prop_name prop
          = data (entities t a) !! prop_name prop
    end.
Proof.
  induction props as [|p ps IH]; intros t cs a out Hnd Hkey Hplain.
  { subst out. cbn. split; [done|]. split; [done|]. split; [done|].
    intros prop Hin. by apply elem_of_nil in Hin. }
  cbn in Hnd. apply list.NoDup_cons in Hnd as [Hp Hnd].
  destruct (processProperty_step this c p t) as (Hok & Hids & Hframe & Hpost).
  { apply Hkey. by left. }
  fold cs a in Hok, Hids, Hframe, Hpost.
  assert (Heff : effect false c a (fun _ => True) (fun _ => True) t
                   (processProperty this c p t).2).
  { apply processProperty_effect; done. }
  destruct (eff_identity _ _ _ _ _ _ _ Heff) as [Hcs _].
  destruct (Hcs c) as (_ & Hty1 & Hent1). fold cs a in Hty1, Hent1.
  subst out. cbn. unfold bind.
  destruct (processProperty this c p t) as [[err|[]] t1]; cbn in *; [done|].
  (* a plain property is as it was after the round of [p] *)
  assert (Hsame : forall k, plain k ->
            data (entities t1 a) !! k = data (entities t a) !! k).
  { intros k Hk. destruct (decide (k = prop_name p)) as [->|Hne]; [|by apply Hframe].
    rewrite (Hplain p) in Hpost by (by left || done). apply Hpost. }
  specialize (IH t1). cbn zeta in IH. rewrite Hty1, Hent1, Hids in IH.
  destruct (IH Hnd) as (Hok' & Hids' & Hframe' & Hpost').
  { intros prop Hin. apply Hkey. by right. }
  { intros prop Hin. apply Hplain. by right. }
  split; [done|]. split; [done|]. split.
  - intros k Hk. apply not_elem_of_cons in Hk as [Hkp Hk].
    destruct (Hframe' k Hk) as [-> ->]. by apply Hframe.
  - intros prop Hin. apply elem_of_cons in Hin as [-> | Hin].
    + destruct (Hframe' (prop_name p) Hp) as [-> ->].
      destruct (appliedRule (cs_type cs) p) as [rule|]; [|done].
      exists (data (entities t a)). by destruct Hpost.
    + assert (Hne : prop_name prop <> prop_name p).
      { intros Heq. apply Hp. rewrite <- Heq.
        exact (list_elem_of_fmap_2 prop_name ps prop Hin). }
      destruct (Hframe (prop_name prop) Hne) as [Hpay Hdata].
      specialize (Hpost' prop Hin).
      destruct (appliedRule (cs_type cs) prop) as [rule|].
      * destruct Hpost' as (d & Hp1 & Hd1 & Hagree). exists d.
        split; [done|]. split; [done|]. intros k Hk. rewrite (Hagree k Hk). by apply Hsame.
      * by rewrite <- Hpay, <- Hdata.
Qed.

(** All the change sets of a batch. *)
Lemma resolution_batch this meta : forall css t,
  let out := forEach (processProperties this) css t in
  let distinct := NoDup (map (fun c => entity (changeSets t c)) css) in
  NoDup css ->
  (forall c, c ∈ css -> metadata this (cs_name (changeSets t c)) = Some meta) ->
  NoDup (map prop_name (properties meta)) ->
  (forall c prop, c ∈ css -> prop ∈ properties meta ->
     cs_type (changeSets t c) = CREATE -> primary prop = true -> onCreate prop = None) ->
  out.1 = inr tt /\
  identifiers out.2 = identifiers t /\
  forall c, c ∈ css ->
    let cs := changeSets t c in
    let a := entity cs in
    let plain k := forall q, q ∈ properties meta -> prop_name q = k ->
                             appliedRule (cs_type cs) q = None in
    (forall k, k ∉ map prop_name (properties meta) ->
       payload (changeSets out.2 c) !! k = payload cs !! k) /\
    forall prop, prop ∈ properties meta ->
      match appliedRule (cs_type cs) prop with
      | Some rule => exists d,
          payload (changeSets out.2 c) !! prop_name prop = Some (rule d) /\
          (distinct ->
           data (entities out.2 a) !! prop_name prop = Some (rule d) /\
           forall k, plain k -> d !! k = data (entities t a) !! k)
      | None =>
          payload (changeSets out.2 c) !! prop_name prop
            = resolved (identifiers t) <$> payload cs !! prop_name prop /\
          (distinct -> data (entities out.2 a) !! prop_name prop
                         = data (entities t a) !! prop_name prop)
      end.
Proof.
  induction css as [|c0 cs0 IH]; intros t out distinct Hnd Hmeta Hnames Hkey.
  { subst out. cbn. split; [done|]. split; [done|].
    intros c Hc. by apply elem_of_nil in Hc. }
  apply list.NoDup_cons in Hnd as [Hc0 Hnd].
  (* the round of the first change set *)
  pose proof (processProperties_frame this c0 t) as Heff.
  assert (Hrun : processProperties this c0 t
                 = forEach (processProperty this c0) (properties meta) t).
  { unfold processProperties. mrun. rewrite (Hmeta c0) by (by left). reflexivity. }
  destruct (resolution_loop this c0
              (fun k => forall q, q ∈ properties meta -> prop_name q = k ->
                                  appliedRule (cs_type (changeSets t c0)) q = None)
              (properties meta) t Hnames)
    as (Hok & Hids & Hframe & Hpost).
  { intros prop Hin. apply Hkey; [by left | done]. }
  { intros prop Hin Hplain. by apply Hplain. }
  rewrite <- Hrun in Hok, Hids, Hframe, Hpost.
  subst out. cbn [forEach]. unfold bind.
  destruct (processProperties this c0 t) as [[err|[]] t1]; cbn [fst snd] in *; [done|].
  clear Hrun. destruct (eff_identity _ _ _ _ _ _ _ Heff) as [Hcs Hes].
  (* the rounds of the others *)
  pose proof (resolution_frame this cs0 t1) as (_ & Hothers & Hdata & _).
  specialize (IH t1). cbn zeta in IH.
  destruct (IH Hnd) as (Hok' & Hids' & Hpost').
  { intros c Hc. destruct (Hcs c) as (-> & _). apply Hmeta. by right. }
  { done. }
  { intros c prop Hc Hin. destruct (Hcs c) as (_ & -> & _).
    apply Hkey; [by right | done]. }
  clear IH. split; [done|]. split; [congruence|].
  assert (Hents : map (fun c => entity (changeSets t1 c)) cs0
                  = map (fun c => entity (changeSets t c)) cs0).
  { apply map_ext. intros c. by destruct (Hcs c) as (_ & _ & ->). }
  intros c Hc. apply elem_of_cons in Hc as [-> | Hc].
  - (* the first change set is not touched again *)
    rewrite (Hothers c0 Hc0). split; [intros k Hk; by apply Hframe|].
    intros prop Hin. specialize (Hpost prop Hin).
    assert (Hlater : distinct ->
              data (entities (forEach (processProperties this) cs0 t1).2
                      (entity (changeSets t c0)))
              = data (entities t1 (entity (changeSets t c0)))).
    { intros Hd. subst distinct. cbn in Hd. apply list.NoDup_cons in Hd as [Hd _].
      apply Hdata. by rewrite Hents. }
    destruct (appliedRule _ prop) as [rule|].
    + destruct Hpost as (d & Hp & Hd & Hagree). exists d. split; [done|].
      intros Hdist. by rewrite (Hlater Hdist).
    + destruct Hpost as [Hp Hd]. split; [done|]. intros Hdist. by rewrite (Hlater Hdist).
  - (* a later change set is as the first round found it *)
    assert (Hne : c <> c0) by (by intros ->).
    assert (Hsame : changeSets t1 c = changeSets t c).
    { apply Heff. done. }
    destruct (Hpost' c Hc) as [Hframe' Hprops].
    rewrite Hsame in Hframe', Hprops. rewrite Hids in Hprops.
    split; [done|]. intros prop Hin. specialize (Hprops prop Hin).
    assert (Hdist : distinct ->
              NoDup (map (fun c => entity (changeSets t1 c)) cs0) /\
              data (entities t1 (entity (changeSets t c)))
              = data (entities t (entity (changeSets t c)))).
    { intros Hd. subst distinct. cbn in Hd. apply list.NoDup_cons in Hd as [Hd0 Hd].
      split; [by rewrite Hents|].
      apply (effect_other_entity _ _ _ _ _ _ _ _ Heff). intros Heq. apply Hd0.
      rewrite <- Heq.
      exact (list_elem_of_fmap_2 (fun c => entity (changeSets t c)) cs0 c Hc). }
    destruct (appliedRule _ prop) as [rule|].
    + destruct Hprops as (d & Hp & Hd). exists d. split; [done|].
      intros Hd'. destruct (Hdist Hd') as [Hnd' Heq].
      destruct (Hd Hnd') as [Hdata' Hagree]. split; [done|].
      intros k Hk. rewrite (Hagree k Hk). by rewrite Heq.
    + destruct Hprops as [Hp Hd]. split; [done|].
      intros Hd'. destruct (Hdist Hd') as [Hnd' Heq]. rewrite (Hd Hnd'). by rewrite Heq.
Qed.

(** X16: property resolution replaces an identifier that a payload holds under a
    property of the type by the value that identifier holds when the batch
    starts, and by nothing more: the value is not resolved again, entries
    that are under no property of the type are left as they are, and the
    identifiers keep their values.  This holds for a batch of distinct
    change sets of one type with distinct property names whose key
    properties are not computed on create; resolution then returns. *)
Theorem resolution_resolves_identifiers :
  forall this meta css s,
    let out := forEach (processProperties this) css s in
    NoDup css ->
    (forall c, c ∈ css -> metadata this (cs_name (changeSets s c)) = Some meta) ->
    NoDup (map prop_name (properties meta)) ->
    (forall c prop, c ∈ css -> prop ∈ properties meta ->
       cs_type (changeSets s c) = CREATE -> primary prop = true -> onCreate prop = None) ->
    out.1 = inr tt /\
    (forall cell, identifiers out.2 cell = identifiers s cell) /\
    forall c, c ∈ css ->
      let cs := changeSets s c in
      (forall k, k ∉ map prop_name (properties meta) ->
         payload (changeSets out.2 c) !! k = payload cs !! k) /\
      (forall prop, prop ∈ properties meta ->
         appliedRule (cs_type cs) prop = None ->
         payload (changeSets out.2 c) !! prop_name prop
           = resolved (identifiers s) <$> payload cs !! prop_name prop).
Proof.
  intros this meta css s out Hnd Hmeta Hnames Hkey.
  destruct (resolution_batch this meta css s Hnd Hmeta Hnames Hkey) as (Hok & Hids & Hall).
  split; [done|]. split; [intros cell; exact (f_equal (fun f => f cell) Hids)|].
  intros c Hc cs. destruct (Hall c Hc) as [Hframe Hprops]. split; [done|].
  intros prop Hin Hrule. specialize (Hprops prop Hin). fold cs in Hprops.
  rewrite Hrule in Hprops. apply Hprops.
Qed.

(** A [Comment] whose payload refers to its author by the identifier 1,
    which holds 5 when the batch starts: the payload holds 5 after
    resolution. *)
Lemma resolution_resolves_identifiers_witness :
  let s := setValue 1 (VNum 5)
             (Sample.world Sample.Comment CREATE ∅ ∅
                {[ "author"%string := VIdentifier 1 ]} ∅) in
  let this := Sample.persister (Sample.constDriver (Sample.result 1 (VNum 42) None) None)
                Sample.Comment in
  payload (changeSets (forEach (processProperties this) [0; 1]%nat s).2 0%nat)
    !! "author"%string = Some (VNum 5).
Proof.
  intros s this.
  destruct (resolution_resolves_identifiers this Sample.Comment [0; 1]%nat s)
    as (_ & _ & Hall).
  - apply (bool_decide_unpack _). vm_compute. reflexivity.
  - intros c Hc. apply elem_of_cons in Hc as [-> | Hc]; [reflexivity|].
    apply list_elem_of_singleton in Hc as ->. reflexivity.
  - apply (bool_decide_unpack _). vm_compute. reflexivity.
  - intros c prop _ Hprop _ Hprim.
    apply elem_of_cons in Hprop as [-> | Hprop]; [reflexivity|].
    apply elem_of_cons in Hprop as [-> | Hprop]; [discriminate Hprim|].
    apply list_elem_of_singleton in Hprop as ->. discriminate Hprim.
  - destruct (Hall 0%nat ltac:(by left)) as [_ Hprops].
    apply (Hprops Sample.authorProp); [by right; left | reflexivity].
Defined.

(** X17: for a batch of distinct change sets on distinct entities of one type
    with distinct property names whose key properties are not computed on
    create: after property resolution, a property with a rule for the kind
    of the change set (compute-on-create for a CREATE, compute-on-update for
    an UPDATE) holds one and the same value in the payload and in the
    entity, namely what that rule computes from the entity, whose
    properties without such a rule are as they were when the batch started;
    and a property without such a rule holds in the entity what it held
    before, so that a rule of the other kind is not run. *)
Theorem resolution_computes_properties :
  forall this meta css s,
    let out := forEach (processProperties this) css s in
    NoDup css ->
    NoDup (map (fun c => entity (changeSets s c)) css) ->
    (forall c, c ∈ css -> metadata this (cs_name (changeSets s c)) = Some meta) ->
    NoDup (map prop_name (properties meta)) ->
    (forall c prop, c ∈ css -> prop ∈ properties meta ->
       cs_type (changeSets s c) = CREATE -> primary prop = true -> onCreate prop = None) ->
    forall c prop, c ∈ css -> prop ∈ properties meta ->
      let cs := changeSets s c in
      let plain k := forall q, q ∈ properties meta -> prop_name q = k ->
                               appliedRule (cs_type cs) q = None in
      match appliedRule (cs_type cs) prop with
      | Some rule => exists d,
          payload (changeSets out.2 c) !! prop_name prop = Some (rule d) /\
          data (entities out.2 (entity cs)) !! prop_name prop = Some (rule d) /\
          forall k, plain k -> d !! k = data (entities s (entity cs)) !! k
      | None =>
          data (entities out.2 (entity cs)) !! prop_name prop
            = data (entities s (entity cs)) !! prop_name prop
      end.
Proof.
  intros this meta css s out Hnd Hdist Hmeta Hnames Hkey c prop Hc Hin cs plain.
  destruct (resolution_batch this meta css s Hnd Hmeta Hnames Hkey) as (_ & _ & Hall).
  destruct (Hall c Hc) as [_ Hprops]. specialize (Hprops prop Hin). fold cs in Hprops.
  destruct (appliedRule (cs_type cs) prop) as [rule|].
  - destruct Hprops as (d & Hp & Hd). exists d. split; [done|]. by apply Hd.
  - destruct Hprops as [_ Hd]. by apply Hd.
Qed.

(** A [Comment] is created: its creation stamp is computed, and is the same
    in the payload and in the entity. *)
Lemma resolution_computes_properties_witness :
  let s := Sample.world Sample.Comment CREATE ∅ ∅ ∅ ∅ in
  let this := Sample.persister (Sample.constDriver (Sample.result 1 (VNum 42) None) None)
                Sample.Comment in
  let out := forEach (processProperties this) [0; 1]%nat s in
  payload (changeSets out.2 0%nat) !! "createdAt"%string = Some (VNum 1000) /\
  data (entities out.2 0%nat) !! "createdAt"%string = Some (VNum 1000).
Proof.
  intros s this out.
  destruct (resolution_computes_properties this Sample.Comment [0; 1]%nat s)
    with (c := 0%nat) (prop := Sample.createdAtProp) as (d & Hp & Hd & _).
  - apply (bool_decide_unpack _). vm_compute. reflexivity.
  - apply (bool_decide_unpack _). vm_compute. reflexivity.
  - intros c Hc. apply elem_of_cons in Hc as [-> | Hc]; [reflexivity|].
    apply list_elem_of_singleton in Hc as ->. reflexivity.
  - apply (bool_decide_unpack _). vm_compute. reflexivity.
  - intros c prop _ Hprop _ Hprim.
    apply elem_of_cons in Hprop as [-> | Hprop]; [reflexivity|].
    apply elem_of_cons in Hprop as [-> | Hprop]; [discriminate Hprim|].
    apply list_elem_of_singleton in Hprop as ->. discriminate Hprim.
  - by left.
  - by right; right; left.
  - split; [exact Hp | exact Hd].
Defined.

Lemma meta_prop_NoDup meta prop :
  NoDup (map prop_name (properties meta)) ->
  prop ∈ properties meta ->
  meta_prop meta (prop_name prop) = Some prop.
Proof.
  unfold meta_prop. induction (properties meta) as [|p ps IH]; intros Hnd Hin.
  { by apply elem_of_nil in Hin. }
  cbn in Hnd. apply list.NoDup_cons in Hnd as [Hp Hnd]. cbn.
  destruct (String.eqb (prop_name p) (prop_name prop)) eqn:Heq.
  - apply String.eqb_eq in Heq. apply elem_of_cons in Hin as [-> | Hin]; [done|].
    exfalso. apply Hp. rewrite Heq. exact (list_elem_of_fmap_2 prop_name ps prop Hin).
  - apply elem_of_cons in Hin as [-> | Hin]; [|by apply IH].
    by rewrite String.eqb_refl in Heq.
Qed.

(** The key property of a new entity, computed on create. *)
Lemma processProperty_computes_key this kp pk rule cell c t :
  let cs := changeSets t c in
  let a := entity cs in
  let e := entities t a in
  let out := processProperty this c kp t in
  cs_type cs = CREATE ->
  primaryKeys (__meta e) = [pk] ->
  meta_prop (__meta e) pk = Some kp ->
  prop_name kp = pk ->
  onCreate kp = Some rule ->
  primary kp = true ->
  isDefined (rule (data e)) true = true ->
  identifierMap this !! __uuid e = Some cell ->
  out.1 = inr tt /\
  data (entities out.2 a) !! pk = Some (rule (data e)) /\
  payload (changeSets out.2 c) !! pk = Some (rule (data e)) /\
  identifiers out.2 cell = rule (data e).
Proof.
  intros cs a e out Hty Hkeys Hprop Hname Hrule Hprim Hdef Hcell. subst out.
  unfold processProperty. mrun. fold cs. rewrite Hty, Hrule, Hprim.
  match goal with
  | |- context [let (_, _) := ?m in _] => destruct m as [[e1|[]] s1] eqn:E1
  end.
  { destruct (get _ _); mrun_in E1; congruence. }
  assert (H1 : entities s1 = entities t /\ identifiers s1 = identifiers t /\
               entity (changeSets s1 c) = a).
  { destruct (get _ _); mrun_in E1; injection E1 as <-; repeat split; try done.
    cbn. by rewrite fn_lookup_insert. }
  clear E1. destruct H1 as (H1 & Hid1 & Hent1). mrun. rewrite H1. fold a e.
  set (v := rule (data e)) in *.
  rewrite !fn_lookup_insert. cbn [__meta data set_data].
  set (s2 := upd_entity a _ _).
  assert (He2 : entities s2 a = set_data <[prop_name kp := v]> e).
  { subst s2. cbn. by rewrite H1, fn_lookup_insert. }
  assert (Hcs2 : entity (changeSets s2 c) = a).
  { subst s2. cbn. by rewrite fn_lookup_insert. }
  assert (Hp2 : payload (changeSets s2 c) !! pk = Some v).
  { subst s2. cbn. rewrite fn_lookup_insert. cbn. by rewrite Hname, lookup_insert_eq. }
  assert (Hkey : get__primaryKey (entities s2 a) = v).
  { rewrite He2. unfold get__primaryKey. cbn. rewrite Hkeys. cbn. rewrite Hname.
    unfold get. by rewrite lookup_insert_eq. }
  rewrite (mapPrimaryKey_run this (__meta e) kp cell);
    [| by rewrite Hkeys | by rewrite Hcs2, He2].
  cbn zeta. rewrite Hcs2, Hkey, Hdef. clearbody s2.
  assert (Hfinal : data (set__primaryKey v (entities s2 a)) !! pk = Some v).
  { unfold set__primaryKey. rewrite He2. cbn. rewrite Hkeys. cbn.
    by rewrite lookup_insert_eq. }
  destruct (onUpdate kp); cbn; rewrite !fn_lookup_insert;
    (split; [done|]); (split; [done|]); (split; [done|]);
    unfold get; by rewrite Hname, Hfinal.
Qed.

Lemma processProperty_loop_identity this c props t :
  same_identity t (forEach (processProperty this c) props t).2.
Proof.
  apply forEach_invariant; [apply same_identity_refl|].
  intros prop t1 _ H1. eapply same_identity_trans; [exact H1|].
  apply (processProperty_effect this false c (entity (changeSets t1 c))
           (fun _ => True) (fun _ => True)); done.
Qed.

(** X18: for a new entity of a type with a single-property key that is computed
    on create by a rule whose value is defined, property resolution returns
    and settles the key: the entity's key, the payload and the entity's
    identifier all hold the value the rule computes from the entity, whose
    properties without a compute-on-create rule, and the key property
    itself, are as they were before the resolution. *)
Theorem processProperties_computes_key :
  forall this meta kp pk rule cell c s,
    let cs := changeSets s c in
    let a := entity cs in
    let out := processProperties this c s in
    let settled k := forall q, q ∈ properties meta -> prop_name q = k ->
                               onCreate q = None \/ q = kp in
    let current (d : Dictionary) :=
      forall k, settled k -> d !! k = data (entities s a) !! k in
    metadata this (cs_name cs) = Some meta ->
    __meta (entities s a) = meta ->
    cs_type cs = CREATE ->
    primaryKeys meta = [pk] ->
    NoDup (map prop_name (properties meta)) ->
    kp ∈ properties meta ->
    prop_name kp = pk ->
    primary kp = true ->
    onCreate kp = Some rule ->
    (forall q, q ∈ properties meta -> primary q = true -> onCreate q = None \/ q = kp) ->
    (forall d, current d -> isDefined (rule d) true = true) ->
    identifierMap this !! __uuid (entities s a) = Some cell ->
    out.1 = inr tt /\
    exists d,
      current d /\
      get__primaryKey (entities out.2 a) = rule d /\
      payload (changeSets out.2 c) !! pk = Some (rule d) /\
      identifiers out.2 cell = rule d.
Proof.
  intros this meta kp pk rule cell c s cs a out settled current Hmeta Hemeta Hty Hkeys Hnd
    Hin Hname Hprim Hrule Hothers Hdef Hcell.
  subst out. unfold processProperties. mrun. fold cs. rewrite Hmeta. mrun.
  pose proof (meta_prop_NoDup meta kp Hnd Hin) as Hfind. rewrite Hname in Hfind.
  subst current settled.
  apply list_elem_of_split in Hin as (pre & post & Hsplit).
  rewrite Hsplit in Hnd, Hothers, Hdef |- *. clear Hsplit.
  rewrite map_app in Hnd. cbn in Hnd.
  apply list.NoDup_app in Hnd as (Hndpre & Hpre & Hnd).
  apply list.NoDup_cons in Hnd as [Hpost Hndpost].
  assert (Hpre' : forall q : EntityProperty, q ∈ pre -> prop_name q <> pk).
  { intros q Hq Heq. apply (Hpre (prop_name q)).
    - exact (list_elem_of_fmap_2 prop_name pre q Hq).
    - rewrite Heq, <- Hname. by left. }
  assert (Hpost' : forall q : EntityProperty, q ∈ post -> prop_name q <> pk).
  { intros q Hq Heq. apply Hpost. rewrite Hname, <- Heq.
    exact (list_elem_of_fmap_2 prop_name post q Hq). }
  assert (Hrules : forall q : EntityProperty,
            q ∈ pre \/ q ∈ post -> primary q = true -> onCreate q = None).
  { intros q Hq Hp. destruct (Hothers q) as [Hn | ->]; [| done | done |].
    - apply elem_of_app. destruct Hq; [by left | by right; right].
    - destruct Hq as [Hq | Hq]; [by destruct (Hpre' kp Hq) | by destruct (Hpost' kp Hq)]. }
  (* the properties before the key *)
  rewrite forEach_app.
  destruct (resolution_loop this c (fun _ => False) pre s Hndpre)
    as (Hok0 & _ & Hframe0 & Hpost0).
  { intros q Hq _. apply Hrules. by left. }
  { done. }
  pose proof (processProperty_loop_identity this c pre s) as [Hcs0 Hes0].
  fold cs a in Hframe0, Hpost0.
  destruct (forEach (processProperty this c) pre s) as [[err|[]] t] eqn:E0; [done|].
  cbn [snd] in *. clear Hok0 E0.
  destruct (Hcs0 c) as (_ & Hty0 & Hent0). fold cs a in Hty0, Hent0.
  destruct (Hes0 a) as [Hm0 Hu0].
  assert (Hagree : forall k,
            (forall q : EntityProperty, q ∈ pre ++ kp :: post -> prop_name q = k ->
                                        onCreate q = None \/ q = kp) ->
            data (entities t a) !! k = data (entities s a) !! k).
  { intros k Hk. destruct (decide (k ∈ map prop_name pre)) as [Hk'|Hk'].
    - apply list_elem_of_In, in_map_iff in Hk' as (q & <- & Hq).
      apply list_elem_of_In in Hq. specialize (Hpost0 q Hq).
      rewrite Hty in Hpost0. cbn [appliedRule] in Hpost0.
      destruct (Hk q) as [Hn | ->]; [apply elem_of_app; by left | done | |].
      + rewrite Hn in Hpost0. apply Hpost0.
      + by destruct (Hpre' kp Hq).
    - by apply Hframe0. }
  (* the key *)
  cbn [forEach]. unfold bind.
  pose proof (processProperty_computes_key this kp pk rule cell c t) as Hkp.
  cbn zeta in Hkp. rewrite Hty0, Hent0, Hm0, Hu0, Hemeta in Hkp.
  destruct (Hkp Hty Hkeys Hfind Hname Hrule Hprim (Hdef _ Hagree) Hcell)
    as (Hok1 & Hdata1 & Hpay1 & Hid1).
  clear Hkp.
  assert (Heff1 : same_identity t (processProperty this c kp t).2).
  { apply (processProperty_effect this false c (entity (changeSets t c))
             (fun _ => True) (fun _ => True)); done. }
  set (d := data (entities t a)) in *. clearbody d.
  destruct (processProperty this c kp t) as [[err|[]] t1]; [done|].
  cbn [snd] in *. destruct Heff1 as [Hcs1 Hes1].
  destruct (Hcs1 c) as (_ & Hty1 & Hent1). rewrite Hty0 in Hty1. rewrite Hent0 in Hent1.
  (* the properties after the key *)
  destruct (resolution_loop this c (fun _ => False) post t1 Hndpost)
    as (Hok2 & Hids2 & Hframe2 & _).
  { intros q Hq _. apply Hrules. by right. }
  { done. }
  pose proof (processProperty_loop_identity this c post t1) as [_ Hes2].
  destruct (Hframe2 pk) as [Hpay2 Hdata2].
  { by rewrite <- Hname. }
  rewrite Hent1 in Hdata2.
  destruct (forEach (processProperty this c) post t1) as [[err|[]] t2]; [done|].
  cbn [fst snd] in *. split; [done|]. exists d. split; [exact Hagree|]. split; [|split].
  - rewrite (get__primaryKey_simple _ pk).
    + unfold get. by rewrite Hdata2, Hdata1.
    + destruct (Hes2 a) as [-> _]. destruct (Hes1 a) as [-> _]. by rewrite Hm0, Hemeta.
  - by rewrite Hpay2.
  - by rewrite Hids2.
Qed.

(** A [Tag] named "alice", whose key is computed from its name on create,
    is resolved: the key, the payload and the identifier hold that name. *)
Lemma processProperties_computes_key_witness :
  let s := Sample.world Sample.Tag CREATE {[ "name"%string := VStr "alice" ]} ∅ ∅ ∅ in
  let this := Sample.persister (Sample.constDriver (Sample.result 1 VUndefined None) None)
                Sample.Tag in
  let out := processProperties this 0 s in
  out.1 = inr tt /\
  get__primaryKey (entities out.2 0%nat) = VStr "alice" /\
  payload (changeSets out.2 0%nat) !! "slug"%string = Some (VStr "alice") /\
  identifiers out.2 0%nat = VStr "alice".
Proof.
  intros s this out.
  assert (Hname : forall q : EntityProperty,
            q ∈ properties Sample.Tag -> prop_name q = "name"%string ->
            onCreate q = None \/ q = Sample.slugProp).
  { intros q Hq _. apply elem_of_cons in Hq as [-> | Hq]; [by left|].
    apply list_elem_of_singleton in Hq as ->. by right. }
  destruct (processProperties_computes_key this Sample.Tag Sample.slugProp "slug"
              (fun e => get e "name") 0%nat 0%nat s)
    as (Hok & d & Hd & Hkey & Hpay & Hid); try reflexivity.
  - apply (bool_decide_unpack _). vm_compute. reflexivity.
  - right. by left.
  - intros q Hq _. apply elem_of_cons in Hq as [-> | Hq]; [by left|].
    apply list_elem_of_singleton in Hq as ->. by right.
  - intros d Hd. unfold get. by rewrite (Hd "name"%string Hname).
  - assert (Hget : get d "name" = VStr "alice").
    { unfold get. by rewrite (Hd "name"%string Hname). }
    cbn beta in Hkey, Hpay, Hid. rewrite Hget in Hkey, Hpay, Hid.
    split; [exact Hok|]. split; [exact Hkey|]. split; [exact Hpay | exact Hid].
Defined.

(** ** Driver errors *)

Section Faithful.

Variables (d : IDatabaseDriver) (n : nat).

Lemma answered_snoc h call :
  answered d n h -> refusal d h call = None -> answered d n (h ++ [call]).
Proof.
  intros [Hn Hh] Hcall. split; [rewrite length_app; lia|].
  intros h' call' rest Heq Hn'.
  destruct rest as [|r rest _] using rev_ind.
  - apply app_inj_tail in Heq as [<- <-]. done.
  - rewrite app_comm_cons, app_assoc in Heq. apply app_inj_tail in Heq as [-> _].
    by apply (Hh h' call' rest).
Qed.

Lemma faithful_bind {A B} (m : M A) (k : A -> M B) s :
  faithful d n (m s) ->
  (forall x s', m s = (inr x, s') -> answered d n (calls s') -> faithful d n (k x s')) ->
  faithful d n (bind m k s).
Proof.
  unfold bind. intros Hm Hk. destruct (m s) as [[e|x] s'] eqn:E; [exact Hm|].
  by apply Hk.
Qed.

Lemma faithful_forEach {A} (f : A -> M unit) xs :
  (forall x s, x ∈ xs -> answered d n (calls s) -> faithful d n (f x s)) ->
  forall s, answered d n (calls s) -> faithful d n (forEach f xs s).
Proof.
  induction xs as [|x xs IH]; intros Hf s Hs; [done|].
  cbn. apply faithful_bind; [apply Hf; [by left | done]|].
  intros [] s' _ Hs'. apply IH; [|done]. intros y t Hy. apply Hf. by right.
Qed.

(** A step that does not call the driver and does not throw its errors. *)
Lemma faithful_silent {A} (out : (Exception + A) * State) s :
  calls out.2 = calls s ->
  (forall e, out.1 = inl e -> e = TypeError) ->
  answered d n (calls s) ->
  faithful d n out.
Proof.
  intros Hcalls Hthrow Hs. unfold faithful. rewrite Hcalls.
  destruct out.1 as [[e| |]|]; try done. by specialize (Hthrow _ eq_refl).
Qed.

Lemma faithful_await {A} call (answer : list DriverCall -> DriverException + A) s :
  (forall h, refusal d h call = match answer h with inl e => Some e | inr _ => None end) ->
  answered d n (calls s) ->
  faithful d n (await call answer s).
Proof.
  intros Hcall Hs. unfold await, faithful. specialize (Hcall (calls s)).
  destruct (answer (calls s)) as [e|a]; cbn.
  - by exists (calls s), call.
  - by apply answered_snoc.
Qed.

End Faithful.

Section FaithfulMethods.

Variables (this : ChangeSetPersister) (n : nat).

Local Abbreviation faithful' := (faithful (driver this) n).
Local Abbreviation answered' := (answered (driver this) n).

Lemma faithful_ret {A} (a : A) s : answered' (calls s) -> faithful' (ret a s).
Proof. done. Qed.

Lemma faithful_gets {A} (f : State -> A) s : answered' (calls s) -> faithful' (gets f s).
Proof. done. Qed.

Lemma faithful_modify (g : State -> State) s :
  calls (g s) = calls s -> answered' (calls s) -> faithful' (modify g s).
Proof. intros Hg Hs. unfold faithful, modify. cbn. by rewrite Hg. Qed.

Lemma faithful_deref {A} (o : option A) s : answered' (calls s) -> faithful' (deref o s).
Proof. by destruct o. Qed.

Lemma processProperties_faithful c s :
  answered' (calls s) -> faithful' (processProperties this c s).
Proof.
  apply faithful_silent.
  - apply processProperties_in_memory.
  - apply processProperties_throws.
Qed.

Lemma mapReturnedValues_faithful a res meta s :
  answered' (calls s) -> faithful' (mapReturnedValues this a res meta s).
Proof.
  apply faithful_silent.
  - apply mapReturnedValues_calls.
  - apply mapReturnedValues_throws.
Qed.

Lemma mapPrimaryKey_faithful meta v c s :
  answered' (calls s) -> faithful' (mapPrimaryKey this meta v c s).
Proof.
  apply faithful_silent.
  - apply mapPrimaryKey_in_memory.
  - apply mapPrimaryKey_throws.
Qed.

Lemma markAsPopulated_faithful c meta s :
  answered' (calls s) -> faithful' (markAsPopulated c meta s).
Proof.
  apply faithful_silent.
  - apply markAsPopulated_calls.
  - apply markAsPopulated_throws.
Qed.

Lemma updateEntity_faithful meta c ctx s :
  answered' (calls s) -> faithful' (updateEntity this meta c ctx s).
Proof.
  intros Hs. unfold updateEntity.
  apply faithful_bind; [by apply faithful_deref|]. intros m s0 _ H0.
  apply faithful_bind; [by apply faithful_gets|]. intros cs s1 _ H1.
  apply faithful_bind; [by apply faithful_gets|]. intros e s2 _ H2.
  by apply faithful_await.
Qed.

Lemma processOptimisticLock_faithful meta c res ctx s :
  answered' (calls s) -> faithful' (processOptimisticLock this meta c res ctx s).
Proof.
  intros Hs. unfold processOptimisticLock.
  apply faithful_bind; [by apply faithful_deref|]. intros m s0 _ H0.
  destruct (versionProperty m) as [vp|]; [|by apply faithful_ret].
  apply faithful_bind; [by apply faithful_gets|]. intros cs s1 _ H1.
  destruct (match cs_type cs with UPDATE => _ | _ => _ end); [done|].
  apply faithful_bind; [by apply faithful_gets|]. intros wrapped s2 _ H2.
  apply faithful_bind; [by apply faithful_await|]. intros found s3 _ H3.
  apply faithful_bind; [by apply faithful_deref|]. intros e s4 _ H4.
  by apply faithful_modify.
Qed.

Lemma persistNewEntity_faithful c ctx s :
  answered' (calls s) -> faithful' (persistNewEntity this c ctx s).
Proof.
  intros Hs. unfold persistNewEntity.
  apply faithful_bind; [by apply faithful_gets|]. intros cs s0 _ H0.
  apply faithful_bind; [by apply faithful_await|]. intros res s1 _ H1.
  apply faithful_bind; [by apply faithful_gets|]. intros wrapped s2 _ H2.
  apply faithful_bind; [by apply mapReturnedValues_faithful|]. intros [] s3 _ H3.
  apply faithful_bind.
  { destruct (isDefined _ _); [by apply faithful_ret | by apply mapPrimaryKey_faithful]. }
  intros [] s4 _ H4.
  apply faithful_bind; [by apply markAsPopulated_faithful|]. intros [] s5 _ H5.
  apply faithful_bind; [by apply faithful_modify|]. intros [] s6 _ H6.
  apply faithful_bind; [by apply processOptimisticLock_faithful|]. intros [] s7 _ H7.
  by apply faithful_modify.
Qed.

Lemma persistManagedEntity_faithful c ctx s :
  answered' (calls s) -> faithful' (persistManagedEntity this c ctx s).
Proof.
  intros Hs. unfold persistManagedEntity.
  apply faithful_bind; [by apply faithful_gets|]. intros cs s0 _ H0.
  apply faithful_bind; [by apply updateEntity_faithful|]. intros res s1 _ H1.
  apply faithful_bind; [by apply mapReturnedValues_faithful|]. intros [] s2 _ H2.
  apply faithful_bind; [by apply processOptimisticLock_faithful|]. intros [] s3 _ H3.
  by apply faithful_modify.
Qed.

Lemma executeDeletes_faithful getPrimaryKeyHash css ctx s :
  answered' (calls s) -> faithful' (executeDeletes getPrimaryKeyHash this css ctx s).
Proof.
  intros Hs. unfold executeDeletes.
  apply faithful_bind; [by apply faithful_deref|]. intros c0 s0 _ H0.
  apply faithful_bind; [by apply faithful_gets|]. intros cs0 s1 _ H1.
  apply faithful_bind; [by apply faithful_gets|]. intros e0 s2 _ H2.
  destruct (compositePK _).
  - apply faithful_bind; [by apply faithful_gets|]. intros pks s3 _ H3.
    apply faithful_bind; [by apply faithful_await|]. intros r s4 _ H4.
    by apply faithful_ret.
  - apply faithful_bind; [by apply faithful_gets|]. intros pks s3 _ H3.
    apply faithful_bind; [by apply faithful_await|]. intros r s4 _ H4.
    by apply faithful_ret.
Qed.

End FaithfulMethods.

(** ** A driver error aborts the batch *)

(** A call that the driver refuses is reported, and is the last one. *)
Lemma refused_call_is_last {A} d n (out : (Exception + A) * State) h call rest e :
  faithful d n out ->
  calls out.2 = h ++ call :: rest ->
  (n <= length h)%nat ->
  refusal d h call = Some e ->
  out.1 = inl (DriverError e) /\ rest = [].
Proof.
  unfold faithful. intros Hout Hlog Hn Hcall.
  assert (Hanswered : forall l, answered d n l -> forall r, l = h ++ call :: r -> False).
  { intros l [_ Hl] r Heq. specialize (Hl h call r Heq Hn). congruence. }
  destruct out.1 as [[e'| |]|]; try (by destruct (Hanswered _ Hout rest)).
  destruct Hout as (h' & call' & Hlog' & Hcall' & Hh'). rewrite Hlog' in Hlog.
  destruct rest as [|r rest _] using rev_ind.
  - apply app_inj_tail in Hlog as [-> ->]. split; [congruence | done].
  - rewrite app_comm_cons, app_assoc in Hlog. apply app_inj_tail in Hlog as [Hlog _].
    by destruct (Hanswered _ Hh' rest).
Qed.

Lemma answered_start d l : answered d (length l) l.
Proof.
  split; [done|]. intros h call rest Heq Hn. rewrite Heq, length_app in Hn. cbn in Hn. lia.
Qed.

(** The driver error of an insert step is the refusal of its write or of
    the version lookup that follows it. *)
Lemma persistNewEntity_refused this c ctx s e s' :
  let cs := changeSets s c in
  let write := NativeInsert (cs_name cs) (payload cs) ctx in
  persistNewEntity this c ctx s = (inl (DriverError e), s') ->
  calls s' = calls s ++ [write] \/
  exists meta vp,
    metadata this (cs_name cs) = Some meta /\ versionProperty meta = Some vp /\
    calls s' = calls s ++ [write; FindOne (meta_name meta)
                                    (get__primaryKey (entities s' (entity cs))) [vp] ctx].
Proof.
  intros cs write. unfold persistNewEntity. mrun. fold cs write.
  destruct (nativeInsert _ _ _ _ _) as [e0|res]; mrun; [intros [= _ <-]; by left|].
  set (s1 := log write s).
  assert (H1 : calls s1 = calls s ++ [write] /\ changeSets s1 = changeSets s) by done.
  clearbody s1. destruct H1 as [H1 K1].
  pose proof (mapReturnedValues_calls this (entity cs) res (metadata this (cs_name cs)) s1)
    as H2.
  pose proof (mapReturnedValues_changeSets this (entity cs) res
                (metadata this (cs_name cs)) s1) as K2.
  pose proof (mapReturnedValues_throws this (entity cs) res
                (metadata this (cs_name cs)) s1) as T2.
  destruct (mapReturnedValues _ _ _ _ s1) as [[e2|[]] s2]; cbn in *.
  { intros [= -> _]. by specialize (T2 _ eq_refl). }
  clear T2.
  match goal with
  | |- (let (_, _) := ?m in _) = _ -> _ => destruct m as [r3 s3] eqn:E3
  end.
  assert (H3 : calls s3 = calls s2 /\ changeSets s3 = changeSets s2 /\
               forall e3, r3 = inl e3 -> e3 = TypeError).
  { destruct (isDefined _ _); [by injection E3 as <- <-|].
    destruct (mapPrimaryKey_in_memory this (metadata this (cs_name cs)) (insertId res) c s2)
      as [Hc _].
    pose proof (mapPrimaryKey_changeSets this (metadata this (cs_name cs)) (insertId res)
                  c s2) as Hcs.
    pose proof (mapPrimaryKey_throws this (metadata this (cs_name cs)) (insertId res) c s2)
      as Ht.
    rewrite E3 in Hc, Hcs, Ht. cbn in *. auto. }
  clear E3. destruct H3 as (H3 & K3 & T3). destruct r3 as [e3|[]].
  { intros [= -> _]. by specialize (T3 _ eq_refl). }
  clear T3.
  pose proof (markAsPopulated_calls c (metadata this (cs_name cs)) s3) as H4.
  pose proof (markAsPopulated_changeSets c (metadata this (cs_name cs)) s3) as K4.
  pose proof (markAsPopulated_throws c (metadata this (cs_name cs)) s3) as T4.
  destruct (markAsPopulated _ _ s3) as [[e4|[]] s4]; cbn in *.
  { intros [= -> _]. by specialize (T4 _ eq_refl). }
  clear T4.
  set (s5 := upd_entity _ _ s4).
  assert (H5 : calls s5 = calls s ++ [write] /\ changeSets s5 c = cs).
  { subst s5. cbn. split; [congruence|]. by rewrite K4, K3, K2, K1. }
  clearbody s5. destruct H5 as [H5 K5].
  unfold processOptimisticLock. destruct (metadata this (cs_name cs)) as [meta|]; mrun;
    [|done].
  destruct (versionProperty meta) as [vp|] eqn:Hvp; mrun; [|done].
  rewrite K5.
  destruct (match cs_type cs with UPDATE => _ | _ => _ end); mrun; [done|].
  destruct (findOne _ _ _ _ _ _) as [e6|[found|]]; mrun; [|done..].
  intros [= _ <-]. right. exists meta, vp. split; [done|]. split; [done|].
  cbn. by rewrite H5, <- app_assoc.
Qed.

(** The driver error of an update step is the refusal of its write or of
    the version lookup that follows it. *)
Lemma persistManagedEntity_refused this c ctx s e s' :
  let cs := changeSets s c in
  persistManagedEntity this c ctx s = (inl (DriverError e), s') ->
  exists meta,
    metadata this (cs_name cs) = Some meta /\
    let write := NativeUpdate (cs_name cs) (updateCond meta (entities s (entity cs)))
                   (payload cs) ctx in
    (calls s' = calls s ++ [write] \/
     exists vp,
       versionProperty meta = Some vp /\
       calls s' = calls s ++ [write; FindOne (meta_name meta)
                                       (get__primaryKey (entities s' (entity cs))) [vp] ctx]).
Proof.
  intros cs. unfold persistManagedEntity, updateEntity. mrun. fold cs.
  destruct (metadata this (cs_name cs)) as [meta|]; mrun; [|done].
  intros Hrun. exists meta. split; [done|]. revert Hrun.
  set (write := NativeUpdate _ _ _ _).
  destruct (nativeUpdate _ _ _ _ _ _) as [e0|res]; mrun; [intros [= _ <-]; by left|].
  set (s1 := log write s).
  assert (H1 : calls s1 = calls s ++ [write] /\ changeSets s1 = changeSets s) by done.
  clearbody s1. destruct H1 as [H1 K1].
  pose proof (mapReturnedValues_calls this (entity cs) res (Some meta) s1) as H2.
  pose proof (mapReturnedValues_changeSets this (entity cs) res (Some meta) s1) as K2.
  pose proof (mapReturnedValues_throws this (entity cs) res (Some meta) s1) as T2.
  destruct (mapReturnedValues _ _ _ _ s1) as [[e2|[]] s2]; cbn in *.
  { intros [= -> _]. by specialize (T2 _ eq_refl). }
  clear T2.
  unfold processOptimisticLock. mrun.
  destruct (versionProperty meta) as [vp|] eqn:Hvp; mrun; [|done].
  rewrite K2, K1. fold cs.
  destruct (match cs_type cs with UPDATE => _ | _ => _ end); mrun; [done|].
  destruct (findOne _ _ _ _ _ _) as [e6|[found|]]; mrun; [|done..].
  intros [= _ <-]. right. exists vp. split; [done|].
  cbn. by rewrite H2, H1, <- app_assoc.
Qed.

(** A loop of persisting steps that stops at the step of [c]: the change
    sets before [c] are persisted, the ones after it and their entities are
    as they were when the loop started. *)
Lemma aborted_step (f : nat -> M unit) pre c post s1 s2 s3 err :
  (forall c s, effect true c (entity (changeSets s c)) (fun _ => True) (fun _ => True) s
                 (f c s).2) ->
  (forall c s s', f c s = (inr tt, s') -> persisted (changeSets s' c) = true) ->
  NoDup (pre ++ c :: post) ->
  NoDup (map (fun c' => entity (changeSets s1 c')) (pre ++ c :: post)) ->
  forEach f pre s1 = (inr tt, s2) ->
  f c s2 = (inl err, s3) ->
  forEach f (pre ++ c :: post) s1 = (inl err, s3) /\
  (forall c', c' ∈ pre -> persisted (changeSets s3 c') = true) /\
  (forall c', c' ∈ post ->
     changeSets s3 c' = changeSets s1 c' /\
     data (entities s3 (entity (changeSets s1 c')))
       = data (entities s1 (entity (changeSets s1 c'))) /\
     __initialized (entities s3 (entity (changeSets s1 c')))
       = __initialized (entities s1 (entity (changeSets s1 c')))).
Proof.
  intros Hframe Hpers Hnd Hnde Hpre Hfail.
  destruct (persist_loop_done f pre s1 s2 Hframe Hpers Hpre) as [_ Hdone].
  assert (Hrun : forEach f (pre ++ [c]) s1 = (inl err, s3)).
  { rewrite forEach_app, Hpre. cbn. unfold bind. by rewrite Hfail. }
  assert (Hinv : batch_frame (pre ++ [c]) s1 s3).
  { replace s3 with (forEach f (pre ++ [c]) s1).2 by (by rewrite Hrun).
    apply forEach_invariant; [apply batch_frame_refl|].
    intros c' s Hc' Hs. eapply batch_frame_step; [exact Hs | exact Hc' | apply Hframe]. }
  destruct Hinv as (_ & Hcs & Hent & _).
  split; [|split].
  - rewrite forEach_app, Hpre. cbn. unfold bind. by rewrite Hfail.
  - intros c' Hc'. specialize (Hdone c' Hc'). pose proof (Hframe c s2) as Heff.
    rewrite Hfail in Heff. cbn in Heff.
    destruct (eff_persisted _ _ _ _ _ _ _ Heff c') as [-> | [_ ->]]; done.
  - intros c' Hc'.
    replace (pre ++ c :: post) with ((pre ++ [c]) ++ post) in Hnd, Hnde
      by (by rewrite <- app_assoc).
    apply list.NoDup_app in Hnd as (_ & Hnd & _).
    rewrite map_app in Hnde. apply list.NoDup_app in Hnde as (_ & Hnde & _).
    split; [|apply Hent].
    + apply Hcs. intros Hin. by apply (Hnd c' Hin).
    + intros Hin. apply (Hnde _ Hin).
      exact (list_elem_of_fmap_2 (fun c => entity (changeSets s1 c)) post c' Hc').
Qed.

(** C8 (as the code has it): when the driver refuses a call that the step of
    the k-th change set of an insert or update batch issues, be it the write
    or the version lookup that follows it, the batch fails with that very
    error and the refused call is the last driver call; every change set
    before the k-th is persisted; every change set after it, and the
    properties of its entity, are as property resolution left them, which
    runs over the whole batch before the first write and is the only step to
    have touched them.  The refused call is the write of the k-th change
    set, after the calls of the change sets before it, or the lookup of the
    version on the key of its entity, after that write. *)
Theorem driver_failure_aborts_batch :
  forall this pre c post ctx s,
    let css := pre ++ c :: post in
    let s1 := (forEach (processProperties this) css s).2 in
    let untouched (out : State) :=
      forall c', c' ∈ post ->
        changeSets out c' = changeSets s1 c' /\
        data (entities out (entity (changeSets s1 c')))
          = data (entities s1 (entity (changeSets s1 c'))) /\
        __initialized (entities out (entity (changeSets s1 c')))
          = __initialized (entities s1 (entity (changeSets s1 c'))) in
    let aborted (out : (Exception + unit) * State) e h call :=
      out.1 = inl (DriverError e) /\
      calls out.2 = h ++ [call] /\
      (forall c', c' ∈ pre -> persisted (changeSets out.2 c') = true) /\
      untouched out.2 in
    let lookup (out : (Exception + unit) * State) s2 write h call :=
      exists meta vp,
        metadata this (cs_name (changeSets s2 c)) = Some meta /\
        versionProperty meta = Some vp /\
        h = calls s2 ++ [write] /\
        call = FindOne (meta_name meta)
                 (get__primaryKey (entities out.2 (entity (changeSets s2 c)))) [vp] ctx in
    NoDup css ->
    NoDup (map (fun c' => entity (changeSets s c')) css) ->
    (forEach (processProperties this) css s).1 = inr tt ->
    (forall s2 e,
       let cs := changeSets s2 c in
       let write := NativeInsert (cs_name cs) (payload cs) ctx in
       let out := executeInserts this css ctx s in
       forEach (fun c' => persistNewEntity this c' ctx) pre s1 = (inr tt, s2) ->
       (nativeInsert (driver this) (calls s2) (cs_name cs) (payload cs) ctx = inl e ->
        aborted out e (calls s2) write) /\
       (forall h call rest,
          calls (persistNewEntity this c ctx s2).2 = h ++ call :: rest ->
          (length (calls s2) <= length h)%nat ->
          refusal (driver this) h call = Some e ->
          aborted out e h call /\
          (h = calls s2 /\ call = write \/ lookup out s2 write h call))) /\
    (forall s2 e meta,
       let cs := changeSets s2 c in
       let cond := updateCond meta (entities s2 (entity cs)) in
       let write := NativeUpdate (cs_name cs) cond (payload cs) ctx in
       let out := executeUpdates this css ctx s in
       forEach (fun c' => persistManagedEntity this c' ctx) pre s1 = (inr tt, s2) ->
       metadata this (cs_name cs) = Some meta ->
       (nativeUpdate (driver this) (calls s2) (cs_name cs) cond (payload cs) ctx = inl e ->
        aborted out e (calls s2) write) /\
       (forall h call rest,
          calls (persistManagedEntity this c ctx s2).2 = h ++ call :: rest ->
          (length (calls s2) <= length h)%nat ->
          refusal (driver this) h call = Some e ->
          aborted out e h call /\
          (h = calls s2 /\ call = write \/ lookup out s2 write h call))).
Proof.
  intros this pre c post ctx s css s1 untouched aborted lookup Hnd Hnde Hres.
  assert (Hrun : forEach (processProperties this) css s = (inr tt, s1)).
  { subst s1. destruct (forEach _ css s) as [[e|[]] t]; cbn in *; done. }
  assert (Hnde1 : NoDup (map (fun c' => entity (changeSets s1 c')) css)).
  { erewrite map_ext; [exact Hnde|]. intros c'. cbn.
    destruct (resolution_identity this css s) as [Hid _]. apply Hid. }
  split.
  - intros s2 e cs write out Hpre.
    assert (Hstep : forall err s3,
              persistNewEntity this c ctx s2 = (inl err, s3) ->
              out = (inl err, s3) /\
              (forall c', c' ∈ pre -> persisted (changeSets s3 c') = true) /\
              untouched s3).
    { intros err s3 Hfail.
      destruct (aborted_step (fun c' => persistNewEntity this c' ctx) pre c post s1 s2 s3 err)
        as (Hout & Hdone & Hrest); auto using persistNewEntity_frame.
      { intros c0 t t'. apply persistNewEntity_persisted. }
      split; [|done]. subst out. unfold executeInserts, bind. fold css. rewrite Hrun.
      exact Hout. }
    split.
    + intros Hfail.
      destruct (Hstep (DriverError e) (log write s2)) as (-> & Hdone & Hrest);
        [by apply persistNewEntity_insert_fails | done].
    + intros h call rest Hlog Hn Hcall.
      destruct (refused_call_is_last (driver this) (length (calls s2))
                  (persistNewEntity this c ctx s2) h call rest e) as [Herr ->];
        [apply persistNewEntity_faithful, answered_start | done..|].
      destruct (persistNewEntity this c ctx s2) as [r s3] eqn:Estep. cbn in Herr, Hlog.
      subst r. destruct (Hstep _ _ eq_refl) as (-> & Hdone & Hrest).
      split; [done|]. cbn.
      destruct (persistNewEntity_refused this c ctx s2 e s3 Estep)
        as [Hw | (meta & vp & Hmeta & Hvp & Hw)]; fold cs write in Hw; rewrite Hw in Hlog.
      * left. by apply app_inj_tail in Hlog as [<- <-].
      * right. exists meta, vp.
        change (calls s2 ++ [write; ?l]) with (calls s2 ++ [write] ++ [l]) in Hlog.
        rewrite app_assoc in Hlog. by apply app_inj_tail in Hlog as [<- <-].
  - intros s2 e meta cs cond write out Hpre Hmeta.
    assert (Hstep : forall err s3,
              persistManagedEntity this c ctx s2 = (inl err, s3) ->
              out = (inl err, s3) /\
              (forall c', c' ∈ pre -> persisted (changeSets s3 c') = true) /\
              untouched s3).
    { intros err s3 Hfail.
      destruct (aborted_step (fun c' => persistManagedEntity this c' ctx) pre c post
                  s1 s2 s3 err)
        as (Hout & Hdone & Hrest); auto using persistManagedEntity_frame.
      { intros c0 t t'. apply persistManagedEntity_persisted. }
      split; [|done]. subst out. unfold executeUpdates, bind. fold css. rewrite Hrun.
      exact Hout. }
    split.
    + intros Hfail.
      destruct (Hstep (DriverError e) (log write s2)) as (-> & Hdone & Hrest);
        [by apply persistManagedEntity_update_fails | done].
    + intros h call rest Hlog Hn Hcall.
      destruct (refused_call_is_last (driver this) (length (calls s2))
                  (persistManagedEntity this c ctx s2) h call rest e) as [Herr ->];
        [apply persistManagedEntity_faithful, answered_start | done..|].
      destruct (persistManagedEntity this c ctx s2) as [r s3] eqn:Estep. cbn in Herr, Hlog.
      subst r. destruct (Hstep _ _ eq_refl) as (-> & Hdone & Hrest).
      split; [done|]. cbn.
      destruct (persistManagedEntity_refused this c ctx s2 e s3 Estep)
        as (meta' & Hmeta' & Hw).
      fold cs in Hmeta'. rewrite Hmeta in Hmeta'. injection Hmeta' as <-.
      cbn zeta in Hw. fold cs cond write in Hw.
      destruct Hw as [Hw | (vp & Hvp & Hw)]; rewrite Hw in Hlog.
      * left. by apply app_inj_tail in Hlog as [<- <-].
      * right. exists meta, vp.
        change (calls s2 ++ [write; ?l]) with (calls s2 ++ [write] ++ [l]) in Hlog.
        rewrite app_assoc in Hlog. by apply app_inj_tail in Hlog as [<- <-].
Qed.

(** Two users are inserted and the driver refuses the lookup of the version
    of the first: the call fails with the driver's error, the refused
    lookup is the last call, and the second change set and its entity are
    as property resolution left them.  Two articles are updated and the
    driver refuses the first write: the same holds, with that write as the
    only call. *)
Lemma driver_failure_aborts_batch_witness :
  let s := Sample.world Sample.User CREATE ∅ ∅ ∅ ∅ in
  let this := Sample.persister
                (Sample.lookupFailingDriver (Sample.result 1 (VNum 42) None) "boom")
                Sample.User in
  let s1 := (forEach (processProperties this) [0; 1]%nat s).2 in
  let out := executeInserts this [0; 1]%nat None s in
  let s' := Sample.world Sample.Article UPDATE {[ "id"%string := VNum 1 ]}
              {[ "id"%string := VNum 2 ]} ∅ ∅ in
  let this' := Sample.persister (Sample.failingDriver "boom") Sample.Article in
  let s1' := (forEach (processProperties this') [0; 1]%nat s').2 in
  let out' := executeUpdates this' [0; 1]%nat None s' in
  (out.1 = inl (DriverError "boom") /\
   calls out.2 = [NativeInsert "User" ∅ None;
                  FindOne "User" (VNum 42) ["version"%string] None] /\
   changeSets out.2 1%nat = changeSets s1 1%nat /\
   data (entities out.2 1%nat) = data (entities s1 1%nat)) /\
  (out'.1 = inl (DriverError "boom") /\
   calls out'.2 = [NativeUpdate "Article" (VNum 1)
                     {[ "updatedAt"%string := VNum 1000 ]} None] /\
   changeSets out'.2 1%nat = changeSets s1' 1%nat /\
   data (entities out'.2 1%nat) = data (entities s1' 1%nat)).
Proof.
  intros s this s1 out s' this' s1' out'. split.
  - destruct (driver_failure_aborts_batch this [] 0%nat [1%nat] None s) as [Hins _].
    + apply (bool_decide_unpack _). vm_compute. reflexivity.
    + apply (bool_decide_unpack _). vm_compute. reflexivity.
    + reflexivity.
    + destruct (Hins s1 "boom"%string eq_refl) as [_ Hcall].
      destruct (Hcall [NativeInsert "User" ∅ None]
                  (FindOne "User" (VNum 42) ["version"%string] None) [])
        as [(Hfail & Hcalls & _ & Hrest) _].
      * vm_compute. reflexivity.
      * vm_compute. lia.
      * reflexivity.
      * destruct (Hrest 1%nat ltac:(by left)) as (Hcs & Hdata & _).
        split; [exact Hfail|]. split; [exact Hcalls|]. split; [exact Hcs | exact Hdata].
  - destruct (driver_failure_aborts_batch this' [] 0%nat [1%nat] None s') as [_ Hupd].
    + apply (bool_decide_unpack _). vm_compute. reflexivity.
    + apply (bool_decide_unpack _). vm_compute. reflexivity.
    + reflexivity.
    + destruct (Hupd s1' "boom"%string Sample.Article eq_refl eq_refl) as [Hwrite _].
      destruct (Hwrite eq_refl) as (Hfail & Hcalls & _ & Hrest).
      destruct (Hrest 1%nat ltac:(by left)) as (Hcs & Hdata & _).
      split; [exact Hfail|]. split; [exact Hcalls|]. split; [exact Hcs | exact Hdata].
Defined.

(** The same update batch: the second change set is never sent to the
    driver, yet its payload and its entity have been changed by the call, by
    the compute-on-update rule that property resolution ran on the whole
    batch before the first write. *)
Lemma later_change_set_is_resolved :
  let s := Sample.world Sample.Article UPDATE {[ "id"%string := VNum 1 ]}
             {[ "id"%string := VNum 2 ]} ∅ ∅ in
  let this := Sample.persister (Sample.failingDriver "boom") Sample.Article in
  let out := executeUpdates this [0; 1]%nat None s in
  out.1 = inl (DriverError "boom") /\
  length (calls out.2) = 1%nat /\
  payload (changeSets s 1%nat) !! "updatedAt"%string = None /\
  payload (changeSets out.2 1%nat) !! "updatedAt"%string = Some (VNum 1000) /\
  data (entities s 1%nat) !! "updatedAt"%string = None /\
  data (entities out.2 1%nat) !! "updatedAt"%string = Some (VNum 1000).
Proof. vm_compute. repeat split. Qed.

(** X19: the three batch operations report the driver faithfully.  When one
    of them throws a driver error, that error is the one with which the
    driver refused the last call of the log, be it a write or a lookup, and
    the driver answered every call the operation made before; when it
    returns or throws another error, the driver answered every call the
    operation made.  So a driver error is passed on as it is, it ends the
    batch, and it is never swallowed. *)
Theorem driver_errors_are_reported :
  forall getPrimaryKeyHash this css ctx s,
    faithful (driver this) (length (calls s)) (executeInserts this css ctx s) /\
    faithful (driver this) (length (calls s)) (executeUpdates this css ctx s) /\
    faithful (driver this) (length (calls s))
      (executeDeletes getPrimaryKeyHash this css ctx s).
Proof.
  intros gh this css ctx s.
  assert (Hs : answered (driver this) (length (calls s)) (calls s)).
  { split; [done|]. intros h call rest Heq Hn. rewrite Heq, length_app in Hn. cbn in Hn. lia. }
  split; [|split].
  - unfold executeInserts. apply faithful_bind.
    + apply faithful_forEach; [|done]. intros c t _. apply processProperties_faithful.
    + intros [] s1 _ H1. apply faithful_forEach; [|done].
      intros c t _. apply persistNewEntity_faithful.
  - unfold executeUpdates. apply faithful_bind.
    + apply faithful_forEach; [|done]. intros c t _. apply processProperties_faithful.
    + intros [] s1 _ H1. apply faithful_forEach; [|done].
      intros c t _. apply persistManagedEntity_faithful.
  - by apply executeDeletes_faithful.
Qed.
